(** * docx2python: the package / part resolution layer ([docx_reader.py])

    A shallow embedding of [File] and [DocxReader] and of the library
    behaviour they rely on (POSIX [os.path], [str.join], [sorted],
    [zipfile.ZipFile]), followed by the properties of the package layer. *)

From Stdlib Require Import ZArith Lia Permutation Ascii String.
From stdpp Require Import base option list gmap strings sorting.

Local Open Scope string_scope.
Local Open Scope Z_scope.
Local Open Scope list_scope.

(** ** Python strings

    A [str] is modelled as a [string]; a [bytes] value as well (one
    character per byte). *)

Definition bytes := string.

Module Py.

(** [len(s)] *)
Definition len (s : string) : Z := Z.of_nat (String.length s).

(** [s[:i]] for [0 <= i] *)
Fixpoint take_nat (n : nat) (s : string) : string :=
  match n, s with
  | O, _ => ""
  | S _, EmptyString => ""
  | S n', String c r => String c (take_nat n' r)
  end.

(** [s[i:]] for [0 <= i] *)
Fixpoint drop_nat (n : nat) (s : string) : string :=
  match n, s with
  | O, _ => s
  | S _, EmptyString => ""
  | S n', String _ r => drop_nat n' r
  end.

Definition slice_to (s : string) (i : Z) : string := take_nat (Z.to_nat i) s.
Definition slice_from (s : string) (i : Z) : string := drop_nat (Z.to_nat i) s.

(** [s.rfind(c)]: the highest index of [c] in [s], or [-1]. *)
Fixpoint rfind_go (c : ascii) (s : string) (pos acc : Z) : Z :=
  match s with
  | EmptyString => acc
  | String a r => rfind_go c r (pos + 1) (if Ascii.eqb a c then pos else acc)
  end.
Definition rfind (s : string) (c : ascii) : Z := rfind_go c s 0 (-1).

(** [s.rstrip(c)] for a one-character [c] *)
Fixpoint rstrip (s : string) (c : ascii) : string :=
  match s with
  | EmptyString => ""
  | String a r =>
      match rstrip r c with
      | EmptyString => if Ascii.eqb a c then "" else String a ""
      | r' => String a r'
      end
  end.

(** [c * n] *)
Fixpoint repeat_chr (c : ascii) (n : nat) : string :=
  match n with
  | O => ""
  | S n' => String c (repeat_chr c n')
  end.

(** truth value of a string: non-empty *)
Definition truthy (s : string) : bool :=
  match s with EmptyString => false | String _ _ => true end.

(** [sep.join(l)] *)
Fixpoint join (sep : string) (l : list string) : string :=
  match l with
  | [] => ""
  | [x] => x
  | x :: rest => x +:+ sep +:+ join sep rest
  end.

(** [k in s] for strings: [k] occurs in [s] as a substring *)
Fixpoint contains (s k : string) : bool :=
  String.prefix k s
  || match s with
     | EmptyString => false
     | String _ r => contains r k
     end.

(** [sorted(l, key=key)] with string keys: a stable sort, ascending in
    the code-point order of the keys.  A stable sort is determined by
    its input, so straight insertion stands for Python's own. *)
Section sorted.
Context {A : Type} (key : A → string).

Fixpoint insert_by (x : A) (l : list A) : list A :=
  match l with
  | [] => [x]
  | y :: l' =>
      if String.leb (key x) (key y) then x :: y :: l'
      else y :: insert_by x l'
  end.

(** The elements are inserted from the right, each before the first
    element whose key is not smaller: equal keys keep their order. *)
Fixpoint sorted (l : list A) : list A :=
  match l with
  | [] => []
  | x :: l' => insert_by x (sorted l')
  end.
End sorted.

(** The order [sorted] sorts by. *)
Definition le_key {A : Type} (key : A → string) (x y : A) : Prop :=
  String.le (key x) (key y).

End Py.

(** ** [os.path] on a POSIX system ([posixpath]) *)

Module Posixpath.

Definition sep : ascii := "/"%char.

(** [posixpath.split] *)
Definition split (p : string) : string * string :=
  let i := Py.rfind p sep + 1 in
  let head := Py.slice_to p i in
  let tail := Py.slice_from p i in
  let head :=
    if Py.truthy head
       && negb (String.eqb head (Py.repeat_chr sep (String.length head)))
    then Py.rstrip head sep
    else head in
  (head, tail).

(** [posixpath.basename] *)
Definition basename (p : string) : string :=
  let i := Py.rfind p sep + 1 in
  Py.slice_from p i.

(** [posixpath.dirname] *)
Definition dirname (p : string) : string :=
  let i := Py.rfind p sep + 1 in
  let head := Py.slice_to p i in
  if Py.truthy head
     && negb (String.eqb head (Py.repeat_chr sep (String.length head)))
  then Py.rstrip head sep
  else head.

(** [posixpath.join(a, b)] *)
Definition join (a b : string) : string :=
  if String.prefix "/" b then b
  else if negb (Py.truthy a) || String.eqb (Py.slice_from a (Py.len a - 1)) "/"
       then a +:+ b
       else a +:+ "/" +:+ b.

End Posixpath.

Local Close Scope Z_scope.

(** ** Exceptions and results *)

Inductive exn : Type :=
  | KeyError (msg : string)
  | IndexError (msg : string)
  | ValueError (msg : string)
  | AttributeError (msg : string)
  | FileNotFoundError (msg : string)
  | BadZipFile (msg : string)
  | ReferenceError (msg : string)   (* a part reference with no part behind it *)
  | ExternalError (msg : string)    (* raised inside a collaborator *)
  | OSError (name : string).        (* [FileExistsError], [NotADirectoryError],
                                       [IsADirectoryError], [PermissionError], ...:
                                       the file system refuses; [name] is the class *)

(** [isinstance(ex, KeyError)] *)
Definition is_KeyError (e : exn) : bool :=
  match e with KeyError _ => true | _ => false end.

(** [isinstance(ex, IndexError)] *)
Definition is_IndexError (e : exn) : bool :=
  match e with IndexError _ => true | _ => false end.

(** [isinstance(ex, Exception)]: every exception of the model. *)
Definition is_Exception (e : exn) : bool := true.

(** [repr(ex)] *)
Definition repr (e : exn) : string :=
  match e with
  | KeyError m => "KeyError('" +:+ m +:+ "')"
  | IndexError m => "IndexError('" +:+ m +:+ "')"
  | ValueError m => "ValueError('" +:+ m +:+ "')"
  | AttributeError m => "AttributeError('" +:+ m +:+ "')"
  | FileNotFoundError m => "FileNotFoundError('" +:+ m +:+ "')"
  | BadZipFile m => "BadZipFile('" +:+ m +:+ "')"
  | ReferenceError m => "ReferenceError('" +:+ m +:+ "')"
  | ExternalError m => "Exception('" +:+ m +:+ "')"
  | OSError n => n +:+ "()"
  end.

Inductive result (A : Type) : Type :=
  | Ok (a : A)
  | Raise (e : exn).
Arguments Ok {A} a.
Arguments Raise {A} e.

Definition result_bind {A B} (r : result A) (k : A → result B) : result B :=
  match r with
  | Ok a => k a
  | Raise e => Raise e
  end.

(** A comprehension whose element expression can raise: the first
    exception ends it. *)
Fixpoint result_map {A B} (f : A → result B) (l : list A) : result (list B) :=
  match l with
  | [] => Ok []
  | x :: l' =>
      result_bind (f x) (λ y,
      result_bind (result_map f l') (λ ys, Ok (y :: ys)))
  end.

(** ** Data model *)

(** An lxml element: tag, attributes, text, children. *)
#[warnings="-register-all"]
Inductive Element : Type :=
  | Elem (tag : string) (attrib : gmap string string) (text : string)
         (children : list Element).

Definition Element_attrib (e : Element) : gmap string string :=
  match e with Elem _ a _ _ => a end.
Definition Element_children (e : Element) : list Element :=
  match e with Elem _ _ _ c => c end.

(** [zipfile.ZipInfo]: the member name, and everything else the
    archive keeps about a member (date, compression, attributes). *)
Record ZipInfo : Type := {
  filename : string;
  header : string;
}.

(** The header [writestr] gives a member written under a bare name. *)
Definition fresh_header : string := "".

Definition member : Type := ZipInfo * bytes.

Inductive zmode : Type := mode_r | mode_w.

(** [zipfile.ZipFile]: [fp] is [false] once the archive is closed. *)
Record ZipFile : Type := {
  zip_name : string;
  mode : zmode;
  filelist : list member;
  fp : bool;
}.

(** What a file holds.  The disk of the state maps a file to what it
    holds; a file is named by its real path, so that two spellings of
    one file are one key (see [realpath] below). *)
Inductive DiskFile : Type :=
  | Archive (members : list member)
  | Plain (data : bytes).

#[global] Instance ZipInfo_eq_dec : EqDecision ZipInfo.
Proof. solve_decision. Defined.

#[global] Instance DiskFile_eq_dec : EqDecision DiskFile.
Proof. solve_decision. Defined.

(** The file of an archive that was opened for reading still holds
    what it held then. *)
Definition intact (dsk : gmap string DiskFile) (zf : ZipFile) : Prop :=
  dsk !! zip_name zf = Some (Archive (filelist zf)).

#[global] Instance intact_dec (dsk : gmap string DiskFile) (zf : ZipFile) :
  Decision (intact dsk zf).
Proof. unfold intact. apply _. Defined.

(** [File]: the attributes taken from a relationship record and the
    four cache slots.  The back reference [context] is the one
    [DocxReader] of the state. *)
Record File : Type := {
  Id : string;
  Type_ : string;
  Target : string;
  dir : string;
  __path : option string;
  __rels_path : option string;
  __rels : option (gmap string string);
  __root_element : option Element;
}.

Definition File_with_path (f : File) (v : option string) : File :=
  {| Id := Id f; Type_ := Type_ f; Target := Target f; dir := dir f;
     __path := v; __rels_path := __rels_path f; __rels := __rels f;
     __root_element := __root_element f |}.
Definition File_with_rels_path (f : File) (v : option string) : File :=
  {| Id := Id f; Type_ := Type_ f; Target := Target f; dir := dir f;
     __path := __path f; __rels_path := v; __rels := __rels f;
     __root_element := __root_element f |}.
Definition File_with_rels (f : File) (v : option (gmap string string)) : File :=
  {| Id := Id f; Type_ := Type_ f; Target := Target f; dir := dir f;
     __path := __path f; __rels_path := __rels_path f; __rels := v;
     __root_element := __root_element f |}.
Definition File_with_root_element (f : File) (v : option Element) : File :=
  {| Id := Id f; Type_ := Type_ f; Target := Target f; dir := dir f;
     __path := __path f; __rels_path := __rels_path f; __rels := __rels f;
     __root_element := v |}.

(** [DocxReader].  [__zipf] refers to a [ZipFile] of the state;
    [__files] owns the parts, and a part is referred to by its position
    in that list. *)
Record DocxReader : Type := {
  docx_filename : string;
  do_pStyle : bool;
  html : bool;
  __zipf : option nat;
  __files : option (list File);
  __numId2NumFmts : option (gmap string (list string));
}.

Definition DocxReader_init (docx_filename : string) (html paragraph_styles : bool)
  : DocxReader :=
  {| docx_filename := docx_filename; do_pStyle := paragraph_styles;
     html := html; __zipf := None; __files := None; __numId2NumFmts := None |}.

Definition DocxReader_with_zipf (r : DocxReader) (v : option nat) : DocxReader :=
  {| docx_filename := docx_filename r; do_pStyle := do_pStyle r; html := html r;
     __zipf := v; __files := __files r; __numId2NumFmts := __numId2NumFmts r |}.
Definition DocxReader_with_files (r : DocxReader) (v : option (list File)) : DocxReader :=
  {| docx_filename := docx_filename r; do_pStyle := do_pStyle r; html := html r;
     __zipf := __zipf r; __files := v; __numId2NumFmts := __numId2NumFmts r |}.
Definition DocxReader_with_numId2NumFmts (r : DocxReader)
    (v : option (gmap string (list string))) : DocxReader :=
  {| docx_filename := docx_filename r; do_pStyle := do_pStyle r; html := html r;
     __zipf := __zipf r; __files := __files r; __numId2NumFmts := v |}.

Definition CONTENT_FILE_TYPES : gset string :=
  {[ "officeDocument"; "header"; "footer"; "footnotes"; "endnotes" ]}.

(** The work done outside this module, in the order it happens. *)
Inductive call : Type :=
  | call_ZipFile (name : string) (m : zmode)
  | call_read (name : string)
  | call_writestr (name : string)
  | call_fromstring
  | call_tostring
  | call_collect_rels
  | call_collect_numFmts
  | call_merge_elems (path : string)
  | call_get_text (path : string).

(** The state a [DocxReader] runs in. *)
Record World : Type := {
  disk : gmap string DiskFile;
  zipfiles : list ZipFile;
  reader : DocxReader;
  warnings : list string;
  calls : list call;
}.

Definition World_with_disk (w : World) (v : gmap string DiskFile) : World :=
  {| disk := v; zipfiles := zipfiles w; reader := reader w;
     warnings := warnings w; calls := calls w |}.
Definition World_with_zipfiles (w : World) (v : list ZipFile) : World :=
  {| disk := disk w; zipfiles := v; reader := reader w;
     warnings := warnings w; calls := calls w |}.
Definition World_with_reader (w : World) (v : DocxReader) : World :=
  {| disk := disk w; zipfiles := zipfiles w; reader := v;
     warnings := warnings w; calls := calls w |}.
Definition World_with_warnings (w : World) (v : list string) : World :=
  {| disk := disk w; zipfiles := zipfiles w; reader := reader w;
     warnings := v; calls := calls w |}.
Definition World_with_calls (w : World) (v : list call) : World :=
  {| disk := disk w; zipfiles := zipfiles w; reader := reader w;
     warnings := warnings w; calls := v |}.

(** A fresh reader over a file system: nothing opened, nothing cached. *)
Definition World_init (d : gmap string DiskFile) (docx_filename : string)
    (html paragraph_styles : bool) : World :=
  {| disk := d; zipfiles := [];
     reader := DocxReader_init docx_filename html paragraph_styles;
     warnings := []; calls := [] |}.

(** The nested lists of strings [get_text] produces. *)
Definition content_t : Type := list (list (list (list string))).

(** ** Collaborators

    [lxml.etree] and the modules of the package that [docx_reader]
    imports.  [merge_elems] changes the tree it is given in place and
    may raise: it yields the tree as it leaves it, and the exception
    if any.

    The operating system is taken as given too: [realpath] is the
    file a path names ([os.path.realpath]: two paths name one file
    exactly when it sends them to one value); [mkdir_error] and
    [open_error] are what the system raises, if anything, when asked
    on a given disk to make a directory with its parents, and to
    create or truncate a file for writing (no permission, a directory
    in the way, no space, ...). *)
Class Collaborators : Type := {
  etree_fromstring : bytes → result Element;
  etree_tostring : Element → bytes;
  collect_rels : ZipFile → result (list (string * list (gmap string string)));
  collect_numFmts : Element → result (gmap string (list string));
  merge_elems : File → Element → Element * option exn;
  extract_text : File → Element → result content_t;
  realpath : string → string;
  mkdir_error : gmap string DiskFile → string → option exn;
  open_error : gmap string DiskFile → string → option exn;
}.

(** What [pathlib.Path(d).mkdir(parents=True, exist_ok=True)] raises
    on the disk [dsk], if anything: [FileExistsError] when [d] is a
    regular file (every file of the disk is one), else what the system
    says. *)
Definition mkdir_refused `{Collaborators} (dsk : gmap string DiskFile) (d : string)
  : option exn :=
  match dsk !! realpath d with
  | Some _ => Some (OSError "FileExistsError")
  | None => mkdir_error dsk d
  end.

(** What opening [path] for writing raises on the disk [dsk], if
    anything: [IsADirectoryError] when the path has no file name
    (it is empty or ends in a slash), [NotADirectoryError] when its
    directory is a regular file, else what the system says. *)
Definition create_refused `{Collaborators} (dsk : gmap string DiskFile)
    (path : string) : option exn :=
  if String.eqb (Posixpath.basename path) "" then Some (OSError "IsADirectoryError")
  else match dsk !! realpath (Posixpath.dirname path) with
       | Some _ => Some (OSError "NotADirectoryError")
       | None => open_error dsk path
       end.

(** ** The state-and-exception monad *)

Definition M (A : Type) : Type := World → result A * World.

Definition ret {A} (a : A) : M A := λ w, (Ok a, w).
Definition raise {A} (e : exn) : M A := λ w, (Raise e, w).
Definition bind {A B} (c : M A) (k : A → M B) : M B :=
  λ w, match c w with
       | (Ok a, w') => k a w'
       | (Raise e, w') => (Raise e, w')
       end.
Definition lift {A} (r : result A) : M A := λ w, (r, w).
Definition get_world : M World := λ w, (Ok w, w).
Definition modify (f : World → World) : M unit := λ w, (Ok tt, f w).

Declare Scope M_scope.
Delimit Scope M_scope with M.
Bind Scope M_scope with M.
Notation "x ← c ; k" := (bind c (λ x : _, k))
  (at level 20, c at level 100, k at level 200, only parsing) : M_scope.
Notation "c ;; k" := (bind c (λ _, k))
  (at level 100, k at level 200, only parsing, right associativity) : M_scope.
Local Open Scope M_scope.

(** [try: c  except E as ex: h ex], where [catches] recognises [E]. *)
Definition try_except {A} (c : M A) (catches : exn → bool) (h : exn → M A) : M A :=
  λ w, match c w with
       | (Ok a, w') => (Ok a, w')
       | (Raise e, w') => if catches e then h e w' else (Raise e, w')
       end.

(** [try: c  finally: f] *)
Definition try_finally {A} (c : M A) (f : M unit) : M A :=
  λ w, match c w with
       | (r, w') =>
           match f w' with
           | (Ok _, w'') => (r, w'')
           | (Raise e, w'') => (Raise e, w'')
           end
       end.

(** [for x in l: body x] *)
Fixpoint for_each {A} (l : list A) (body : A → M unit) : M unit :=
  match l with
  | [] => ret tt
  | x :: l' => body x ;; for_each l' body
  end.

(** [[f x for x in l]] *)
Fixpoint map_M {A B} (f : A → M B) (l : list A) : M (list B) :=
  match l with
  | [] => ret []
  | x :: l' => y ← f x; ys ← map_M f l'; ret (y :: ys)
  end.

(** [[x for x in l if test x]] *)
Fixpoint filter_M {A} (test : A → M bool) (l : list A) : M (list A) :=
  match l with
  | [] => ret []
  | x :: l' =>
      b ← test x; xs ← filter_M test l'; ret (if b then x :: xs else xs)
  end.

Definition log_call (c : call) : M unit :=
  modify (λ w, World_with_calls w (calls w ++ [c])).

(** [warnings.warn(msg)] *)
Definition warn (msg : string) : M unit :=
  modify (λ w, World_with_warnings w (warnings w ++ [msg])).

Definition get_reader : M DocxReader := λ w, (Ok (reader w), w).
Definition set_reader (f : DocxReader → DocxReader) : M unit :=
  modify (λ w, World_with_reader w (f (reader w))).

(** ** [zipfile.ZipFile] *)

Module Zip.

Definition deref (z : nat) : M ZipFile :=
  λ w, match zipfiles w !! z with
       | Some zf => (Ok zf, w)
       | None => (Raise (ReferenceError "ZipFile"), w)
       end.

Definition update (z : nat) (f : ZipFile → ZipFile) : M unit :=
  modify (λ w, World_with_zipfiles w (alter f z (zipfiles w))).

Definition alloc (zf : ZipFile) : M nat :=
  λ w, (Ok (length (zipfiles w)), World_with_zipfiles w (zipfiles w ++ [zf])).

(** [zipfile.ZipFile(name)]: the members are those on disk when the
    archive is opened.  [zip_name] is the file that was opened. *)
Definition open_r `{Collaborators} (name : string) : M nat :=
  log_call (call_ZipFile name mode_r) ;;
  w ← get_world;
  match disk w !! realpath name with
  | None => raise (FileNotFoundError name)
  | Some (Plain _) => raise (BadZipFile "File is not a zip file")
  | Some (Archive ms) =>
      alloc {| zip_name := realpath name; mode := mode_r; filelist := ms;
               fp := true |}
  end.

(** [zipfile.ZipFile(name, mode="w")]: unless the system refuses, the
    file is created or truncated.  An archive that is open for reading
    on that same file is no longer [intact] from then on. *)
Definition open_w `{Collaborators} (name : string) : M nat :=
  log_call (call_ZipFile name mode_w) ;;
  w ← get_world;
  match create_refused (disk w) name with
  | Some e => raise e
  | None =>
      modify (λ w, World_with_disk w (<[realpath name := Plain ""]> (disk w))) ;;
      alloc {| zip_name := realpath name; mode := mode_w; filelist := [];
               fp := true |}
  end.

(** [NameToInfo[name]]: of several members with one name the last
    one read is kept. *)
Fixpoint getinfo (ms : list member) (name : string) : option member :=
  match ms with
  | [] => None
  | m :: ms' =>
      match getinfo ms' name with
      | Some m' => Some m'
      | None => if String.eqb (filename (fst m)) name then Some m else None
      end
  end.

(** [zf.infolist()] *)
Definition infolist (z : nat) : M (list ZipInfo) :=
  zf ← deref z; ret (fst <$> filelist zf).

(** [zf.read(name)]: the member is looked up in the directory read
    when the archive was opened, and its bytes are read from the file
    as it is now.  When the file of an archive opened for reading has
    been truncated or replaced since, the read meets [BadZipFile],
    [EOFError] or a decompression error, depending on what is left of
    the file; [BadZipFile] stands for these. *)
Definition read (z : nat) (name : string) : M bytes :=
  log_call (call_read name) ;;
  zf ← deref z;
  if negb (fp zf) then
    raise (ValueError "Attempt to use ZIP archive that was already closed")
  else
    match getinfo (filelist zf) name with
    | None => raise (KeyError ("There is no item named '" +:+ name +:+ "' in the archive"))
    | Some (_, data) =>
        w ← get_world;
        match mode zf with
        | mode_r =>
            if bool_decide (intact (disk w) zf) then ret data
            else raise (BadZipFile "Truncated file header")
        | mode_w => ret data
        end
    end.

(** [zf.writestr(zinfo_or_arcname, data)] *)
Definition writestr (z : nat) (zinfo_or_arcname : ZipInfo + string) (data : bytes)
  : M unit :=
  let zinfo :=
    match zinfo_or_arcname with
    | inl zinfo => zinfo
    | inr arcname => {| filename := arcname; header := fresh_header |}
    end in
  log_call (call_writestr (filename zinfo)) ;;
  zf ← deref z;
  if negb (fp zf) then
    raise (ValueError "Attempt to write to ZIP archive that was already closed")
  else
    match mode zf with
    | mode_r => raise (ValueError "write() requires mode 'w', 'x', or 'a'")
    | mode_w =>
        (if bool_decide (is_Some (getinfo (filelist zf) (filename zinfo)))
         then warn ("Duplicate name: '" +:+ filename zinfo +:+ "'")
         else ret tt) ;;
        update z (λ zf, {| zip_name := zip_name zf; mode := mode zf;
                           filelist := filelist zf ++ [(zinfo, data)];
                           fp := fp zf |})
    end.

(** [zf.close()]: nothing to do on a closed archive; an archive
    being written reaches the disk. *)
Definition close (z : nat) : M unit :=
  zf ← deref z;
  if negb (fp zf) then ret tt
  else
    (match mode zf with
     | mode_w =>
         modify (λ w, World_with_disk w
                        (<[zip_name zf := Archive (filelist zf)]> (disk w)))
     | mode_r => ret tt
     end) ;;
    update z (λ zf, {| zip_name := zip_name zf; mode := mode zf;
                       filelist := filelist zf; fp := false |}).

(** [with zf as z: body z] *)
Definition with_ {A} (z : nat) (body : M A) : M A :=
  try_finally body (close z).

End Zip.

(** [d[k]] *)
Definition getitem {V} (d : gmap string V) (k : string) : result V :=
  match d !! k with
  | Some v => Ok v
  | None => Raise (KeyError k)
  end.

(** [l[0]] *)
Definition first_item {A} (l : list A) : result A :=
  match l with
  | x :: _ => Ok x
  | [] => Raise (IndexError "list index out of range")
  end.

(** [pathlib.Path(d).mkdir(parents=True, exist_ok=True)]: it raises
    what [mkdir_refused] says; directories are not part of the state. *)
Definition mkdir `{Collaborators} (d : string) : M unit :=
  w ← get_world;
  match mkdir_refused (disk w) d with
  | Some e => raise e
  | None => ret tt
  end.

(** [with open(path, "wb") as f: f.write(data)]: it raises what
    [create_refused] says, and else the file holds [data]. *)
Definition write_bytes `{Collaborators} (path : string) (data : bytes) : M unit :=
  w ← get_world;
  match create_refused (disk w) path with
  | Some e => raise e
  | None =>
      modify (λ w, World_with_disk w (<[realpath path := Plain data]> (disk w)))
  end.

(** ** [docx_reader.py] *)

Section docx_reader.
Context `{Collaborators}.

(** The part a reference stands for. *)
Definition get_file (i : nat) : M File :=
  λ w, match __files (reader w) ≫= (.!! i) with
       | Some f => (Ok f, w)
       | None => (Raise (ReferenceError "File"), w)
       end.

Definition update_file (i : nat) (f : File → File) : M unit :=
  set_reader (λ r, DocxReader_with_files r (alter f i <$> __files r)).

(** [File.__init__] *)
Definition File_init (attribute_dict : gmap string string) : result File :=
  result_bind (getitem attribute_dict "Id") (λ id,
  result_bind (getitem attribute_dict "Type") (λ type,
  result_bind (getitem attribute_dict "Target") (λ target,
  result_bind (getitem attribute_dict "dir") (λ dir,
  Ok {| Id := id; Type_ := Posixpath.basename type; Target := target;
        dir := dir; __path := None; __rels_path := None; __rels := None;
        __root_element := None |})))).

(** [DocxReader.zipf] *)
Definition zipf : M nat :=
  self ← get_reader;
  match __zipf self with
  | Some z => ret z
  | None =>
      z ← Zip.open_r (docx_filename self);
      set_reader (λ r, DocxReader_with_zipf r (Some z));;
      ret z
  end.

(** [File.path] *)
Definition File_path (i : nat) : M string :=
  self ← get_file i;
  match __path self with
  | Some p => ret p
  | None =>
      let dirs := Posixpath.dirname <$> [dir self; Target self] in
      let dirname := Py.join "/" (List.filter Py.truthy dirs) in
      let filename := Posixpath.basename (Target self) in
      let p := Py.join "/" [dirname; filename] in
      update_file i (λ f, File_with_path f (Some p));;
      ret p
  end.

(** [File._rels_path] *)
Definition File__rels_path (i : nat) : M string :=
  self ← get_file i;
  match __rels_path self with
  | Some p => ret p
  | None =>
      p ← File_path i;
      let '(dirname, filename) := Posixpath.split p in
      let rp := Py.join "/" [dirname; "_rels"; filename +:+ ".rels"] in
      update_file i (λ f, File_with_rels_path f (Some rp));;
      ret rp
  end.

(** [{str(x.attrib["Id"]): str(x.attrib["Target"]) for x in tree}] *)
Fixpoint rels_of (tree : list Element) (acc : gmap string string)
  : result (gmap string string) :=
  match tree with
  | [] => Ok acc
  | x :: tree' =>
      result_bind (getitem (Element_attrib x) "Id") (λ k,
      result_bind (getitem (Element_attrib x) "Target") (λ v,
      rels_of tree' (<[k := v]> acc)))
  end.

(** [File.rels] *)
Definition File_rels (i : nat) : M (gmap string string) :=
  self ← get_file i;
  match __rels self with
  | Some r => ret r
  | None =>
      r ← try_except
            (z ← zipf;
             rp ← File__rels_path i;
             unzipped ← Zip.read z rp;
             log_call call_fromstring;;
             tree ← lift (etree_fromstring unzipped);
             lift (rels_of (Element_children tree) ∅))
            is_KeyError
            (λ _, ret ∅);
      update_file i (λ f, File_with_rels f (Some r));;
      ret r
  end.

(** [File.root_element].  [root_] is the copy taken before
    [merge_elems] runs; [root] is the tree [merge_elems] works on, so
    after the call it is the tree as [merge_elems] left it. *)
Definition File_root_element (i : nat) : M Element :=
  self ← get_file i;
  match __root_element self with
  | Some e => ret e
  | None =>
      z ← zipf;
      p ← File_path i;
      data ← Zip.read z p;
      log_call call_fromstring;;
      root ← lift (etree_fromstring data);
      self ← get_file i;
      root ← (if bool_decide (Type_ self ∈ CONTENT_FILE_TYPES) then
                let root_ := root in
                log_call (call_merge_elems p);;
                let '(root, raised) := merge_elems self root in
                match raised with
                | None => ret root
                | Some ex =>
                    if is_Exception ex then
                      r ← get_reader;
                      p ← File_path i;
                      warn ("Attempt to merge consecutive elements in "
                            +:+ docx_filename r +:+ " " +:+ p +:+ " resulted in "
                            +:+ repr ex +:+ ". Moving on.");;
                      update_file i (λ f, File_with_root_element f (Some root_));;
                      ret root
                    else raise ex
                end
              else ret root);
      update_file i (λ f, File_with_root_element f (Some root));;
      ret root
  end.

(** Modelled from the spec: [get_text] of [docx_text.py], which is
    handed the part and an optional root and extracts the text from
    the given root, or from the part's cached root when none is
    given. *)
Definition get_text (i : nat) (root : option Element) : M content_t :=
  self ← get_file i;
  log_call (call_get_text (default "" (__path self)));;
  root ← match root with
         | Some r => ret r
         | None => File_root_element i
         end;
  self ← get_file i;
  lift (extract_text self root).

(** [File.content] *)
Definition File_content (i : nat) : M content_t := get_text i None.

(** [File.get_content] *)
Definition File_get_content (i : nat) (root : option Element) : M content_t :=
  get_text i root.

(** [[File(self, {**x, "dir": os.path.dirname(k)}) for x in v]] *)
Definition files_of_rels (k : string) (v : list (gmap string string))
  : result (list File) :=
  result_map (λ x, File_init (<["dir" := Posixpath.dirname k]> x)) v.

(** The loop of [DocxReader.files] over [collect_rels(...).items()] *)
Fixpoint files_loop (items : list (string * list (gmap string string)))
    (files : list File) : result (list File) :=
  match items with
  | [] => Ok files
  | (k, v) :: items' =>
      result_bind (files_of_rels k v) (λ fs, files_loop items' (files ++ fs))
  end.

(** [DocxReader.files]: the references to the parts, in list order. *)
Definition files : M (list nat) :=
  self ← get_reader;
  match __files self with
  | Some fs => ret (seq 0 (length fs))
  | None =>
      z ← zipf;
      zf ← Zip.deref z;
      log_call call_collect_rels;;
      rels ← lift (collect_rels zf);
      fs ← lift (files_loop rels []);
      set_reader (λ r, DocxReader_with_files r (Some fs));;
      ret (seq 0 (length fs))
  end.

(** [DocxReader.numId2numFmts] *)
Definition numId2numFmts : M (gmap string (list string)) :=
  self ← get_reader;
  match __numId2NumFmts self with
  | Some t => ret t
  | None =>
      t ← try_except
            (z ← zipf;
             data ← Zip.read z "word/numbering.xml";
             log_call call_fromstring;;
             numFmts_root ← lift (etree_fromstring data);
             log_call call_collect_numFmts;;
             lift (collect_numFmts numFmts_root))
            is_KeyError
            (λ _, ret ∅);
      set_reader (λ r, DocxReader_with_numId2NumFmts r (Some t));;
      ret t
  end.

(** [x.Type in types] *)
Definition Type_in (types : gset string) (i : nat) : M bool :=
  x ← get_file i;
  ret (bool_decide (Type_ x ∈ types)).

(** The sort key [attrgetter("path")], paired with the part. *)
Definition keyed (i : nat) : M (string * nat) :=
  p ← File_path i;
  ret (p, i).

(** [DocxReader.files_of_type] *)
Definition files_of_type (type_ : option string) : M (list nat) :=
  let types :=
    match type_ with
    | None => CONTENT_FILE_TYPES
    | Some t => {[ t ]}
    end in
  fs ← files;
  matching ← filter_M (Type_in types) fs;
  with_keys ← map_M keyed matching;
  ret (snd <$> Py.sorted fst with_keys).

(** [DocxReader.file_of_type] *)
Definition file_of_type (type_ : string) : M nat :=
  files_of_type ← files_of_type (Some type_);
  (if bool_decide (1 < length files_of_type)%nat
   then warn "Multiple files of type '{type_}' found. Returning first."
   else ret tt);;
  try_except
    (lift (first_item files_of_type))
    is_IndexError
    (λ _, raise (KeyError (("There is no item of type '" +:+ type_ +:+ "' ")
                           +:+ "in the {self.docx_filename} archive"))).

(** [DocxReader.content_files] *)
Definition content_files : M (list nat) := files_of_type None.

(** [_copy_but] *)
Definition _copy_but (in_zip out_zip : nat) (exclusions : option (gset string))
  : M unit :=
  let exclusions := default ∅ exclusions in
  items ← Zip.infolist in_zip;
  for_each items (λ item,
    if bool_decide (filename item ∉ exclusions) then
      buffer ← Zip.read in_zip (filename item);
      Zip.writestr out_zip (inl item) buffer
    else ret tt);;
  Zip.close in_zip;;
  Zip.close out_zip.

(** [DocxReader.save] *)
Definition save (filename : string) : M unit :=
  fs ← files;
  content_files ← filter_M (Type_in CONTENT_FILE_TYPES) fs;
  zout ← Zip.open_w filename;
  Zip.with_ zout
    (in_zip ← zipf;
     exclusions ← map_M File_path content_files;
     _copy_but in_zip zout (Some (list_to_set exclusions));;
     for_each content_files (λ file,
       p ← File_path file;
       root ← File_root_element file;
       log_call call_tostring;;
       Zip.writestr zout (inr p) (etree_tostring root))).

(** The first loop of [DocxReader.pull_image_files] *)
Fixpoint pull_loop (imgs : list nat) (images : gmap string bytes)
  : M (gmap string bytes) :=
  match imgs with
  | [] => ret images
  | image :: imgs' =>
      images ← try_except
                 (z ← zipf;
                  p ← File_path image;
                  data ← Zip.read z p;
                  x ← get_file image;
                  ret (<[Posixpath.basename (Target x) := data]> images))
                 is_KeyError
                 (λ _, ret images);
      pull_loop imgs' images
  end.

(** [DocxReader.pull_image_files] *)
Definition pull_image_files (image_directory : option string)
  : M (gmap string bytes) :=
  imgs ← files_of_type (Some "image");
  images ← pull_loop imgs ∅;
  match image_directory with
  | Some d =>
      mkdir d;;
      for_each (map_to_list images) (λ '(file, image_bytes),
        write_bytes (Posixpath.join d file) image_bytes)
  | None => ret tt
  end;;
  ret images.

(** [DocxReader.close] *)
Definition close : M unit :=
  self ← get_reader;
  match __zipf self with
  | Some z => Zip.close z
  | None => raise (AttributeError "'NoneType' object has no attribute 'close'")
  end.

(** [DocxReader.__del__] *)
Definition __del__ : M unit :=
  self ← get_reader;
  match __zipf self with
  | Some z => Zip.close z
  | None => raise (AttributeError "'NoneType' object has no attribute 'close'")
  end.

End docx_reader.

(** ** The operations as functions of the part list

    What the accessors above yield, written without the state: used
    to state what they return. *)

(** The state with the part list replaced. *)
Definition set_files (w : World) (fs : list File) : World :=
  World_with_reader w (DocxReader_with_files (reader w) (Some fs)).

(** The part behind a reference, and its cached root. *)
Definition file_at (w : World) (i : nat) : option File :=
  match __files (reader w) with
  | Some fs => fs !! i
  | None => None
  end.

Definition cached_root (w : World) (i : nat) : option Element :=
  match file_at w i with
  | Some f => __root_element f
  | None => None
  end.

(** What [File.path] yields for a part: the cached path if there is
    one, the computed one otherwise. *)
Definition the_path (f : File) : string :=
  match __path f with
  | Some p => p
  | None =>
      Py.join "/"
        [Py.join "/" (List.filter Py.truthy (Posixpath.dirname <$> [dir f; Target f]));
         Posixpath.basename (Target f)]
  end.

Definition path_at (fs : list File) (i : nat) : string :=
  from_option the_path "" (fs !! i).

Definition type_at (fs : list File) (i : nat) : string :=
  from_option Type_ "" (fs !! i).

Definition target_at (fs : list File) (i : nat) : string :=
  from_option Target "" (fs !! i).

(** The part with its path cached. *)
Definition cache_path (f : File) : File := File_with_path f (Some (the_path f)).

Definition cache_paths (l : list nat) (fs : list File) : list File :=
  foldl (λ fs i, alter cache_path i fs) fs l.

(** The references of the parts whose type is in [types], in list order. *)
Definition matching (types : gset string) (fs : list File) : list nat :=
  List.filter (λ i, bool_decide (type_at fs i ∈ types)) (seq 0 (length fs)).

Definition types_of (type_ : option string) : gset string :=
  match type_ with
  | None => CONTENT_FILE_TYPES
  | Some t => {[ t ]}
  end.

(** The references [files_of_type] returns. *)
Definition sorted_refs (type_ : option string) (fs : list File) : list nat :=
  snd <$> Py.sorted fst ((λ i, (path_at fs i, i)) <$> matching (types_of type_) fs).

(** The mapping the first loop of [pull_image_files] builds from the
    members [ms] of the archive and the image parts [imgs]. *)
Definition images_of (ms : list member) (fs : list File) (imgs : list nat)
    (acc : gmap string bytes) : gmap string bytes :=
  foldl (λ images i,
           match Zip.getinfo ms (path_at fs i) with
           | Some (_, data) =>
               <[Posixpath.basename (target_at fs i) := data]> images
           | None => images
           end) acc imgs.

(** ** The storage path in the words of the specification

    The directory portions of [dir] and of [target]; the non-empty
    ones joined with a slash; then a slash and the base name of
    [target]. *)
Definition path_spec (dir target : string) : string :=
  let d1 := Posixpath.dirname dir in
  let d2 := Posixpath.dirname target in
  let combined :=
    match d1, d2 with
    | EmptyString, EmptyString => ""
    | EmptyString, _ => d2
    | _, EmptyString => d1
    | _, _ => d1 +:+ "/" +:+ d2
    end in
  combined +:+ "/" +:+ Posixpath.basename target.

(** ** A small package to run the operations on *)

Module Sample.

(** A relationship record as [collect_rels] hands it over. *)
Definition rel (id type target : string) : gmap string string :=
  {[ "Id" := id;
     "Type" := "http://schemas.openxmlformats.org/officeDocument/2006/relationships/"
               +:+ type;
     "Target" := target ]}.

Definition mem (name data : string) : member :=
  ({| filename := name; header := "deflated " +:+ name |}, data).

(** A stand-in for [os.path.realpath]: a leading [./] is dropped. *)
Definition realpath_toy (p : string) : string :=
  match p with
  | String "." (String "/" r) => r
  | _ => p
  end.

(** Stand-ins for the collaborators: a tree is its source text under
    one root, the relationship table is given, and the run-merge
    transform is given; the system refuses nothing beyond what
    [mkdir_refused] and [create_refused] say themselves. *)
Definition toy (table : list (string * list (gmap string string)))
    (merge : File → Element → Element * option exn) : Collaborators :=
  {| realpath := realpath_toy;
     mkdir_error := λ _ _, None;
     open_error := λ _ _, None;
     etree_fromstring := λ b, Ok (Elem "root" ∅ b []);
     etree_tostring := λ e, match e with Elem _ _ t _ => t end;
     collect_rels := λ zf,
       if fp zf then Ok table
       else Raise (ValueError "Attempt to use ZIP archive that was already closed");
     collect_numFmts := λ _, Ok ∅;
     merge_elems := merge;
     extract_text := λ _ e, match e with Elem _ _ t _ => Ok [[[[t]]]] end |}.

(** A transform that finds nothing to merge. *)
Definition merge_nothing (f : File) (root : Element) : Element * option exn :=
  (root, None).

(** A transform that fails after it has already emptied the root. *)
Definition merge_failing (f : File) (root : Element) : Element * option exn :=
  match root with
  | Elem tag attrib _ _ =>
      (Elem tag attrib "" [], Some (ExternalError "cannot merge"))
  end.

Definition example_docx : list member :=
  [ mem "_rels/.rels" "<Relationships/>";
    mem "word/_rels/document.xml.rels" "<Relationships/>";
    mem "word/document.xml" "<w:document>bullet item</w:document>";
    mem "word/header2.xml" "<w:hdr>two</w:hdr>";
    mem "word/header1.xml" "<w:hdr>one</w:hdr>";
    mem "word/styles.xml" "<w:styles/>";
    mem "word/media/image1.png" "PNG1" ].

Definition example_rels : list (string * list (gmap string string)) :=
  [ ("_rels/.rels", [rel "rId1" "officeDocument" "word/document.xml"]);
    ("word/_rels/document.xml.rels",
     [rel "rId1" "styles" "styles.xml";
      rel "rId2" "header" "header2.xml";
      rel "rId3" "header" "header1.xml";
      rel "rId4" "image" "media/image1.png";
      rel "rId5" "image" "media/image2.jpg"]) ].

(** [DocxReader("example.docx")] *)
Definition fresh : World :=
  World_init {[ "example.docx" := Archive example_docx ]} "example.docx" false false.

(** The same reader once [files] has been read. *)
Definition enumerated : World :=
  snd (files (H := toy example_rels merge_nothing) fresh).

Definition enumerated_files : list File :=
  default [] (__files (reader enumerated)).

(** The main document part and the second header part, as [files]
    creates them. *)
Definition document_part : File :=
  {| Id := "rId1"; Type_ := "officeDocument"; Target := "word/document.xml";
     dir := "_rels"; __path := None; __rels_path := None; __rels := None;
     __root_element := None |}.

Definition header2_part : File :=
  {| Id := "rId2"; Type_ := "header"; Target := "header2.xml";
     dir := "word/_rels"; __path := None; __rels_path := None; __rels := None;
     __root_element := None |}.

(** A package with two image parts of one base name, of which the
    archive holds only the one whose path sorts first. *)
Definition twin_docx : list member :=
  [ mem "_rels/.rels" "<Relationships/>";
    mem "word/document.xml" "<w:document/>";
    mem "word/a/logo.png" "PNG-A" ].

Definition twin_rels : list (string * list (gmap string string)) :=
  [ ("_rels/.rels", [rel "rId1" "officeDocument" "word/document.xml"]);
    ("word/_rels/document.xml.rels",
     [rel "rId1" "image" "b/logo.png";
      rel "rId2" "image" "a/logo.png"]) ].

Definition twin : World :=
  World_init {[ "twin.docx" := Archive twin_docx ]} "twin.docx" false false.

Definition twin_enumerated : World :=
  snd (files (H := toy twin_rels merge_nothing) twin).

Definition twin_files : list File :=
  default [] (__files (reader twin_enumerated)).

End Sample.

(** ** Relations between the state before and after a computation *)

(** The two states agree on [g]. *)
Definition same_by {X} (g : World → X) (w w' : World) : Prop := g w' = g w.

(** Every result of [c] relates the state it started in to the state
    it ended in by [Q]. *)
Definition respects (Q : relation World) {A} (c : M A) : Prop :=
  ∀ w r w', c w = (r, w') → Q w w'.

(** The state with one more call on record. *)
Definition logged (w : World) (c : call) : World :=
  World_with_calls w (calls w ++ [c]).

(** What [File._rels_path] yields for a part. *)
Definition the_rels_path (f : File) : string :=
  match __rels_path f with
  | Some p => p
  | None =>
      let '(dirname, filename) := Posixpath.split (the_path f) in
      Py.join "/" [dirname; "_rels"; filename +:+ ".rels"]
  end.

(** The part with its path and its rels path cached. *)
Definition cache_rels_path (f : File) : File :=
  File_with_rels_path (cache_path f) (Some (the_rels_path f)).

(** The archive of the reader can be read, and [ms] are its members:
    it is open and its file intact, or it has not been opened yet and
    is there on disk. *)
Definition readable `{Collaborators} (w : World) (ms : list member) : Prop :=
  match __zipf (reader w) with
  | Some z =>
      ∃ zf, zipfiles w !! z = Some zf ∧ fp zf = true ∧ filelist zf = ms
            ∧ intact (disk w) zf
  | None => disk w !! realpath (docx_filename (reader w)) = Some (Archive ms)
  end.

(** The archive of the reader is open, with members [ms], and its
    file intact. *)
Definition opened (w : World) (z : nat) (ms : list member) : Prop :=
  __zipf (reader w) = Some z
  ∧ ∃ zf, zipfiles w !! z = Some zf ∧ fp zf = true ∧ filelist zf = ms
          ∧ intact (disk w) zf.

(** The member [name] is in the archive. *)
Definition present (ms : list member) (name : string) : bool :=
  bool_decide (is_Some (Zip.getinfo ms name)).

(** ** Caches

    The cache slots of a reader and of its parts. *)
Inductive slot : Type :=
  | slot_zipf
  | slot_files
  | slot_numFmts
  | slot_path (i : nat)
  | slot_rels_path (i : nat)
  | slot_rels (i : nat)
  | slot_root (i : nat).

#[global] Instance slot_eq_dec : EqDecision slot.
Proof. solve_decision. Defined.

(** A filled slot stays filled, with the same value; a slot that is
    [free] may do anything. *)
Definition keeps {X} (free : bool) (c c' : option X) : Prop :=
  if free then True else ∀ v, c = Some v → c' = Some v.

(** Part [i] is the same part, with at least the caches it had,
    the slot [free] apart. *)
Definition File_extends (free : option slot) (i : nat) (f f' : File) : Prop :=
  Id f' = Id f ∧ Type_ f' = Type_ f ∧ Target f' = Target f ∧ dir f' = dir f
  ∧ keeps (bool_decide (free = Some (slot_path i))) (__path f) (__path f')
  ∧ keeps (bool_decide (free = Some (slot_rels_path i)))
      (__rels_path f) (__rels_path f')
  ∧ keeps (bool_decide (free = Some (slot_rels i))) (__rels f) (__rels f')
  ∧ keeps (bool_decide (free = Some (slot_root i)))
      (__root_element f) (__root_element f').

Definition files_extend (free : option slot) (fs fs' : list File) : Prop :=
  length fs' = length fs
  ∧ ∀ i f f', fs !! i = Some f → fs' !! i = Some f' → File_extends free i f f'.

(** The reader is the same reader, with at least the caches it had,
    the slot [free] apart: nothing has been invalidated. *)
Definition Reader_extends (free : option slot) (r r' : DocxReader) : Prop :=
  docx_filename r' = docx_filename r
  ∧ keeps (bool_decide (free = Some slot_zipf)) (__zipf r) (__zipf r')
  ∧ keeps (bool_decide (free = Some slot_numFmts))
      (__numId2NumFmts r) (__numId2NumFmts r')
  ∧ (if bool_decide (free = Some slot_files) then True
     else ∀ fs, __files r = Some fs →
                ∃ fs', __files r' = Some fs' ∧ files_extend free fs fs').

Definition extends (free : option slot) (w w' : World) : Prop :=
  Reader_extends free (reader w) (reader w').

(** The state with part [i] changed by [g]. *)
Definition with_file (w : World) (i : nat) (g : File → File) : World :=
  World_with_reader w
    (DocxReader_with_files (reader w) (alter g i <$> __files (reader w))).

(** How many times the text of a part has been extracted. *)
Definition extractions (cs : list call) : nat :=
  length (List.filter (λ c, match c with call_get_text _ => true | _ => false end) cs).

(** The slot holds nothing yet. *)
Definition slot_empty (s : slot) (w : World) : Prop :=
  match s with
  | slot_zipf => __zipf (reader w) = None
  | slot_files => __files (reader w) = None
  | slot_numFmts => __numId2NumFmts (reader w) = None
  | slot_path i => ∀ f, file_at w i = Some f → __path f = None
  | slot_rels_path i => ∀ f, file_at w i = Some f → __rels_path f = None
  | slot_rels i => ∀ f, file_at w i = Some f → __rels f = None
  | slot_root i => ∀ f, file_at w i = Some f → __root_element f = None
  end.

(** Every operation of a part or of the reader relates the state it
    starts in to the state it ends in by [Q], whatever it returns or
    raises. *)
Definition operations_respect `{Collaborators} (Q : relation World) : Prop :=
  (∀ i, respects Q (File_path i))
  ∧ (∀ i, respects Q (File__rels_path i))
  ∧ (∀ i, respects Q (File_rels i))
  ∧ (∀ i, respects Q (File_root_element i))
  ∧ (∀ i, respects Q (File_content i))
  ∧ (∀ i root, respects Q (File_get_content i root))
  ∧ respects Q zipf
  ∧ respects Q files
  ∧ respects Q numId2numFmts
  ∧ (∀ type_, respects Q (file_of_type type_))
  ∧ (∀ type_, respects Q (files_of_type type_))
  ∧ respects Q content_files
  ∧ (∀ filename, respects Q (save filename))
  ∧ (∀ image_directory, respects Q (pull_image_files image_directory))
  ∧ respects Q close
  ∧ respects Q __del__.

(** An archive that is closed in [w] is closed in [w']. *)
Definition stays_closed (z : nat) (w w' : World) : Prop :=
  (fp <$> zipfiles w !! z) = Some false → (fp <$> zipfiles w' !! z) = Some false.

(** What [_copy_but] writes for the members [l] of a source with
    members [ms]: each member that is not excluded, under its own
    [ZipInfo], with the bytes the source gives for its name. *)
Definition copied (ms l : list member) (exclusions : gset string) : list member :=
  omap (λ m : member,
          if bool_decide (filename (fst m) ∉ exclusions)
          then (λ found : member, (fst m, snd found))
                 <$> Zip.getinfo ms (filename (fst m))
          else None) l.

(** The archive with one more member. *)
Definition ZipFile_append (m : member) (zf : ZipFile) : ZipFile :=
  {| zip_name := zip_name zf; mode := mode zf;
     filelist := filelist zf ++ [m]; fp := fp zf |}.

(** The archive, closed. *)
Definition ZipFile_closed (zf : ZipFile) : ZipFile :=
  {| zip_name := zip_name zf; mode := mode zf;
     filelist := filelist zf; fp := false |}.

(** The body of the last loop of [save]: writing one content part. *)
Definition write_part `{Collaborators} (zout file : nat) : M unit :=
  bind (File_path file) (λ p,
  bind (File_root_element file) (λ root,
  bind (log_call call_tostring) (λ _,
  Zip.writestr zout (inr p) (etree_tostring root)))).

(** The names of the content parts: what [save] does not copy. *)
Definition content_paths (fs : list File) : gset string :=
  list_to_set (path_at fs <$> matching CONTENT_FILE_TYPES fs).

(** ** Strings, structurally

    The position of the last occurrence of a character, and whether a
    character occurs at all: what [rfind] and the slices around it
    compute, without the running index. *)
Fixpoint last_index (c : ascii) (s : string) : option nat :=
  match s with
  | EmptyString => None
  | String a r =>
      match last_index c r with
      | Some k => Some (S k)
      | None => if Ascii.eqb a c then Some 0 else None
      end
  end.

Fixpoint has_chr (c : ascii) (s : string) : bool :=
  match s with
  | EmptyString => false
  | String a r => Ascii.eqb a c || has_chr c r
  end.

(** A relationship element with both attributes [rels] asks for. *)
Definition has_Id_and_Target (x : Element) : Prop :=
  is_Some (Element_attrib x !! "Id") ∧ is_Some (Element_attrib x !! "Target").

#[global] Instance has_Id_and_Target_dec (x : Element) : Decision (has_Id_and_Target x).
Proof. unfold has_Id_and_Target. apply _. Defined.

(** The relationship records of all rels files, each with the path of
    the rels file it comes from, in the order [files] visits them. *)
Definition records (rels : list (string * list (gmap string string)))
  : list (string * gmap string string) :=
  mjoin ((λ kv : string * list (gmap string string), (λ x, (fst kv, x)) <$> snd kv)
           <$> rels).

(** The part [File.__init__] makes of a record found in rels file [k]. *)
Definition made_from (kx : string * gmap string string) (f : File) : Prop :=
  snd kx !! "Id" = Some (Id f)
  ∧ (Posixpath.basename <$> snd kx !! "Type") = Some (Type_ f)
  ∧ snd kx !! "Target" = Some (Target f)
  ∧ dir f = Posixpath.dirname (fst kx)
  ∧ __path f = None ∧ __rels_path f = None ∧ __rels f = None
  ∧ __root_element f = None.

(** A record with the three attributes [File.__init__] reads. *)
Definition complete_record (kx : string * gmap string string) : Prop :=
  is_Some (snd kx !! "Id") ∧ is_Some (snd kx !! "Type")
  ∧ is_Some (snd kx !! "Target").

#[global] Instance complete_record_dec (kx : string * gmap string string) :
  Decision (complete_record kx).
Proof. unfold complete_record. apply _. Defined.

(** ** [forms.py]

    The text that stands for a form check box and for a drop-down
    list.  [qn], of [namespace.py], and the built-in [int] are taken
    as given. *)

Module Forms.

(** What a statement can raise: [StopIteration], from [next] on an
    iterator that is exhausted, or an exception. *)
Inductive signal : Type :=
  | StopIteration
  | Exn (e : exn).

Inductive outcome (A : Type) : Type :=
  | Returns (a : A)
  | Raises (s : signal).
Arguments Returns {A} a.
Arguments Raises {A} s.

Definition and_then {A B} (r : outcome A) (k : A → outcome B) : outcome B :=
  match r with
  | Returns a => k a
  | Raises s => Raises s
  end.

Definition of_result {A} (r : result A) : outcome A :=
  match r with
  | Ok a => Returns a
  | Raise e => Raises (Exn e)
  end.

(** The exceptions named by [suppress(StopIteration)] and by
    [suppress(StopIteration, KeyError)] or
    [except (StopIteration, KeyError)]. *)
Definition is_StopIteration (s : signal) : bool :=
  match s with StopIteration => true | Exn _ => false end.

Definition is_StopIteration_or_KeyError (s : signal) : bool :=
  match s with StopIteration => true | Exn e => is_KeyError e end.

Definition Element_tag (e : Element) : string :=
  match e with Elem t _ _ _ => t end.

(** [e.findall(tag)] and [e.iterfind(tag)]: the children of [e] with
    that tag, in document order. *)
Definition findall (e : Element) (tag : string) : list Element :=
  List.filter (λ c, String.eqb (Element_tag c) tag) (Element_children e).

(** [next(it)] *)
Definition next {A} (it : list A) : outcome A :=
  match it with
  | [] => Raises StopIteration
  | x :: _ => Returns x
  end.

(** [x.attrib[k]] *)
Definition attrib_item (x : Element) (k : string) : outcome string :=
  of_result (getitem (Element_attrib x) k).

(** [v or d], for [v] a string or [None] *)
Definition or_ (v : option string) (d : string) : string :=
  match v with
  | Some s => if Py.truthy s then s else d
  | None => d
  end.

(** [str(v)], for [v] a string or [None] *)
Definition str (v : option string) : string := default "None" v.

(** [with suppress(...): return body], and then [rest]: the function
    returns what [body] yields; when [body] raises one of the
    exceptions named, it goes on with [rest]. *)
Definition suppress {A} (catches : signal → bool) (body rest : outcome A)
  : outcome A :=
  match body with
  | Returns a => Returns a
  | Raises s => if catches s then rest else Raises s
  end.

(** [try: body except (...): handler] *)
Definition except_ {A} (body : outcome A) (catches : signal → bool)
    (handler : outcome A) : outcome A :=
  match body with
  | Returns a => Returns a
  | Raises s => if catches s then handler else Raises s
  end.

(** [d[k]] for a dict literal whose keys are strings or [None] *)
Definition dict_item (d : list (option string * string)) (k : option string)
  : outcome string :=
  match List.find (λ kv, bool_decide (fst kv = k)) d with
  | Some kv => Returns (snd kv)
  | None => Raises (Exn (KeyError (str k)))
  end.

(** [l[i]]: a negative index counts from the end. *)
Definition list_item {A} (l : list A) (i : Z) : outcome A :=
  let n := Z.of_nat (length l) in
  let j := if (i <? 0)%Z then (i + n)%Z else i in
  if ((j <? 0) || (n <=? j))%Z
  then Raises (Exn (IndexError "list index out of range"))
  else match l !! Z.to_nat j with
       | Some x => Returns x
       | None => Raises (Exn (IndexError "list index out of range"))
       end.

(** The open and the crossed-out check box, U+2610 and U+2612, in
    UTF-8. *)
Definition unchecked_box : string := "☐".
Definition checked_box : string := "☒".

Section forms.
Variable qn : string → string.
Variable int : string → result Z.

(** [get_wval], local to [get_checkBox_entry] *)
Definition get_wval (checkBox : Element) : outcome (option string) :=
  suppress is_StopIteration
    (and_then (next (findall checkBox (qn "w:checked"))) (λ checked,
     Returns (Some (or_ (Element_attrib checked !! qn "w:val") "1"))))
    (suppress is_StopIteration_or_KeyError
       (and_then (next (findall checkBox (qn "w:default"))) (λ default,
        and_then (attrib_item default (qn "w:val")) (λ v,
        Returns (Some v))))
       (Returns None)).

(** [get_checkBox_entry] *)
Definition get_checkBox_entry (checkBox : Element) : outcome string :=
  and_then (get_wval checkBox) (λ wval,
  dict_item [(Some "0", unchecked_box); (Some "1", checked_box);
             (None, "----checkbox failed----")] wval).

(** [get_ddList_entry] *)
Definition get_ddList_entry (ddList : Element) : outcome string :=
  let list_entries :=
    (λ x, Element_attrib x !! qn "w:val") <$> findall ddList (qn "w:listEntry") in
  and_then
    (except_
       (and_then (next (findall ddList (qn "w:result"))) (λ result,
        and_then (attrib_item result (qn "w:val")) (λ v,
        of_result (int v))))
       is_StopIteration_or_KeyError
       (Returns 0%Z))
    (λ list_index,
  and_then (list_item list_entries list_index) (λ entry,
  Returns (str entry))).

End forms.

(** The value of [w:val] on the first child with a tag, if there is
    such a child and it has the attribute. *)
Definition first_val (qn : string → string) (e : Element) (tag : string)
  : option string :=
  head (findall e (qn tag)) ≫= λ c, Element_attrib c !! qn "w:val".

(** A stand-in for [qn] and one for [int], for unsigned and signed
    decimal numerals. *)
Definition qn_w (tag : string) : string :=
  match tag with
  | String "w" (String ":" local) =>
      "{http://schemas.openxmlformats.org/wordprocessingml/2006/main}" +:+ local
  | _ => tag
  end.

Fixpoint digits (s : string) (acc : Z) : option Z :=
  match s with
  | EmptyString => Some acc
  | String c r =>
      let d := Z.of_nat (nat_of_ascii c) in
      if ((48 <=? d) && (d <=? 57))%Z then digits r (10 * acc + (d - 48))%Z
      else None
  end.

Definition int_decimal (s : string) : result Z :=
  let bad := Raise (ValueError ("invalid literal for int() with base 10: '"
                                +:+ s +:+ "'")) in
  match s with
  | EmptyString => bad
  | String "-" r =>
      match r with
      | EmptyString => bad
      | _ => match digits r 0 with Some n => Ok (- n)%Z | None => bad end
      end
  | _ => match digits s 0 with Some n => Ok n | None => bad end
  end.

(** A check box and a drop-down list as in the docstrings. *)
Definition w_elem (local : string) (val : option string) : Element :=
  Elem (qn_w ("w:" +:+ local))
       (match val with Some v => {[ qn_w "w:val" := v ]} | None => ∅ end) "" [].

Definition sample_checkBox : Element :=
  Elem (qn_w "w:checkBox") ∅ ""
    [w_elem "sizeAuto" None; w_elem "default" (Some "1"); w_elem "checked" (Some "0")].

Definition sample_default_only : Element :=
  Elem (qn_w "w:checkBox") ∅ "" [w_elem "sizeAuto" None; w_elem "default" (Some "1")].

Definition sample_ddList : Element :=
  Elem (qn_w "w:ddList") ∅ ""
    [w_elem "result" (Some "1"); w_elem "listEntry" (Some "selection 1");
     w_elem "listEntry" (Some "selection 2")].

Definition sample_ddList_no_result : Element :=
  Elem (qn_w "w:ddList") ∅ ""
    [w_elem "listEntry" (Some "selection 1"); w_elem "listEntry" (Some "selection 2")].

End Forms.

(** ** A package with relationship files that parse, and a numbering part *)

Module Numbered.

Definition relationship (id target : string) : Element :=
  Elem "Relationship" {[ "Id" := id; "Target" := target ]} "" [].

(** The trees of the members that are parsed, by their text. *)
Definition trees : gmap string Element :=
  {[ "<Relationships>three</Relationships>" :=
       Elem "Relationships" ∅ ""
         [relationship "rId1" "styles.xml"; relationship "rId2" "header1.xml";
          relationship "rId1" "theme.xml"];
     "<Relationships>broken</Relationships>" :=
       Elem "Relationships" ∅ ""
         [relationship "rId1" "media/a.png";
          Elem "Relationship" {[ "Id" := "rId2" ]} "" []];
     "<w:numbering/>" := Elem "numbering" ∅ "" [] ]}.

Definition numbered_rels : list (string * list (gmap string string)) :=
  [ ("_rels/.rels", [Sample.rel "rId1" "officeDocument" "word/document.xml"]);
    ("word/_rels/document.xml.rels", [Sample.rel "rId2" "header" "header1.xml"]) ].

(** Relationship records of which the second has no [Target]. *)
Definition incomplete_rels : list (string * list (gmap string string)) :=
  [ ("_rels/.rels",
     [Sample.rel "rId1" "officeDocument" "word/document.xml";
      {[ "Id" := "rId2"; "Type" := "http://schemas.example/header" ]}]) ].

(** Stand-ins for the collaborators that parse by looking the text up. *)
Definition parsing (table : list (string * list (gmap string string)))
    (numFmts : result (gmap string (list string))) : Collaborators :=
  {| realpath := Sample.realpath_toy;
     mkdir_error := λ _ _, None;
     open_error := λ _ _, None;
     etree_fromstring := λ b,
       match trees !! b with
       | Some t => Ok t
       | None => Raise (ExternalError "XMLSyntaxError")
       end;
     etree_tostring := λ e, match e with Elem _ _ t _ => t end;
     collect_rels := λ zf,
       if fp zf then Ok table
       else Raise (ValueError "Attempt to use ZIP archive that was already closed");
     collect_numFmts := λ _, numFmts;
     merge_elems := Sample.merge_nothing;
     extract_text := λ _ e, match e with Elem _ _ t _ => Ok [[[[t]]]] end |}.

Definition numbered_docx : list member :=
  [ Sample.mem "_rels/.rels" "<Relationships/>";
    Sample.mem "word/_rels/document.xml.rels" "<Relationships>three</Relationships>";
    Sample.mem "word/document.xml" "<w:document/>";
    Sample.mem "word/numbering.xml" "<w:numbering/>";
    Sample.mem "word/_rels/header1.xml.rels" "<Relationships>broken</Relationships>";
    Sample.mem "word/header1.xml" "<w:hdr/>" ].

Definition numFmts : gmap string (list string) :=
  {[ "1" := ["decimal"; "lowerLetter"] ]}.

Definition fresh : World :=
  World_init {[ "numbered.docx" := Archive numbered_docx ]} "numbered.docx" false false.

(** The reader with its archive open, before [files] has been read. *)
Definition unzipped : World :=
  snd (zipf (H := parsing numbered_rels (Ok numFmts)) fresh).

Definition enumerated : World :=
  snd (files (H := parsing numbered_rels (Ok numFmts)) fresh).

Definition enumerated_files : list File :=
  default [] (__files (reader enumerated)).

Definition document_part : File :=
  {| Id := "rId1"; Type_ := "officeDocument"; Target := "word/document.xml";
     dir := "_rels"; __path := None; __rels_path := None; __rels := None;
     __root_element := None |}.

Definition header1_part : File :=
  {| Id := "rId2"; Type_ := "header"; Target := "header1.xml";
     dir := "word/_rels"; __path := None; __rels_path := None; __rels := None;
     __root_element := None |}.

End Numbered.

(** The other parts of [example.docx], as [files] creates them. *)
Definition styles_part : File :=
  {| Id := "rId1"; Type_ := "styles"; Target := "styles.xml";
     dir := "word/_rels"; __path := None; __rels_path := None; __rels := None;
     __root_element := None |}.

Definition image2_part : File :=
  {| Id := "rId5"; Type_ := "image"; Target := "media/image2.jpg";
     dir := "word/_rels"; __path := None; __rels_path := None; __rels := None;
     __root_element := None |}.

(** [example.docx] open, with an output archive open beside it, and
    the same once the reader has been closed. *)
Definition copying : World :=
  snd (Zip.open_w (H := Sample.toy Sample.example_rels Sample.merge_nothing)
         "example_copy.docx" Sample.enumerated).

Definition copying_closed : World :=
  snd (Zip.open_w (H := Sample.toy Sample.example_rels Sample.merge_nothing)
         "example_copy.docx" (snd (close Sample.enumerated))).

(** ** Writing the images out *)

(** The system lets [pull_image_files] write the images of [images]
    under [image_directory] on the disk [dsk]: it makes the directory,
    and it creates the file of each image, whatever has by then been
    written to the files of the images. *)
Definition writes_allowed `{Collaborators} (dsk : gmap string DiskFile)
    (image_directory : option string) (images : gmap string bytes) : Prop :=
  match image_directory with
  | None => True
  | Some d =>
      mkdir_refused dsk d = None
      ∧ ∀ dsk' name,
          is_Some (images !! name) →
          (∀ k, (∀ name', is_Some (images !! name') →
                          realpath (Posixpath.join d name') ≠ k) →
                dsk' !! k = dsk !! k) →
          create_refused dsk' (Posixpath.join d name) = None
  end.

(** Under [d], images with different names are different files. *)
Definition distinct_files `{Collaborators} (d : string) (images : gmap string bytes)
  : Prop :=
  ∀ a b, is_Some (images !! a) → is_Some (images !! b) →
         realpath (Posixpath.join d a) = realpath (Posixpath.join d b) → a = b.

(** * Properties *)

(** ** The library functions on a few inputs *)

Example dirname_word_rels : Posixpath.dirname "word/_rels" = "word".
Proof. reflexivity. Qed.
Example dirname_rels : Posixpath.dirname "_rels" = "".
Proof. reflexivity. Qed.
Example dirname_root : Posixpath.dirname "/a" = "/".
Proof. reflexivity. Qed.
Example basename_uri :
  Posixpath.basename "http://schemas.openxmlformats.org/officeDocument/2006/relationships/header"
  = "header".
Proof. reflexivity. Qed.
Example split_doc : Posixpath.split "word/document.xml" = ("word", "document.xml").
Proof. reflexivity. Qed.
Example sorted_stable :
  Py.sorted fst [("b", 1); ("a", 2); ("b", 3); ("a", 4)]
  = [("a", 2); ("a", 4); ("b", 1); ("b", 3)].
Proof. reflexivity. Qed.

(** ** Sorting *)

Section sorted_facts.
Context {A : Type} (key : A → string).

Local Abbreviation le_key := (Py.le_key key).

Lemma insert_by_Permutation (x : A) (l : list A) :
  Py.insert_by key x l ≡ₚ x :: l.
Proof.
  induction l as [|y l IH]; simpl; [done|].
  destruct (String.leb (key x) (key y)); [done|].
  rewrite IH. apply Permutation_swap.
Qed.

Lemma sorted_Permutation (l : list A) : Py.sorted key l ≡ₚ l.
Proof.
  induction l as [|x l IH]; simpl; [done|].
  by rewrite insert_by_Permutation, IH.
Qed.

Lemma sorted_length (l : list A) : length (Py.sorted key l) = length l.
Proof. by rewrite sorted_Permutation. Qed.

Lemma not_le_key_le (x y : A) : ¬ le_key x y → le_key y x.
Proof.
  intros Hxy. destruct (String.le_total (key x) (key y)) as [?|?]; [done|done].
Qed.

Lemma insert_by_StronglySorted (x : A) (l : list A) :
  StronglySorted le_key l → StronglySorted le_key (Py.insert_by key x l).
Proof.
  induction 1 as [|y l Hl IH Hy]; simpl.
  { repeat constructor. }
  destruct (String.leb (key x) (key y)) eqn:Hxy.
  - apply Is_true_true in Hxy.
    constructor; [by constructor|].
    constructor; [done|].
    eapply Forall_impl; [exact Hy|].
    intros z Hz. unfold Py.le_key in *. by etrans.
  - constructor; [done|].
    rewrite insert_by_Permutation. constructor; [|done].
    apply not_le_key_le. unfold Py.le_key, String.le.
    rewrite Hxy. by intros [].
Qed.

Lemma sorted_StronglySorted (l : list A) :
  StronglySorted le_key (Py.sorted key l).
Proof.
  induction l as [|x l IH]; simpl; [constructor|].
  by apply insert_by_StronglySorted.
Qed.

(** Stability, as far as the first element goes: it is the first
    element of the input with the least key. *)
Lemma sorted_head (l : list A) (x : A) :
  head (Py.sorted key l) = Some x →
  ∃ l1 l2, l = l1 ++ x :: l2
           ∧ Forall (λ y, ¬ le_key y x) l1
           ∧ Forall (λ y, le_key x y) l2.
Proof.
  revert x. induction l as [|a l IH]; intros x; simpl; [done|].
  destruct (Py.sorted key l) as [|y s] eqn:Hs; simpl.
  - intros [= <-].
    assert (l = []) as ->.
    { apply Permutation_nil_r. by rewrite <-Hs, sorted_Permutation. }
    exists [], []. by repeat constructor.
  - destruct (IH y eq_refl) as (l1 & l2 & -> & H1 & H2).
    destruct (String.leb (key a) (key y)) eqn:Hay; intros [= <-].
    + apply Is_true_true in Hay.
      exists [], (l1 ++ y :: l2). split; [done|]. split; [constructor|].
      apply Forall_app. split; [|constructor].
      * eapply Forall_impl; [exact H1|]. intros z Hz.
        unfold Py.le_key in *. etrans; [exact Hay|]. by apply not_le_key_le.
      * done.
      * eapply Forall_impl; [exact H2|]. intros z Hz.
        unfold Py.le_key in *. by etrans.
    + exists (a :: l1), l2. split; [done|]. split; [|done].
      constructor; [|done].
      unfold Py.le_key, String.le. rewrite Hay. by intros [].
Qed.

End sorted_facts.

(** ** The part list *)

Lemma set_files_id (w : World) (fs : list File) :
  __files (reader w) = Some fs → set_files w fs = w.
Proof.
  destruct w as [d z [n p h zf ofs nf] ws cs]; simpl.
  by intros ->.
Qed.

Lemma set_files_twice (w : World) (fs fs' : list File) :
  set_files (set_files w fs) fs' = set_files w fs'.
Proof. done. Qed.

Lemma cache_path_cached (f : File) (p : string) :
  __path f = Some p → cache_path f = f.
Proof.
  destruct f as [i t g d pa rp r re]; simpl. intros ->. done.
Qed.

Lemma the_path_cache_path (f : File) : the_path (cache_path f) = the_path f.
Proof. done. Qed.

Lemma alter_cached (fs : list File) (i : nat) (f : File) (p : string) :
  fs !! i = Some f → __path f = Some p → alter cache_path i fs = fs.
Proof.
  intros Hi Hp. apply list_eq. intros j.
  destruct (decide (i = j)) as [<-|Hne].
  - rewrite list_lookup_alter_eq, Hi. simpl. by erewrite cache_path_cached.
  - by rewrite list_lookup_alter_ne.
Qed.

Section path_facts.
Context `{Collaborators}.

(** What one access to [File.path] does: it yields [the_path] and
    leaves the part with that path cached; nothing else changes. *)
Lemma File_path_run (w : World) (fs : list File) (i : nat) (f : File) :
  __files (reader w) = Some fs → fs !! i = Some f →
  File_path i w = (Ok (the_path f), set_files w (alter cache_path i fs)).
Proof.
  intros Hfs Hi. unfold File_path, bind, get_file.
  rewrite Hfs. simpl. rewrite Hi. unfold the_path.
  destruct (__path f) as [p|] eqn:Hp.
  - unfold ret. erewrite alter_cached by done. by rewrite set_files_id.
  - unfold update_file, set_reader, modify, ret, bind. simpl.
    rewrite Hfs. simpl. unfold set_files. do 4 f_equal.
    apply list_eq. intros j. destruct (decide (i = j)) as [<-|Hne].
    + rewrite !list_lookup_alter_eq, Hi. simpl.
      unfold cache_path, the_path. by rewrite Hp.
    + by rewrite !list_lookup_alter_ne.
Qed.

Lemma the_path_spec (f : File) :
  __path f = None → the_path f = path_spec (dir f) (Target f).
Proof.
  intros Hp. unfold the_path, path_spec. rewrite Hp. simpl.
  destruct (Posixpath.dirname (dir f)), (Posixpath.dirname (Target f)); done.
Qed.

(** C3. For every part, whatever its [dir] and [Target], the first
    access to [path] returns the string the specification describes
    (the non-empty directory portions of [dir] and [Target] joined
    with a slash, then a slash and the base name of [Target]); a
    second access returns the same string; and neither access opens
    the archive, reads from it, calls a collaborator, or changes
    anything but the part's own cache. *)
Theorem File_path_pure (w : World) (fs : list File) (i : nat) (f : File) :
  __files (reader w) = Some fs → fs !! i = Some f → __path f = None →
  ∃ w',
    File_path i w = (Ok (path_spec (dir f) (Target f)), w')
    ∧ File_path i w' = (Ok (path_spec (dir f) (Target f)), w')
    ∧ calls w' = calls w
    ∧ zipfiles w' = zipfiles w
    ∧ disk w' = disk w
    ∧ warnings w' = warnings w
    ∧ __zipf (reader w') = __zipf (reader w).
Proof.
  intros Hfs Hi Hp.
  exists (set_files w (alter cache_path i fs)).
  rewrite <-(the_path_spec f Hp).
  split; [by apply File_path_run|].
  split; [|done].
  erewrite (File_path_run _ (alter cache_path i fs) i (cache_path f)).
  - rewrite the_path_cache_path. f_equal.
    rewrite set_files_twice. f_equal.
    eapply alter_cached.
    + by rewrite list_lookup_alter_eq, Hi.
    + done.
  - done.
  - by rewrite list_lookup_alter_eq, Hi.
Qed.

End path_facts.

(** The two resolutions the documentation of [File.path] gives. *)
Example path_spec_document : path_spec "_rels" "word/document.xml" = "word/document.xml".
Proof. reflexivity. Qed.
Example path_spec_header : path_spec "word/_rels" "header1.xml" = "word/header1.xml".
Proof. reflexivity. Qed.

(** ** [file_of_type] with nothing to find *)

Section file_of_type_missing.
Context `{Collaborators}.

(** Whenever no part has the requested type, [file_of_type] raises
    a [KeyError]; its message has the type in it, and then the text
    of the second literal as it stands in the source. *)
Lemma file_of_type_none_found (w w1 : World) (type_ : string) :
  files_of_type (Some type_) w = (Ok [], w1) →
  file_of_type type_ w
  = (Raise (KeyError (("There is no item of type '" +:+ type_ +:+ "' ")
                      +:+ "in the {self.docx_filename} archive")), w1).
Proof.
  intros Hrun. unfold file_of_type, bind. rewrite Hrun. simpl.
  unfold ret, try_except, lift. simpl. done.
Qed.

End file_of_type_missing.

(** C4. On the package [example.docx], which has no part of type
    [invalid_type], [file_of_type "invalid_type"] raises a [KeyError]
    whose message names the requested type but not the archive: where
    the archive name should be, the message has the unformatted
    placeholder. *)
Theorem file_of_type_missing_message :
  ∃ msg w',
    file_of_type (H := Sample.toy Sample.example_rels Sample.merge_nothing)
      "invalid_type" Sample.fresh = (Raise (KeyError msg), w')
    ∧ msg = "There is no item of type 'invalid_type' in the {self.docx_filename} archive"
    ∧ docx_filename (reader w') = "example.docx"
    ∧ Py.contains msg "invalid_type" = true
    ∧ Py.contains msg "example.docx" = false.
Proof.
  eexists _, _. split; [vm_compute; reflexivity|].
  repeat split; vm_compute; reflexivity.
Qed.

(** ** [close] *)

(** C9. On a reader whose archive has not been opened yet, [close]
    raises an [AttributeError], and so does a second [close], and so
    does [__del__]: the handle slot still holds [None]. *)
Theorem close_before_open_fails (d : gmap string DiskFile) (name : string)
    (html paragraph_styles : bool) :
  let w := World_init d name html paragraph_styles in
  let e := AttributeError "'NoneType' object has no attribute 'close'" in
  close w = (Raise e, w)
  ∧ close (snd (close w)) = (Raise e, w)
  ∧ __del__ (snd (close w)) = (Raise e, w).
Proof. done. Qed.

(** Once the archive has been opened, [close] succeeds, and a second
    [close] (or [__del__]) succeeds too and changes nothing. *)
Lemma close_twice_after_open (w : World) (z : nat) (zf : ZipFile) :
  __zipf (reader w) = Some z → zipfiles w !! z = Some zf →
  ∃ w1, close w = (Ok tt, w1)
        ∧ close w1 = (Ok tt, w1)
        ∧ __del__ w1 = (Ok tt, w1)
        ∧ (fp <$> zipfiles w1 !! z) = Some false.
Proof.
  intros Hz Hzf. unfold close, __del__, bind, get_reader. rewrite Hz.
  unfold Zip.close, bind, Zip.deref. rewrite Hzf.
  destruct (fp zf) eqn:Hfp; simpl.
  - destruct (mode zf) eqn:Hm; simpl; eexists; (split; [reflexivity|]);
      repeat (simpl; rewrite ?Hz, ?list_lookup_alter_eq, ?Hzf); done.
  - exists w. unfold ret. rewrite Hz, Hzf, Hfp. simpl. by rewrite Hfp.
Qed.

(** ** Stepping through a computation *)

Lemma bind_Ok {A B} (c : M A) (k : A → M B) (w w' : World) (a : A) :
  c w = (Ok a, w') → bind c k w = k a w'.
Proof. unfold bind. by intros ->. Qed.

Lemma bind_Raise {A B} (c : M A) (k : A → M B) (w w' : World) (e : exn) :
  c w = (Raise e, w') → bind c k w = (Raise e, w').
Proof. unfold bind. by intros ->. Qed.

Lemma get_file_run (w : World) (fs : list File) (i : nat) (f : File) :
  __files (reader w) = Some fs → fs !! i = Some f → get_file i w = (Ok f, w).
Proof. intros Hfs Hi. unfold get_file. by rewrite Hfs; simpl; rewrite Hi. Qed.

Lemma zipf_cached `{Collaborators} (w : World) (z : nat) :
  __zipf (reader w) = Some z → zipf w = (Ok z, w).
Proof. intros Hz. unfold zipf, bind, get_reader. by rewrite Hz. Qed.

Lemma Zip_read_found (w : World) (z : nat) (zf : ZipFile) (name : string)
    (info : ZipInfo) (data : bytes) :
  zipfiles w !! z = Some zf → fp zf = true → intact (disk w) zf →
  Zip.getinfo (filelist zf) name = Some (info, data) →
  Zip.read z name w = (Ok data, logged w (call_read name)).
Proof.
  intros Hz Hfp Hint Hget.
  unfold Zip.read, bind, log_call, modify, Zip.deref, get_world. simpl.
  rewrite Hz, Hfp. simpl. rewrite Hget.
  destruct (mode zf); [|done]. by rewrite bool_decide_true.
Qed.

Lemma Zip_read_missing (w : World) (z : nat) (zf : ZipFile) (name : string) :
  zipfiles w !! z = Some zf → fp zf = true →
  Zip.getinfo (filelist zf) name = None →
  Zip.read z name w
  = (Raise (KeyError ("There is no item named '" +:+ name +:+ "' in the archive")),
     logged w (call_read name)).
Proof.
  intros Hz Hfp Hget. unfold Zip.read, bind, log_call, modify, Zip.deref. simpl.
  rewrite Hz, Hfp. simpl. by rewrite Hget.
Qed.

Lemma Zip_read_closed (w : World) (z : nat) (zf : ZipFile) (name : string) :
  zipfiles w !! z = Some zf → fp zf = false →
  Zip.read z name w
  = (Raise (ValueError "Attempt to use ZIP archive that was already closed"),
     logged w (call_read name)).
Proof.
  intros Hz Hfp. unfold Zip.read, bind, log_call, modify, Zip.deref. simpl.
  by rewrite Hz, Hfp.
Qed.

(** ** [root_element] when the run-merge transform raises *)

Section root_element_facts.
Context `{Collaborators}.

(** Whatever the transform does: when it raises on a content part,
    [root_element] does not raise, warns with the archive name and
    the part path, and returns and caches [root'], the tree as the
    transform left it. *)
Lemma root_element_merge_raises (w : World) (fs : list File) (i z : nat)
    (f : File) (zf : ZipFile) (info : ZipInfo) (data : bytes)
    (root root' : Element) (ex : exn) :
  __files (reader w) = Some fs → fs !! i = Some f →
  __root_element f = None →
  __zipf (reader w) = Some z → zipfiles w !! z = Some zf → fp zf = true →
  intact (disk w) zf →
  Zip.getinfo (filelist zf) (the_path f) = Some (info, data) →
  etree_fromstring data = Ok root →
  Type_ f ∈ CONTENT_FILE_TYPES →
  merge_elems (cache_path f) root = (root', Some ex) →
  ∃ w',
    File_root_element i w = (Ok root', w')
    ∧ cached_root w' i = Some root'
    ∧ warnings w'
      = warnings w
        ++ ["Attempt to merge consecutive elements in "
            +:+ docx_filename (reader w) +:+ " " +:+ the_path f
            +:+ " resulted in " +:+ repr ex +:+ ". Moving on."].
Proof.
  intros Hfs Hi Hroot Hz Hzf Hfp Hint Hget Hparse Hty Hmerge.
  unfold File_root_element.
  erewrite bind_Ok by (by eapply get_file_run).
  rewrite Hroot.
  erewrite bind_Ok by (by apply zipf_cached).
  erewrite bind_Ok by (by eapply File_path_run).
  erewrite bind_Ok by (by eapply Zip_read_found).
  set (fs1 := alter cache_path i fs).
  assert (fs1 !! i = Some (cache_path f)) as Hi1.
  { unfold fs1. by rewrite list_lookup_alter_eq, Hi. }
  unfold bind at 1. simpl. unfold bind at 1. unfold lift at 1. rewrite Hparse.
  erewrite bind_Ok by (by eapply get_file_run).
  simpl. rewrite bool_decide_true by done.
  unfold bind at 2. simpl. rewrite Hmerge. simpl.
  unfold bind at 2. simpl.
  unfold bind at 1. cbv beta.
  erewrite (bind_Ok (File_path i)); last first.
  { eapply File_path_run; [reflexivity|exact Hi1]. }
  eexists. split; [reflexivity|]. unfold cached_root, file_at. simpl.
  rewrite !list_lookup_alter_eq. unfold fs1.
  rewrite !list_lookup_alter_eq, Hi. simpl. done.
Qed.

End root_element_facts.

(** C2. On [example.docx], with a transform that raises after it has
    emptied the root of the main document part: [root_element] does
    not raise and warns with the archive name and the part path, but
    the tree it caches and returns is the emptied one, not the tree
    as it was parsed (of which the copy was taken). *)
Theorem root_element_keeps_mutated_tree :
  let C := Sample.toy Sample.example_rels Sample.merge_failing in
  let w := snd (files (H := C) Sample.fresh) in
  let parsed := Elem "root" ∅ "<w:document>bullet item</w:document>" [] in
  let mutated := Elem "root" ∅ "" [] in
  (type_at (default [] (__files (reader w))) 0 = "officeDocument"
   ∧ path_at (default [] (__files (reader w))) 0 = "word/document.xml")
  ∧ etree_fromstring (Collaborators := C) "<w:document>bullet item</w:document>"
    = Ok parsed
  ∧ ∃ w',
      File_root_element (H := C) 0 w = (Ok mutated, w')
      ∧ cached_root w' 0 = Some mutated
      ∧ warnings w'
        = ["Attempt to merge consecutive elements in example.docx "
           +:+ "word/document.xml resulted in Exception('cannot merge'). Moving on."]
      ∧ mutated ≠ parsed.
Proof.
  split; [split; vm_compute; reflexivity|].
  split; [reflexivity|].
  eexists. split; [vm_compute; reflexivity|].
  split; [vm_compute; reflexivity|].
  split; [vm_compute; reflexivity|].
  intros [=].
Qed.

(** ** Computations that respect a relation *)

Lemma bind_inv {A B} (c : M A) (k : A → M B) (w w' : World) (r : result B) :
  bind c k w = (r, w') →
  (∃ a w1, c w = (Ok a, w1) ∧ k a w1 = (r, w'))
  ∨ (∃ e, c w = (Raise e, w') ∧ r = Raise e).
Proof.
  unfold bind. destruct (c w) as [[a|e] w1]; intros Hk.
  - left. by exists a, w1.
  - right. exists e. by simplify_eq.
Qed.

Lemma bind_inv_Ok {A B} (c : M A) (k : A → M B) (w w' : World) (b : B) :
  bind c k w = (Ok b, w') →
  ∃ a w1, c w = (Ok a, w1) ∧ k a w1 = (Ok b, w').
Proof.
  intros [Hok|(e & _ & ?)]%bind_inv; [done|done].
Qed.

Section respects_facts.
Context (Q : relation World) `{!PreOrder Q}.

Lemma respects_ret {A} (a : A) : respects Q (ret a).
Proof. intros w r w' [= <- <-]. done. Qed.

Lemma respects_raise {A} (e : exn) : respects Q (raise (A := A) e).
Proof. intros w r w' [= <- <-]. done. Qed.

Lemma respects_lift {A} (x : result A) : respects Q (lift x).
Proof. intros w r w' [= <- <-]. done. Qed.

Lemma respects_get_world : respects Q get_world.
Proof. intros w r w' [= <- <-]. done. Qed.

Lemma respects_get_reader : respects Q get_reader.
Proof. intros w r w' [= <- <-]. done. Qed.

Lemma respects_get_file (i : nat) : respects Q (get_file i).
Proof.
  intros w r w'. unfold get_file.
  destruct (__files (reader w) ≫= _); intros [= <- <-]; done.
Qed.

Lemma respects_deref (z : nat) : respects Q (Zip.deref z).
Proof.
  intros w r w'. unfold Zip.deref.
  destruct (zipfiles w !! z); intros [= <- <-]; done.
Qed.

Lemma respects_modify (f : World → World) :
  (∀ w, Q w (f w)) → respects Q (modify f).
Proof. intros Hf w r w' [= <- <-]. done. Qed.

Lemma respects_alloc (zf : ZipFile) :
  (∀ w, Q w (World_with_zipfiles w (zipfiles w ++ [zf]))) →
  respects Q (Zip.alloc zf).
Proof. intros Hf w r w' [= <- <-]. done. Qed.

Lemma respects_bind {A B} (c : M A) (k : A → M B) :
  respects Q c → (∀ a, respects Q (k a)) → respects Q (bind c k).
Proof.
  intros Hc Hk w r w' [(a & w1 & Hc1 & Hk1)|(e & Hc1 & _)]%bind_inv.
  - etrans; [by eapply Hc|by eapply Hk].
  - by eapply Hc.
Qed.

Lemma respects_try_except {A} (c : M A) (catches : exn → bool) (h : exn → M A) :
  respects Q c → (∀ e, respects Q (h e)) → respects Q (try_except c catches h).
Proof.
  intros Hc Hh w r w'. unfold try_except.
  destruct (c w) as [[a|e] w1] eqn:Hcw.
  - intros [= <- <-]. by eapply Hc.
  - destruct (catches e).
    + intros Hhe. etrans; [by eapply Hc|by eapply Hh].
    + intros [= <- <-]. by eapply Hc.
Qed.

Lemma respects_try_finally {A} (c : M A) (f : M unit) :
  respects Q c → respects Q f → respects Q (try_finally c f).
Proof.
  intros Hc Hf w r w'. unfold try_finally.
  destruct (c w) as [r1 w1] eqn:Hcw.
  destruct (f w1) as [[[]|e] w2] eqn:Hfw; intros [= <- <-];
    (etrans; [by eapply Hc|by eapply Hf]).
Qed.

Lemma respects_for_each {A} (l : list A) (body : A → M unit) :
  (∀ x, respects Q (body x)) → respects Q (for_each l body).
Proof.
  intros Hbody. induction l as [|x l IH]; simpl.
  - apply respects_ret.
  - apply respects_bind; [done|]. by intros _.
Qed.

Lemma respects_map_M {A B} (f : A → M B) (l : list A) :
  (∀ x, respects Q (f x)) → respects Q (map_M f l).
Proof.
  intros Hf. induction l as [|x l IH]; simpl.
  - apply respects_ret.
  - apply respects_bind; [done|]. intros y.
    apply respects_bind; [done|]. intros ys. apply respects_ret.
Qed.

Lemma respects_filter_M {A} (test : A → M bool) (l : list A) :
  (∀ x, respects Q (test x)) → respects Q (filter_M test l).
Proof.
  intros Hf. induction l as [|x l IH]; simpl.
  - apply respects_ret.
  - apply respects_bind; [done|]. intros y.
    apply respects_bind; [done|]. intros ys. apply respects_ret.
Qed.

End respects_facts.

#[global] Instance same_by_PreOrder {X} (g : World → X) : PreOrder (same_by g).
Proof.
  split.
  - by intros w.
  - intros w1 w2 w3 H12 H23. unfold same_by in *. congruence.
Qed.

(** One step of a proof that a computation respects a relation: by
    the shape of the computation. *)
Ltac respects_step :=
  lazymatch goal with
  | |- PreOrder _ => apply _
  | |- ∀ _, _ => intros ?
  | |- respects _ (bind _ _) => apply respects_bind
  | |- respects _ (ret _) => apply respects_ret
  | |- respects _ (raise _) => apply respects_raise
  | |- respects _ (lift _) => apply respects_lift
  | |- respects _ get_world => apply respects_get_world
  | |- respects _ get_reader => apply respects_get_reader
  | |- respects _ (get_file _) => apply respects_get_file
  | |- respects _ (Zip.deref _) => apply respects_deref
  | |- respects _ (modify _) => apply respects_modify
  | |- respects _ (Zip.alloc _) => apply respects_alloc
  | |- respects _ (try_except _ _ _) => apply respects_try_except
  | |- respects _ (try_finally _ _) => apply respects_try_finally
  | |- respects _ (for_each _ _) => apply respects_for_each
  | |- respects _ (map_M _ _) => apply respects_map_M
  | |- respects _ (filter_M _ _) => apply respects_filter_M
  | |- respects _ (match ?x with _ => _ end) => destruct x
  end.

Ltac respects_steps :=
  repeat (respects_step; try done; try (unfold same_by; simpl; by auto)).

(** ** Enumerating the parts *)

Lemma path_at_alter (fs : list File) (i j : nat) :
  path_at (alter cache_path i fs) j = path_at fs j.
Proof.
  unfold path_at. destruct (decide (i = j)) as [<-|Hne].
  - rewrite list_lookup_alter_eq. by destruct (fs !! i).
  - by rewrite list_lookup_alter_ne.
Qed.

Lemma type_at_alter (fs : list File) (i j : nat) :
  type_at (alter cache_path i fs) j = type_at fs j.
Proof.
  unfold type_at. destruct (decide (i = j)) as [<-|Hne].
  - rewrite list_lookup_alter_eq. by destruct (fs !! i).
  - by rewrite list_lookup_alter_ne.
Qed.

Lemma cache_paths_cons (i : nat) (l : list nat) (fs : list File) :
  cache_paths (i :: l) fs = cache_paths l (alter cache_path i fs).
Proof. done. Qed.

Lemma cache_paths_length (l : list nat) (fs : list File) :
  length (cache_paths l fs) = length fs.
Proof.
  revert fs. induction l as [|i l IH]; intros fs; [done|].
  by rewrite cache_paths_cons, IH, length_alter.
Qed.

Lemma path_at_cache_paths (l : list nat) (fs : list File) (j : nat) :
  path_at (cache_paths l fs) j = path_at fs j.
Proof.
  revert fs. induction l as [|i l IH]; intros fs; [done|].
  by rewrite cache_paths_cons, IH, path_at_alter.
Qed.

Lemma type_at_cache_paths (l : list nat) (fs : list File) (j : nat) :
  type_at (cache_paths l fs) j = type_at fs j.
Proof.
  revert fs. induction l as [|i l IH]; intros fs; [done|].
  by rewrite cache_paths_cons, IH, type_at_alter.
Qed.

Section enumeration.
Context `{Collaborators}.

(** After a successful [files] the part list is there, and the
    references returned are all its positions. *)
Lemma files_run (w w0 : World) (refs : list nat) :
  files w = (Ok refs, w0) →
  ∃ fs, __files (reader w0) = Some fs
        ∧ refs = seq 0 (length fs)
        ∧ files w0 = (Ok refs, w0).
Proof.
  unfold files at 1. intros Hrun.
  apply bind_inv_Ok in Hrun as (self & w1 & [= <- <-] & Hrun).
  destruct (__files (reader w)) as [fs|] eqn:Hfs.
  - injection Hrun as <- <-. exists fs. split; [done|]. split; [done|].
    unfold files, bind, get_reader. by rewrite Hfs.
  - apply bind_inv_Ok in Hrun as (z & w1 & _ & Hrun).
    apply bind_inv_Ok in Hrun as (zf & w2 & _ & Hrun).
    apply bind_inv_Ok in Hrun as ([] & w3 & _ & Hrun).
    apply bind_inv_Ok in Hrun as (rels & w4 & _ & Hrun).
    apply bind_inv_Ok in Hrun as (fs & w5 & _ & Hrun).
    apply bind_inv_Ok in Hrun as ([] & w6 & [= <-] & [= <- <-]).
    exists fs. split; [done|]. split; [done|].
    unfold files, bind, get_reader. done.
Qed.

Lemma filter_M_Type_in (w : World) (fs : list File) (types : gset string)
    (l : list nat) :
  __files (reader w) = Some fs → Forall (λ i, i < length fs) l →
  filter_M (Type_in types) l w
  = (Ok (List.filter (λ i, bool_decide (type_at fs i ∈ types)) l), w).
Proof.
  intros Hfs. induction 1 as [|i l Hi Hl IH]; simpl; [done|].
  apply lookup_lt_is_Some in Hi as [f Hf].
  unfold Type_in at 1.
  erewrite bind_Ok; last first.
  { erewrite bind_Ok by (by eapply get_file_run). reflexivity. }
  erewrite bind_Ok by exact IH.
  unfold ret, type_at. rewrite Hf. simpl.
  by destruct (bool_decide (Type_ f ∈ types)).
Qed.

Lemma map_M_keyed (w : World) (fs : list File) (l : list nat) :
  __files (reader w) = Some fs → Forall (λ i, i < length fs) l →
  map_M keyed l w
  = (Ok ((λ i, (path_at fs i, i)) <$> l), set_files w (cache_paths l fs)).
Proof.
  intros Hfs Hl. revert w fs Hfs Hl.
  induction l as [|i l IH]; intros w fs Hfs Hl; simpl.
  - unfold ret. by rewrite set_files_id.
  - apply Forall_cons in Hl as [Hi Hl].
    apply lookup_lt_is_Some in Hi as [f Hf].
    unfold keyed at 1.
    erewrite bind_Ok; last first.
    { erewrite bind_Ok by (by eapply File_path_run). reflexivity. }
    erewrite bind_Ok; last first.
    { apply IH; [reflexivity|]. by rewrite length_alter. }
    unfold ret. rewrite set_files_twice. f_equal. f_equal.
    f_equal.
    + unfold path_at. by rewrite Hf.
    + apply list_fmap_ext. intros _ j _. by rewrite path_at_alter.
Qed.

(** What [files_of_type] returns and what it leaves behind, given
    the part list that [files] yields. *)
Lemma files_of_type_run (w w0 : World) (refs : list nat) (fs : list File)
    (type_ : option string) :
  files w = (Ok refs, w0) → __files (reader w0) = Some fs →
  files_of_type type_ w
  = (Ok (sorted_refs type_ fs),
     set_files w0 (cache_paths (matching (types_of type_) fs) fs)).
Proof.
  intros Hrun Hfs.
  destruct (files_run _ _ _ Hrun) as (fs' & Hfs' & -> & _).
  assert (fs' = fs) as -> by congruence.
  unfold files_of_type.
  erewrite bind_Ok by exact Hrun.
  erewrite bind_Ok; last first.
  { apply filter_M_Type_in; [done|].
    apply Forall_forall. intros i Hi%elem_of_seq. lia. }
  fold (types_of type_). fold (matching (types_of type_) fs).
  erewrite bind_Ok; last first.
  { apply map_M_keyed; [done|].
    apply Forall_forall. intros i Hi. unfold matching in Hi.
    apply list_elem_of_In, filter_In in Hi as [Hi _].
    apply list_elem_of_In, elem_of_seq in Hi. lia. }
  done.
Qed.

End enumeration.

(** ** The parts of a type, sorted *)

Lemma elem_of_matching (types : gset string) (fs : list File) (i : nat) :
  i ∈ matching types fs ↔ ∃ f, fs !! i = Some f ∧ Type_ f ∈ types.
Proof.
  unfold matching. rewrite list_elem_of_In, filter_In, <-list_elem_of_In.
  rewrite elem_of_seq, bool_decide_eq_true. unfold type_at. split.
  - intros [[_ Hi] Hty]. simpl in Hi.
    apply lookup_lt_is_Some in Hi as [f Hf]. rewrite Hf in Hty. eauto.
  - intros (f & Hf & Hty). rewrite Hf. split; [|done].
    apply lookup_lt_Some in Hf. lia.
Qed.

Lemma NoDup_matching (types : gset string) (fs : list File) :
  NoDup (matching types fs).
Proof.
  unfold matching. apply NoDup_ListNoDup, List.NoDup_filter, NoDup_ListNoDup, NoDup_seq.
Qed.

Lemma sorted_refs_Permutation (type_ : option string) (fs : list File) :
  sorted_refs type_ fs ≡ₚ matching (types_of type_) fs.
Proof.
  unfold sorted_refs. rewrite sorted_Permutation, <-list_fmap_compose.
  by rewrite list_fmap_id.
Qed.

Lemma sorted_refs_length (type_ : option string) (fs : list File) :
  length (sorted_refs type_ fs) = length (matching (types_of type_) fs).
Proof. by rewrite sorted_refs_Permutation. Qed.

Lemma sorted_refs_sorted (type_ : option string) (fs : list File) :
  StronglySorted (λ i j, String.le (path_at fs i) (path_at fs j))
    (sorted_refs type_ fs).
Proof.
  unfold sorted_refs.
  set (keyed := (λ i, (path_at fs i, i)) <$> matching (types_of type_) fs).
  assert (Forall (λ x, fst x = path_at fs (snd x)) (Py.sorted fst keyed)) as Hkeys.
  { rewrite sorted_Permutation. unfold keyed.
    apply Forall_fmap, Forall_forall. done. }
  pose proof (sorted_StronglySorted fst keyed) as Hsorted.
  induction Hsorted as [|x l Hl IH Hx]; simpl; [constructor|].
  apply Forall_cons in Hkeys as [Hkx Hkl].
  constructor; [by apply IH|].
  apply Forall_fmap, Forall_forall. intros y Hy. simpl.
  rewrite Forall_forall in Hx, Hkl.
  rewrite <-Hkx, <-(Hkl y Hy). by apply (Hx y).
Qed.

(** A part has one type, so the content parts are counted by adding
    up the parts of each content type. *)
Lemma content_type_b2n (t : string) :
  Nat.b2n (bool_decide (t ∈ CONTENT_FILE_TYPES))
  = Nat.b2n (bool_decide (t ∈ ({[ "officeDocument" ]} : gset string)))
    + Nat.b2n (bool_decide (t ∈ ({[ "header" ]} : gset string)))
    + Nat.b2n (bool_decide (t ∈ ({[ "footer" ]} : gset string)))
    + Nat.b2n (bool_decide (t ∈ ({[ "footnotes" ]} : gset string)))
    + Nat.b2n (bool_decide (t ∈ ({[ "endnotes" ]} : gset string))).
Proof.
  assert (∀ s : string,
            bool_decide (t ∈ ({[ s ]} : gset string)) = bool_decide (t = s)) as Hs.
  { intros s. apply bool_decide_ext, elem_of_singleton. }
  assert (bool_decide (t ∈ CONTENT_FILE_TYPES)
          = bool_decide (t = "officeDocument" ∨ t = "header" ∨ t = "footer"
                         ∨ t = "footnotes" ∨ t = "endnotes")) as ->.
  { apply bool_decide_ext. unfold CONTENT_FILE_TYPES.
    rewrite !elem_of_union, !elem_of_singleton. tauto. }
  rewrite !Hs. clear Hs.
  destruct (decide (t = "officeDocument")) as [->|H1]; [done|].
  destruct (decide (t = "header")) as [->|H2]; [done|].
  destruct (decide (t = "footer")) as [->|H3]; [done|].
  destruct (decide (t = "footnotes")) as [->|H4]; [done|].
  destruct (decide (t = "endnotes")) as [->|H5]; [done|].
  rewrite !bool_decide_false by tauto. done.
Qed.

Lemma filter_length_cons {A} (b : bool) (x : A) (l : list A) :
  length (if b then x :: l else l) = Nat.b2n b + length l.
Proof. by destruct b. Qed.

Lemma matching_content_length (fs : list File) :
  length (matching CONTENT_FILE_TYPES fs)
  = length (matching {[ "officeDocument" ]} fs)
    + length (matching {[ "header" ]} fs)
    + length (matching {[ "footer" ]} fs)
    + length (matching {[ "footnotes" ]} fs)
    + length (matching {[ "endnotes" ]} fs).
Proof.
  unfold matching. induction (seq 0 (length fs)) as [|i l IH]; simpl; [done|].
  rewrite !filter_length_cons, IH, content_type_b2n. lia.
Qed.

Section files_of_type_facts.
Context `{Collaborators}.

(** C8. Once [files] has yielded the part list, [files_of_type(None)]
    returns each part of a content type exactly once and nothing
    else, in ascending order of storage path, and as many parts as
    the five calls [files_of_type(t)] for the content types return
    together. *)
Theorem files_of_type_None_content (w w0 : World) (refs : list nat)
    (fs : list File) :
  files w = (Ok refs, w0) → __files (reader w0) = Some fs →
  ∃ l w1,
    files_of_type None w = (Ok l, w1)
    ∧ (∀ i, i ∈ l ↔ ∃ f, fs !! i = Some f ∧ Type_ f ∈ CONTENT_FILE_TYPES)
    ∧ NoDup l
    ∧ StronglySorted (λ i j, String.le (path_at fs i) (path_at fs j)) l
    ∧ ∃ l1 l2 l3 l4 l5 w2 w3 w4 w5 w6,
        files_of_type (Some "officeDocument") w = (Ok l1, w2)
        ∧ files_of_type (Some "header") w = (Ok l2, w3)
        ∧ files_of_type (Some "footer") w = (Ok l3, w4)
        ∧ files_of_type (Some "footnotes") w = (Ok l4, w5)
        ∧ files_of_type (Some "endnotes") w = (Ok l5, w6)
        ∧ length l = length l1 + length l2 + length l3 + length l4 + length l5.
Proof.
  intros Hrun Hfs.
  eexists _, _. split; [by eapply files_of_type_run|].
  split; [|split; [|split]].
  - intros i. by rewrite sorted_refs_Permutation, elem_of_matching.
  - rewrite sorted_refs_Permutation. apply NoDup_matching.
  - apply sorted_refs_sorted.
  - eexists _, _, _, _, _, _, _, _, _, _.
    repeat (split; [by eapply files_of_type_run|]).
    rewrite !sorted_refs_length. apply matching_content_length.
Qed.

End files_of_type_facts.

(** ** The first part of a type *)

Lemma filter_StronglySorted {A} (R : relation A) (b : A → bool) (l : list A) :
  StronglySorted R l → StronglySorted R (List.filter b l).
Proof.
  induction 1 as [|x l Hl IH Hx]; simpl; [constructor|].
  destruct (b x); [|done]. constructor; [done|].
  apply Forall_forall. intros y Hy.
  apply list_elem_of_In, filter_In in Hy as [Hy _].
  rewrite Forall_forall in Hx. by apply Hx, list_elem_of_In.
Qed.

Lemma seq_StronglySorted (j n : nat) : StronglySorted lt (seq j n).
Proof.
  revert j. induction n as [|n IH]; intros j; simpl; constructor; [done|].
  apply Forall_forall. intros k Hk%elem_of_seq. lia.
Qed.

Lemma matching_increasing (types : gset string) (fs : list File) :
  StronglySorted lt (matching types fs).
Proof. apply filter_StronglySorted, seq_StronglySorted. Qed.

(** The first reference [files_of_type] returns: a part of the type,
    with a path no part of the type sorts before, and ahead of which,
    in the part list, no part of the type has that same path. *)
Lemma sorted_refs_head (type_ : option string) (fs : list File) (r : nat) :
  head (sorted_refs type_ fs) = Some r →
  r ∈ matching (types_of type_) fs
  ∧ (∀ j, j ∈ matching (types_of type_) fs →
          String.le (path_at fs r) (path_at fs j))
  ∧ (∀ j, j ∈ matching (types_of type_) fs → j < r →
          path_at fs j ≠ path_at fs r).
Proof.
  unfold sorted_refs.
  set (m := matching (types_of type_) fs).
  pose proof (matching_increasing (types_of type_) fs) as Hinc. fold m in Hinc.
  destruct (Py.sorted fst _) as [|x s] eqn:Hs; [done|].
  simpl. intros [= <-].
  destruct (sorted_head fst ((λ i, (path_at fs i, i)) <$> m) x) as (l1 & l2 & Hl & H1 & H2).
  { by rewrite Hs. }
  apply fmap_app_inv in Hl as (m1 & m2' & -> & Hm2 & Hm).
  symmetry in Hm2. apply fmap_cons_inv in Hm2 as (r & m2 & -> & -> & ->).
  simpl in *. rewrite Hm in *. clear Hm Hs.
  unfold Py.le_key in H1, H2.
  rewrite Forall_fmap, Forall_forall in H1.
  rewrite Forall_fmap, Forall_forall in H2.
  split; [set_solver|]. split.
  - intros j [Hj|[->|Hj]%elem_of_cons]%elem_of_app.
    + specialize (H1 j Hj). simpl in H1.
      destruct (String.le_total (path_at fs r) (path_at fs j)); done.
    + done.
    + by apply (H2 j).
  - intros j Hj Hlt.
    apply elem_of_app in Hj as [Hj|Hj].
    + specialize (H1 j Hj). simpl in H1. intros Heq. apply H1. by rewrite Heq.
    + exfalso. apply StronglySorted_app_1_r in Hinc.
      apply StronglySorted_cons in Hinc as [Hinc _].
      rewrite Forall_forall in Hinc.
      apply elem_of_cons in Hj as [->|Hj]; [lia|].
      specialize (Hinc j Hj). lia.
Qed.

Section file_of_type_facts.
Context `{Collaborators}.

Lemma files_same_warnings : respects (same_by warnings) files.
Proof.
  unfold files, zipf, Zip.open_r, log_call, set_reader. respects_steps.
Qed.

(** C5. Once [files] has yielded the part list, and some part has
    the requested type: [file_of_type] returns a part of that type
    whose storage path no part of the type sorts before (of several
    such, the first in the part list), and it warns, once, exactly
    when more than one part has the type. *)
Theorem file_of_type_first (w w0 : World) (refs : list nat) (fs : list File)
    (type_ : string) :
  files w = (Ok refs, w0) → __files (reader w0) = Some fs →
  (∃ j fj, fs !! j = Some fj ∧ Type_ fj = type_) →
  ∃ r f w1,
    file_of_type type_ w = (Ok r, w1)
    ∧ head (sorted_refs (Some type_) fs) = Some r
    ∧ fs !! r = Some f ∧ Type_ f = type_
    ∧ (∀ j fj, fs !! j = Some fj → Type_ fj = type_ →
               String.le (path_at fs r) (path_at fs j))
    ∧ (∀ j fj, fs !! j = Some fj → Type_ fj = type_ → j < r →
               path_at fs j ≠ path_at fs r)
    ∧ warnings w1
      = warnings w
        ++ (if bool_decide (1 < length (matching {[ type_ ]} fs))
            then ["Multiple files of type '{type_}' found. Returning first."]
            else []).
Proof.
  intros Hrun Hfs (j0 & f0 & Hj0 & Hty0).
  assert (j0 ∈ sorted_refs (Some type_) fs) as Hin.
  { rewrite sorted_refs_Permutation, elem_of_matching. exists f0.
    split; [done|]. simpl. by apply elem_of_singleton. }
  destruct (sorted_refs (Some type_) fs) as [|r l] eqn:Hsorted.
  { by apply elem_of_nil in Hin. }
  destruct (sorted_refs_head (Some type_) fs r) as (Hr & Hmin & Hfirst).
  { by rewrite Hsorted. }
  simpl in Hr, Hmin, Hfirst.
  apply elem_of_matching in Hr as (f & Hf & Hty%elem_of_singleton).
  assert (length (r :: l) = length (matching {[ type_ ]} fs)) as Hlen.
  { by rewrite <-Hsorted, sorted_refs_length. }
  assert (warnings w0 = warnings w) as Hw by (by eapply files_same_warnings).
  destruct (bool_decide (1 < length (matching {[ type_ ]} fs))) eqn:Hmany;
    exists r, f; eexists; (split; [|split; [done|]; split; [done|]; split; [done|];
                                    split; [|split]]).
  1, 5: unfold file_of_type;
        erewrite bind_Ok by (by eapply files_of_type_run);
        rewrite Hsorted, Hlen, Hmany; reflexivity.
  1, 4: intros j fj Hj Htyj; apply Hmin, elem_of_matching; exists fj;
        split; [done|]; by apply elem_of_singleton.
  1, 3: intros j fj Hj Htyj; apply Hfirst, elem_of_matching; exists fj;
        split; [done|]; by apply elem_of_singleton.
  - simpl. by rewrite Hw.
  - simpl. by rewrite Hw, app_nil_r.
Qed.

End file_of_type_facts.

(** ** Reading the archive *)

Lemma target_at_alter (fs : list File) (i j : nat) :
  target_at (alter cache_path i fs) j = target_at fs j.
Proof.
  unfold target_at. destruct (decide (i = j)) as [<-|Hne].
  - rewrite list_lookup_alter_eq. by destruct (fs !! i).
  - by rewrite list_lookup_alter_ne.
Qed.

Lemma target_at_cache_paths (l : list nat) (fs : list File) (j : nat) :
  target_at (cache_paths l fs) j = target_at fs j.
Proof.
  revert fs. induction l as [|i l IH]; intros fs; [done|].
  by rewrite cache_paths_cons, IH, target_at_alter.
Qed.

Section reading.
Context `{Collaborators}.

(** [zipf] on a readable archive: afterwards the archive is open,
    and nothing but the handle (and the record of calls) has changed. *)
Lemma zipf_readable (w : World) (ms : list member) :
  readable w ms →
  ∃ z w1,
    zipf w = (Ok z, w1)
    ∧ opened w1 z ms
    ∧ __files (reader w1) = __files (reader w)
    ∧ __numId2NumFmts (reader w1) = __numId2NumFmts (reader w)
    ∧ docx_filename (reader w1) = docx_filename (reader w)
    ∧ warnings w1 = warnings w
    ∧ disk w1 = disk w.
Proof.
  unfold readable, opened. intros Hr.
  destruct (__zipf (reader w)) as [z|] eqn:Hz.
  - exists z, w. split; [by apply zipf_cached|]. done.
  - unfold zipf, bind, get_reader. rewrite Hz.
    unfold Zip.open_r, bind, log_call, modify, get_world. simpl.
    rewrite Hr. simpl. eexists _, _. split; [reflexivity|]. simpl.
    split; [|done]. split; [done|].
    eexists. split; [apply list_lookup_middle; done|]. done.
Qed.

Lemma opened_readable (w : World) (z : nat) (ms : list member) :
  opened w z ms → readable w ms.
Proof. unfold opened, readable. by intros [-> ?]. Qed.

(** What one access to [File._rels_path] does. *)
Lemma File__rels_path_run (w : World) (fs : list File) (i : nat) (f : File) :
  __files (reader w) = Some fs → fs !! i = Some f →
  File__rels_path i w
  = (Ok (the_rels_path f),
     set_files w (alter (match __rels_path f with
                         | Some _ => id
                         | None => cache_rels_path
                         end) i fs)).
Proof.
  intros Hfs Hi. unfold File__rels_path.
  erewrite bind_Ok by (by eapply get_file_run).
  unfold the_rels_path.
  destruct (__rels_path f) as [rp|] eqn:Hrp.
  - unfold ret. rewrite list_alter_id by done. by rewrite set_files_id.
  - erewrite bind_Ok by (by eapply File_path_run).
    destruct (Posixpath.split (the_path f)) as [dirname filename] eqn:Hsplit.
    unfold update_file, set_reader, modify, ret, bind. simpl.
    f_equal. unfold set_files. simpl. do 3 f_equal.
    apply list_eq. intros j. destruct (decide (i = j)) as [<-|Hne].
    + rewrite !list_lookup_alter_eq, Hi. simpl.
      unfold cache_rels_path, the_rels_path. by rewrite Hrp, Hsplit.
    + by rewrite !list_lookup_alter_ne.
Qed.

(** [rels] of a part whose rels member is not in the archive. *)
Lemma File_rels_missing (w : World) (ms : list member) (fs : list File)
    (i : nat) (f : File) :
  readable w ms →
  __files (reader w) = Some fs → fs !! i = Some f → __rels f = None →
  Zip.getinfo ms (the_rels_path f) = None →
  ∃ w', File_rels i w = (Ok ∅, w')
        ∧ (file_at w' i ≫= __rels) = Some ∅
        ∧ warnings w' = warnings w.
Proof.
  intros Hr Hfs Hi Hrels Hmiss.
  destruct (zipf_readable w ms Hr)
    as (z & w1 & Hzipf & [Hz (zf & Hzf & Hfp & Hms & Hint)] & Hfs1 & _ & _ & Hw1 & _).
  rewrite Hfs in Hfs1. subst ms.
  unfold File_rels.
  erewrite bind_Ok by (by eapply get_file_run).
  rewrite Hrels.
  erewrite bind_Ok; last first.
  { unfold try_except.
    erewrite bind_Ok by exact Hzipf.
    erewrite bind_Ok by (by eapply File__rels_path_run).
    erewrite bind_Raise by (by eapply Zip_read_missing).
    reflexivity. }
  eexists. split; [reflexivity|].
  unfold file_at. simpl. rewrite !list_lookup_alter_eq, Hi. simpl.
  split; [done|]. done.
Qed.

(** [numId2numFmts] when the archive has no [word/numbering.xml]. *)
Lemma numId2numFmts_missing (w : World) (ms : list member) :
  readable w ms →
  __numId2NumFmts (reader w) = None →
  Zip.getinfo ms "word/numbering.xml" = None →
  ∃ w', numId2numFmts w = (Ok ∅, w')
        ∧ __numId2NumFmts (reader w') = Some ∅
        ∧ warnings w' = warnings w.
Proof.
  intros Hr Hnone Hmiss.
  destruct (zipf_readable w ms Hr)
    as (z & w1 & Hzipf & [Hz (zf & Hzf & Hfp & Hms & Hint)] & _ & _ & _ & Hw1 & _).
  subst ms.
  unfold numId2numFmts.
  unfold bind at 1. simpl. rewrite Hnone.
  erewrite bind_Ok; last first.
  { unfold try_except.
    erewrite bind_Ok by exact Hzipf.
    erewrite bind_Raise by (by eapply Zip_read_missing).
    reflexivity. }
  eexists. split; [reflexivity|]. done.
Qed.

End reading.

(** ** Pulling the images *)

Lemma images_of_ext (ms : list member) (fs fs' : list File) (imgs : list nat)
    (acc : gmap string bytes) :
  (∀ j, path_at fs' j = path_at fs j) →
  (∀ j, target_at fs' j = target_at fs j) →
  images_of ms fs' imgs acc = images_of ms fs imgs acc.
Proof.
  intros Hp Ht. revert acc. induction imgs as [|i imgs IH]; intros acc; [done|].
  unfold images_of in *. simpl. by rewrite Hp, Ht, IH.
Qed.

(** Parts whose member is not in the archive contribute nothing. *)
Lemma images_of_present (ms : list member) (fs : list File) (imgs : list nat)
    (acc : gmap string bytes) :
  images_of ms fs (List.filter (λ i, present ms (path_at fs i)) imgs) acc
  = images_of ms fs imgs acc.
Proof.
  revert acc. induction imgs as [|i imgs IH]; intros acc; [done|].
  unfold images_of in *. simpl. unfold present at 1.
  destruct (Zip.getinfo ms (path_at fs i)) as [[info data]|] eqn:Hget.
  - rewrite bool_decide_true by done. simpl. by rewrite Hget, IH.
  - rewrite bool_decide_false by (by intros [? ?]). apply IH.
Qed.

Lemma present_found (ms : list member) (name : string) (m : member) :
  Zip.getinfo ms name = Some m → present ms name = true.
Proof. intros Hget. unfold present. rewrite Hget. by apply bool_decide_true. Qed.

Lemma present_missing (ms : list member) (name : string) :
  Zip.getinfo ms name = None → present ms name = false.
Proof.
  intros Hget. unfold present. rewrite Hget.
  apply bool_decide_false. by intros [? ?].
Qed.

(** The bytes under a name: those of the last of the parts, in the
    order given, that have this base name and whose member is in the
    archive; the earlier value if there is no such part. *)
Lemma images_of_lookup (ms : list member) (fs : list File) (imgs : list nat)
    (acc : gmap string bytes) (name : string) :
  images_of ms fs imgs acc !! name
  = match
      last (List.filter
              (λ i, bool_decide (Posixpath.basename (target_at fs i) = name)
                    && present ms (path_at fs i)) imgs)
    with
    | Some i => snd <$> Zip.getinfo ms (path_at fs i)
    | None => acc !! name
    end.
Proof.
  revert acc. induction imgs as [|i imgs IH]; intros acc; [done|].
  unfold images_of in *. simpl. rewrite IH. clear IH.
  destruct (Zip.getinfo ms (path_at fs i)) as [[info data]|] eqn:Hget.
  - rewrite (present_found _ _ _ Hget), andb_true_r.
    case_bool_decide as Hname.
    + rewrite last_cons.
      destruct (last _) as [i'|]; [done|].
      subst name. by rewrite lookup_insert_eq, Hget.
    + destruct (last _) as [i'|]; [done|].
      by rewrite lookup_insert_ne.
  - by rewrite (present_missing _ _ Hget), andb_false_r.
Qed.

Section pulling.
Context `{Collaborators}.

(** The first loop of [pull_image_files], on a readable archive. *)
Lemma pull_loop_run (imgs : list nat) :
  ∀ (w : World) (ms : list member) (fs : list File) (acc : gmap string bytes),
    readable w ms → __files (reader w) = Some fs →
    Forall (λ i, i < length fs) imgs →
    ∃ w', pull_loop imgs acc w = (Ok (images_of ms fs imgs acc), w')
          ∧ warnings w' = warnings w
          ∧ disk w' = disk w.
Proof.
  induction imgs as [|i imgs IH]; intros w ms fs acc Hr Hfs Himgs.
  { exists w. done. }
  apply Forall_cons in Himgs as [Hi Himgs].
  apply lookup_lt_is_Some in Hi as [f Hf].
  destruct (zipf_readable w ms Hr)
    as (z & w0 & Hzipf & [Hz (zf & Hzf & Hfp & Hms & Hint)] & Hfs0 & _ & _ & Hw0 & Hd0).
  rewrite Hfs in Hfs0.
  set (w1 := logged (set_files w0 (alter cache_path i fs)) (call_read (the_path f))).
  set (acc1 := match Zip.getinfo ms (path_at fs i) with
               | Some (_, data) =>
                   <[Posixpath.basename (target_at fs i) := data]> acc
               | None => acc
               end).
  assert (try_except
            (bind zipf (λ z, bind (File_path i) (λ p, bind (Zip.read z p) (λ data,
             bind (get_file i) (λ x,
             ret (<[Posixpath.basename (Target x) := data]> acc))))))
            is_KeyError (λ _, ret acc) w
          = (Ok acc1, w1)) as Hstep.
  { unfold try_except.
    erewrite bind_Ok by exact Hzipf.
    erewrite bind_Ok by (by eapply File_path_run).
    unfold acc1, path_at, target_at. rewrite Hf. simpl.
    destruct (Zip.getinfo ms (the_path f)) as [[info data]|] eqn:Hget.
    - erewrite bind_Ok; last first.
      { eapply Zip_read_found; [exact Hzf|done|done|by rewrite Hms]. }
      erewrite bind_Ok; last first.
      { eapply get_file_run; [reflexivity|].
        by rewrite list_lookup_alter_eq, Hf. }
      done.
    - erewrite bind_Raise; last first.
      { eapply Zip_read_missing; [exact Hzf|done|by rewrite Hms]. }
      done. }
  destruct (IH w1 ms (alter cache_path i fs) acc1) as (w' & Hrun & Hw & Hd).
  { unfold readable, w1. simpl. rewrite Hz. by exists zf. }
  { done. }
  { by rewrite length_alter. }
  exists w'. split; [|split].
  - simpl. erewrite bind_Ok by exact Hstep. rewrite Hrun. f_equal. f_equal.
    rewrite (images_of_ext ms fs (alter cache_path i fs)).
    + done.
    + intros j. apply path_at_alter.
    + intros j. apply target_at_alter.
  - by rewrite Hw.
  - by rewrite Hd.
Qed.

(** Whatever the system says to the writes, they warn of nothing. *)
Lemma write_images_same_warnings (d : string) (l : list (string * bytes)) :
  respects (same_by warnings)
    (for_each l (λ '(file, image_bytes),
                   write_bytes (Posixpath.join d file) image_bytes)).
Proof. unfold write_bytes. respects_steps. Qed.

Lemma mkdir_same_warnings (d : string) : respects (same_by warnings) (mkdir d).
Proof. unfold mkdir. respects_steps. Qed.

(** Writing the images out, when the system lets every one of them
    be written. *)
Lemma write_images_run (d : string) (named : string → Prop)
    (dsk : gmap string DiskFile) (l : list (string * bytes)) (w : World) :
  (∀ dsk' name,
     named name →
     (∀ k, (∀ name', named name' → realpath (Posixpath.join d name') ≠ k) →
           dsk' !! k = dsk !! k) →
     create_refused dsk' (Posixpath.join d name) = None) →
  (∀ name data, (name, data) ∈ l → named name) →
  (∀ k, (∀ name', named name' → realpath (Posixpath.join d name') ≠ k) →
        disk w !! k = dsk !! k) →
  ∃ w', for_each l (λ '(file, image_bytes),
                      write_bytes (Posixpath.join d file) image_bytes) w
        = (Ok tt, w')
        ∧ disk w'
          = foldl (λ dk '(file, image_bytes),
                     <[realpath (Posixpath.join d file) := Plain image_bytes]> dk)
              (disk w) l.
Proof.
  intros Hallowed. revert w.
  induction l as [|[file image_bytes] l IH]; intros w Hl Hagree.
  { by exists w. }
  assert (named file) as Hfile by (eapply Hl; apply list_elem_of_here).
  destruct (IH (World_with_disk w
                  (<[realpath (Posixpath.join d file) := Plain image_bytes]> (disk w))))
    as (w' & Hrun & Hd).
  { intros name data Hin. eapply Hl. by apply list_elem_of_further. }
  { intros k Hk. simpl. rewrite lookup_insert_ne; [by apply Hagree|].
    by apply Hk. }
  exists w'. split; [|done].
  change (for_each ((file, image_bytes) :: l) ?body)
    with (bind (body (file, image_bytes)) (λ _, for_each l body)).
  erewrite bind_Ok; [exact Hrun|].
  unfold write_bytes, bind, get_world.
  by rewrite (Hallowed (disk w) file Hfile Hagree).
Qed.

Lemma files_same_disk : respects (same_by disk) files.
Proof.
  unfold files, zipf, Zip.open_r, log_call, set_reader. respects_steps.
Qed.

(** [files] leaves a readable archive readable. *)
Lemma files_readable (w w0 : World) (ms : list member) (refs : list nat) :
  readable w ms → files w = (Ok refs, w0) → readable w0 ms.
Proof.
  intros Hr Hrun. unfold files in Hrun.
  apply bind_inv_Ok in Hrun as (self & w1 & [= <- <-] & Hrun).
  destruct (__files (reader w)) as [fs|] eqn:Hfs.
  - by injection Hrun as <- <-.
  - destruct (zipf_readable w ms Hr)
      as (z & w1' & Hzipf & Ho & _).
    apply bind_inv_Ok in Hrun as (z' & w1 & Hz' & Hrun).
    rewrite Hzipf in Hz'. injection Hz' as <- <-.
    apply bind_inv_Ok in Hrun as (zf & w2 & Hd & Hrun).
    unfold Zip.deref in Hd.
    destruct (zipfiles w1' !! z); [|done]. injection Hd as <- <-.
    apply bind_inv_Ok in Hrun as ([] & w3 & [= <-] & Hrun).
    apply bind_inv_Ok in Hrun as (rels & w4 & Hl & Hrun).
    unfold lift in Hl. injection Hl as _ <-.
    apply bind_inv_Ok in Hrun as (fs & w5 & Hl & Hrun).
    unfold lift in Hl. injection Hl as _ <-.
    apply bind_inv_Ok in Hrun as ([] & w6 & [= <-] & [= _ <-]).
    by eapply opened_readable.
Qed.

(** What [pull_image_files] does: it builds the mapping from the
    image parts in ascending order of path, and warns of nothing.  It
    returns that mapping and nothing else; it does return when the
    system lets the images be written, and always when there is
    nothing to write. *)
Lemma pull_image_files_run (w w0 : World) (ms : list member) (refs : list nat)
    (fs : list File) (image_directory : option string) :
  readable w ms → files w = (Ok refs, w0) → __files (reader w0) = Some fs →
  ∃ r w',
    pull_image_files image_directory w = (r, w')
    ∧ warnings w' = warnings w
    ∧ (∀ x, r = Ok x → x = images_of ms fs (sorted_refs (Some "image") fs) ∅)
    ∧ (writes_allowed (disk w) image_directory
         (images_of ms fs (sorted_refs (Some "image") fs) ∅) →
       r = Ok (images_of ms fs (sorted_refs (Some "image") fs) ∅)).
Proof.
  intros Hr Hrun Hfs.
  pose proof (files_readable _ _ _ _ Hr Hrun) as Hr0.
  assert (warnings w0 = warnings w) as Hw0 by (by eapply files_same_warnings).
  assert (disk w0 = disk w) as Hd0 by (by eapply files_same_disk).
  set (fs1 := cache_paths (matching (types_of (Some "image")) fs) fs).
  destruct (pull_loop_run (sorted_refs (Some "image") fs)
              (set_files w0 fs1) ms fs1 ∅) as (w2 & Hloop & Hw2 & Hd2).
  { done. }
  { done. }
  { apply Forall_forall. intros i Hi.
    rewrite sorted_refs_Permutation in Hi.
    apply elem_of_matching in Hi as (f & Hf & _).
    unfold fs1. rewrite cache_paths_length. by eapply lookup_lt_Some. }
  rewrite (images_of_ext ms fs fs1) in Hloop; last first.
  { intros j. apply target_at_cache_paths. }
  { intros j. apply path_at_cache_paths. }
  simpl in Hw2, Hd2.
  set (images := images_of ms fs (sorted_refs (Some "image") fs) ∅) in *.
  unfold pull_image_files.
  erewrite bind_Ok by (by eapply files_of_type_run).
  erewrite bind_Ok by exact Hloop.
  destruct image_directory as [d|].
  - destruct (mkdir d w2) as [[[]|e] w3] eqn:Hmkdir.
    + assert (w3 = w2) as ->.
      { unfold mkdir, bind, get_world in Hmkdir.
        destruct (mkdir_refused (disk w2) d); by injection Hmkdir. }
      destruct (for_each (map_to_list images)
                  (λ '(file, image_bytes),
                     write_bytes (Posixpath.join d file) image_bytes) w2)
        as [[[]|e] w3] eqn:Hwrite.
      * exists (Ok images), w3. split; [|split; [|split]].
        -- erewrite bind_Ok; [reflexivity|].
           erewrite bind_Ok by exact Hmkdir. exact Hwrite.
        -- apply write_images_same_warnings in Hwrite. congruence.
        -- by intros x [= <-].
        -- done.
      * exists (Raise e), w3. split; [|split; [|split]].
        -- erewrite bind_Raise; [reflexivity|].
           erewrite bind_Ok by exact Hmkdir. exact Hwrite.
        -- apply write_images_same_warnings in Hwrite. congruence.
        -- done.
        -- intros [_ Hallowed]. exfalso.
           destruct (write_images_run d (λ name, is_Some (images !! name))
                       (disk w) (map_to_list images) w2) as (w4 & Hok & _).
           ++ exact Hallowed.
           ++ intros name data Hin%elem_of_map_to_list. by eexists.
           ++ intros k _. congruence.
           ++ congruence.
    + exists (Raise e), w3. split; [|split; [|split]].
      * erewrite bind_Raise; [reflexivity|]. by erewrite bind_Raise.
      * apply mkdir_same_warnings in Hmkdir. congruence.
      * done.
      * intros [Hdir _]. exfalso.
        unfold mkdir, bind, get_world in Hmkdir.
        rewrite Hd2, Hd0, Hdir in Hmkdir. done.
  - exists (Ok images), w2. split; [done|]. split; [congruence|].
    split; [by intros x [= <-]|done].
Qed.


(** C7. On a readable archive, a resource that is not there is not
    an error: [rels] of a part whose rels member is missing returns
    the empty mapping; [numId2numFmts] returns the empty mapping
    when [word/numbering.xml] is missing; and [pull_image_files]
    returns, without raising, the mapping built from just those
    image parts whose member is in the archive, when no directory is
    given, and with a directory when the system lets the images be
    written to it.  None of the three warns. *)
Theorem absent_resources_are_not_errors (w : World) (ms : list member) :
  readable w ms →
  (∀ fs i f,
     __files (reader w) = Some fs → fs !! i = Some f → __rels f = None →
     Zip.getinfo ms (the_rels_path f) = None →
     ∃ w', File_rels i w = (Ok ∅, w') ∧ warnings w' = warnings w)
  ∧ (__numId2NumFmts (reader w) = None →
     Zip.getinfo ms "word/numbering.xml" = None →
     ∃ w', numId2numFmts w = (Ok ∅, w') ∧ warnings w' = warnings w)
  ∧ (∀ refs w0 fs image_directory,
       files w = (Ok refs, w0) → __files (reader w0) = Some fs →
       writes_allowed (disk w) image_directory
         (images_of ms fs
            (List.filter (λ i, present ms (path_at fs i))
               (sorted_refs (Some "image") fs)) ∅) →
       ∃ w',
         pull_image_files image_directory w
         = (Ok (images_of ms fs
                  (List.filter (λ i, present ms (path_at fs i))
                     (sorted_refs (Some "image") fs)) ∅), w')
         ∧ warnings w' = warnings w).
Proof.
  intros Hr. split; [|split].
  - intros fs i f Hfs Hi Hrels Hmiss.
    destruct (File_rels_missing w ms fs i f) as (w' & Hrun & _ & Hw); [done..|].
    by exists w'.
  - intros Hnone Hmiss.
    destruct (numId2numFmts_missing w ms) as (w' & Hrun & _ & Hw); [done..|].
    by exists w'.
  - intros refs w0 fs d Hrun Hfs. rewrite images_of_present. intros Hallowed.
    destruct (pull_image_files_run w w0 ms refs fs d)
      as (r & w' & Hpull & Hw & _ & Hok); [done..|].
    exists w'. by rewrite Hpull, (Hok Hallowed).
Qed.

(** C10, amended. The mapping [pull_image_files] returns has one
    entry per base name; the bytes under a name are those of the
    last, in ascending order of path, of the image parts with that
    base name whose member is in the archive, and there is no entry
    when no such part exists.  This mapping is what every call that
    returns does return, and the call returns when no directory is
    given, or when the system lets the images be written to the
    directory given. *)
Theorem pull_image_files_last_present (w w0 : World) (ms : list member)
    (refs : list nat) (fs : list File) (image_directory : option string) :
  readable w ms → files w = (Ok refs, w0) → __files (reader w0) = Some fs →
  ∃ images r w',
    pull_image_files image_directory w = (r, w')
    ∧ (∀ x, r = Ok x → x = images)
    ∧ (writes_allowed (disk w) image_directory images → r = Ok images)
    ∧ ∀ name,
        images !! name
        = match
            last (List.filter
                    (λ i, bool_decide (Posixpath.basename (target_at fs i) = name)
                          && present ms (path_at fs i))
                    (sorted_refs (Some "image") fs))
          with
          | Some i => snd <$> Zip.getinfo ms (path_at fs i)
          | None => None
          end.
Proof.
  intros Hr Hrun Hfs.
  destruct (pull_image_files_run w w0 ms refs fs image_directory)
    as (r & w' & Hpull & _ & Honly & Hok); [done..|].
  eexists _, r, w'. split; [exact Hpull|]. split; [exact Honly|].
  split; [exact Hok|].
  intros name. rewrite images_of_lookup.
  destruct (last _); [done|]. apply lookup_empty.
Qed.

End pulling.

(** C10, as stated, fails on a package with two image parts of base
    name [logo.png], [word/a/logo.png] and [word/b/logo.png], whose
    archive holds only the first: [word/b/logo.png] sorts last, but
    the bytes under [logo.png] are those of [word/a/logo.png]. *)
Lemma pull_image_files_last_missing :
  let C := Sample.toy Sample.twin_rels Sample.merge_nothing in
  let fs := default [] (__files (reader (snd (files (H := C) Sample.twin)))) in
  sorted_refs (Some "image") fs = [2; 1]
  ∧ Posixpath.basename (target_at fs 2) = "logo.png"
  ∧ Posixpath.basename (target_at fs 1) = "logo.png"
  ∧ path_at fs 2 = "word/a/logo.png"
  ∧ path_at fs 1 = "word/b/logo.png"
  ∧ ∃ images w',
      pull_image_files (H := C) None Sample.twin = (Ok images, w')
      ∧ images !! "logo.png" = Some "PNG-A"
      ∧ (snd <$> Zip.getinfo Sample.twin_docx "word/a/logo.png") = Some "PNG-A"
      ∧ images !! "logo.png"
        ≠ (snd <$> Zip.getinfo Sample.twin_docx (path_at fs 1)).
Proof.
  repeat (split; [vm_compute; reflexivity|]).
  eexists _, _. split; [vm_compute; reflexivity|].
  split; [vm_compute; reflexivity|].
  split; [vm_compute; reflexivity|].
  vm_compute. discriminate.
Qed.

(** ** Caches are never invalidated *)

Lemma keeps_refl {X} (free : bool) (c : option X) : keeps free c c.
Proof. destruct free; simpl; [done|]. by intros v Hv. Qed.

Lemma keeps_trans {X} (free : bool) (c1 c2 c3 : option X) :
  keeps free c1 c2 → keeps free c2 c3 → keeps free c1 c3.
Proof. destruct free; simpl; [done|]. intros H12 H23 v Hv. eauto. Qed.

Lemma keeps_free {X} (free : bool) (c c' : option X) :
  keeps false c c' → keeps free c c'.
Proof. destruct free; simpl; [done|]. by intros Hk. Qed.

Lemma keeps_fill {X} (free : bool) (c c' : option X) (v : X) :
  keeps free c c' → c = None → keeps false c (Some v).
Proof. intros _ -> v' [=]. Qed.

Lemma File_extends_refl (free : option slot) (i : nat) (f : File) :
  File_extends free i f f.
Proof. unfold File_extends. repeat split; apply keeps_refl. Qed.

Lemma File_extends_trans (free : option slot) (i : nat) (f1 f2 f3 : File) :
  File_extends free i f1 f2 → File_extends free i f2 f3 → File_extends free i f1 f3.
Proof.
  unfold File_extends.
  intros (? & ? & ? & ? & ? & ? & ? & ?) (? & ? & ? & ? & ? & ? & ? & ?).
  repeat split; try congruence; by eapply keeps_trans.
Qed.

Lemma File_extends_free (free : option slot) (i : nat) (f f' : File) :
  File_extends None i f f' → File_extends free i f f'.
Proof.
  unfold File_extends. intros (? & ? & ? & ? & ? & ? & ? & ?).
  repeat split; try done; by apply keeps_free.
Qed.

Lemma files_extend_refl (free : option slot) (fs : list File) :
  files_extend free fs fs.
Proof.
  split; [done|]. intros i f f' Hf Hf'.
  assert (f' = f) as -> by congruence. apply File_extends_refl.
Qed.

Lemma files_extend_trans (free : option slot) (fs1 fs2 fs3 : list File) :
  files_extend free fs1 fs2 → files_extend free fs2 fs3 → files_extend free fs1 fs3.
Proof.
  intros [Hl12 H12] [Hl23 H23]. split; [congruence|].
  intros i f1 f3 Hf1 Hf3.
  destruct (lookup_lt_is_Some_2 fs2 i) as [f2 Hf2].
  { rewrite Hl12. by eapply lookup_lt_Some. }
  eapply File_extends_trans; eauto.
Qed.

Lemma files_extend_free (free : option slot) (fs fs' : list File) :
  files_extend None fs fs' → files_extend free fs fs'.
Proof.
  intros [Hl Hfs]. split; [done|]. intros i f f' Hf Hf'.
  apply File_extends_free. by eapply Hfs.
Qed.

#[global] Instance extends_PreOrder (free : option slot) : PreOrder (extends free).
Proof.
  split.
  - intros w. unfold extends, Reader_extends.
    split; [done|]. split; [apply keeps_refl|]. split; [apply keeps_refl|].
    case_bool_decide; [done|]. intros fs Hfs. exists fs.
    split; [done|]. apply files_extend_refl.
  - intros w1 w2 w3. unfold extends, Reader_extends.
    intros (Hn12 & Hz12 & Hf12 & Hfs12) (Hn23 & Hz23 & Hf23 & Hfs23).
    split; [congruence|].
    split; [by eapply keeps_trans|]. split; [by eapply keeps_trans|].
    case_bool_decide; [done|]. intros fs1 Hfs1.
    destruct (Hfs12 fs1 Hfs1) as (fs2 & Hfs2 & He12).
    destruct (Hfs23 fs2 Hfs2) as (fs3 & Hfs3 & He23).
    exists fs3. split; [done|]. by eapply files_extend_trans.
Qed.

Lemma extends_free (free : option slot) (w w' : World) :
  extends None w w' → extends free w w'.
Proof.
  unfold extends, Reader_extends. intros (Hn & Hz & Hf & Hfs).
  rewrite (bool_decide_false (None = Some slot_files)) in Hfs by done.
  split; [done|]. split; [by apply keeps_free|]. split; [by apply keeps_free|].
  destruct (bool_decide (free = Some slot_files)); [done|]. intros fs Hfs1.
  destruct (Hfs fs Hfs1) as (fs' & Hfs' & He). exists fs'.
  split; [done|]. by apply files_extend_free.
Qed.

Lemma respects_extends_free (free : option slot) {A} (c : M A) :
  respects (extends None) c → respects (extends free) c.
Proof. intros Hc w r w' Hrun. apply extends_free. by eapply Hc. Qed.

(** States that differ in something other than the reader. *)
Lemma extends_same_reader (free : option slot) (w w' : World) :
  reader w' = reader w → extends free w w'.
Proof.
  intros Hr. unfold extends. rewrite Hr.
  change (extends free w w). done.
Qed.

Lemma keeps_unfree {X} (free : bool) (c c' : option X) :
  (free = true → c = None) → keeps free c c' → keeps false c c'.
Proof.
  destruct free; simpl; [|done]. intros Hc _ v Hv. rewrite Hc in Hv; done.
Qed.

(** Filling an empty slot invalidates nothing. *)
Lemma extends_unfree (s : slot) (w w' : World) :
  slot_empty s w → extends (Some s) w w' → extends None w w'.
Proof.
  unfold extends, Reader_extends. intros Hempty (Hn & Hz & Hf & Hfs).
  split; [done|]. split; [|split].
  - eapply keeps_unfree; [|exact Hz].
    intros [= ->]%bool_decide_eq_true. exact Hempty.
  - eapply keeps_unfree; [|exact Hf].
    intros [= ->]%bool_decide_eq_true. exact Hempty.
  - rewrite (bool_decide_false (None = Some slot_files)) by done.
    intros fs Hfs1.
    destruct (bool_decide (Some s = Some slot_files)) eqn:Hs.
    { apply bool_decide_eq_true in Hs as [= ->]. simpl in Hempty. congruence. }
    destruct (Hfs fs Hfs1) as (fs' & Hfs' & Hl & He). exists fs'.
    split; [done|]. split; [done|]. intros i f f' Hi Hi'.
    destruct (He i f f' Hi Hi') as (? & ? & ? & ? & Hp & Hrp & Hr & Hre).
    assert (file_at w i = Some f) as Hat by (unfold file_at; by rewrite Hfs1).
    repeat split; try done.
    + eapply keeps_unfree; [|exact Hp].
      intros [= ->]%bool_decide_eq_true. by apply Hempty.
    + eapply keeps_unfree; [|exact Hrp].
      intros [= ->]%bool_decide_eq_true. by apply Hempty.
    + eapply keeps_unfree; [|exact Hr].
      intros [= ->]%bool_decide_eq_true. by apply Hempty.
    + eapply keeps_unfree; [|exact Hre].
      intros [= ->]%bool_decide_eq_true. by apply Hempty.
Qed.

(** Changing one part, in a way that part allows, invalidates nothing
    elsewhere. *)
Lemma extends_with_file (free : option slot) (w : World) (i : nat) (g : File → File) :
  (∀ f, File_extends free i f (g f)) → extends free w (with_file w i g).
Proof.
  intros Hg. unfold extends, Reader_extends, with_file. simpl.
  split; [done|]. split; [apply keeps_refl|]. split; [apply keeps_refl|].
  destruct (bool_decide (free = Some slot_files)); [done|].
  intros fs ->. simpl. eexists. split; [done|].
  split; [by rewrite length_alter|]. intros j f f' Hj Hj'.
  destruct (decide (i = j)) as [<-|Hne].
  - rewrite list_lookup_alter_eq, Hj in Hj'. injection Hj' as <-. apply Hg.
  - rewrite list_lookup_alter_ne, Hj in Hj' by done. injection Hj' as <-.
    apply File_extends_refl.
Qed.

Lemma File_with_path_extends (i : nat) (f : File) (v : option string) :
  File_extends (Some (slot_path i)) i f (File_with_path f v).
Proof.
  unfold File_extends. simpl. rewrite bool_decide_true by done.
  repeat split; try done; apply keeps_refl.
Qed.

Lemma File_with_rels_path_extends (i : nat) (f : File) (v : option string) :
  File_extends (Some (slot_rels_path i)) i f (File_with_rels_path f v).
Proof.
  unfold File_extends. simpl. rewrite (bool_decide_true (Some _ = Some (slot_rels_path i))) by done.
  repeat split; try done; apply keeps_refl.
Qed.

Lemma File_with_rels_extends (i : nat) (f : File) (v : option (gmap string string)) :
  File_extends (Some (slot_rels i)) i f (File_with_rels f v).
Proof.
  unfold File_extends. simpl. rewrite (bool_decide_true (Some _ = Some (slot_rels i))) by done.
  repeat split; try done; apply keeps_refl.
Qed.

Lemma File_with_root_element_extends (i : nat) (f : File) (v : option Element) :
  File_extends (Some (slot_root i)) i f (File_with_root_element f v).
Proof.
  unfold File_extends. simpl. rewrite (bool_decide_true (Some _ = Some (slot_root i))) by done.
  repeat split; try done; apply keeps_refl.
Qed.

Lemma update_file_with_file (i : nat) (g : File → File) (w : World) :
  update_file i g w = (Ok tt, with_file w i g).
Proof. done. Qed.

Lemma update_file_extends (free : option slot) (i : nat) (g : File → File) :
  (∀ f, File_extends free i f (g f)) → respects (extends free) (update_file i g).
Proof.
  intros Hg w r w'. rewrite update_file_with_file. intros [= <- <-].
  by apply extends_with_file.
Qed.

Lemma set_zipf_extends (w : World) (v : option nat) :
  extends (Some slot_zipf) w (World_with_reader w (DocxReader_with_zipf (reader w) v)).
Proof.
  unfold extends, Reader_extends. simpl.
  split; [done|]. split; [done|]. split; [first [apply keeps_refl|done]|].
  intros fs ->. exists fs.
  split; [done|]. apply files_extend_refl.
Qed.

Lemma set_numFmts_extends (w : World) (v : option (gmap string (list string))) :
  extends (Some slot_numFmts) w
    (World_with_reader w (DocxReader_with_numId2NumFmts (reader w) v)).
Proof.
  unfold extends, Reader_extends. simpl.
  split; [done|]. split; [first [apply keeps_refl|done]|]. split; [done|].
  intros fs ->. exists fs. split; [done|]. apply files_extend_refl.
Qed.

Lemma set_files_extends (w : World) (v : option (list File)) :
  extends (Some slot_files) w (World_with_reader w (DocxReader_with_files (reader w) v)).
Proof.
  unfold extends, Reader_extends. simpl.
  split; [done|]. split; [first [apply keeps_refl|done]|]. split; [first [apply keeps_refl|done]|]. done.
Qed.

Create HintDb extends discriminated.

(** One step of a proof that a computation invalidates no cache. *)
Ltac extends_step :=
  first
    [ solve [eauto 2 with extends]
    | apply respects_extends_free; solve [eauto 2 with extends]
    | apply update_file_extends; intros ?;
      first [ apply File_with_path_extends
            | apply File_with_rels_path_extends
            | apply File_with_rels_extends
            | apply File_with_root_element_extends ]
    | apply extends_same_reader; reflexivity
    | apply set_zipf_extends
    | apply set_numFmts_extends
    | apply set_files_extends
    | respects_step ].

Ltac extends_steps :=
  unfold log_call, warn, set_reader, write_bytes, mkdir; repeat extends_step.

Lemma accessor_extends {A} (s : slot) (rest : M A) (w w' : World) (r : result A) :
  respects (extends (Some s)) rest → slot_empty s w → rest w = (r, w') →
  extends None w w'.
Proof. intros Hrest Hempty Hrun. eapply extends_unfree; [done|]. by eapply Hrest. Qed.

Lemma get_file_inv (i : nat) (w w' : World) (r : result File) :
  get_file i w = (r, w') →
  w' = w ∧ ((∃ f, r = Ok f ∧ file_at w i = Some f) ∨ ∃ e, r = Raise e).
Proof.
  unfold get_file, file_at. destruct (__files (reader w)) as [fs|]; simpl.
  - destruct (fs !! i) as [f|]; intros [= <- <-]; eauto.
  - intros [= <- <-]; eauto.
Qed.

Section caches.
Context `{Collaborators}.

Lemma Zip_open_r_extends (free : option slot) (name : string) :
  respects (extends free) (Zip.open_r name).
Proof. unfold Zip.open_r. extends_steps. Qed.

Lemma Zip_open_w_extends (free : option slot) (name : string) :
  respects (extends free) (Zip.open_w name).
Proof. unfold Zip.open_w. extends_steps. Qed.

Lemma Zip_read_extends (free : option slot) (z : nat) (name : string) :
  respects (extends free) (Zip.read z name).
Proof. unfold Zip.read. extends_steps. Qed.

Lemma Zip_infolist_extends (free : option slot) (z : nat) :
  respects (extends free) (Zip.infolist z).
Proof. unfold Zip.infolist. extends_steps. Qed.

Lemma Zip_writestr_extends (free : option slot) (z : nat)
    (zinfo_or_arcname : ZipInfo + string) (data : bytes) :
  respects (extends free) (Zip.writestr z zinfo_or_arcname data).
Proof. unfold Zip.writestr, Zip.update. extends_steps. Qed.

Lemma Zip_close_extends (free : option slot) (z : nat) :
  respects (extends free) (Zip.close z).
Proof. unfold Zip.close, Zip.update. extends_steps. Qed.

Hint Resolve Zip_open_r_extends Zip_open_w_extends Zip_read_extends
  Zip_infolist_extends Zip_writestr_extends Zip_close_extends : extends.

Lemma zipf_extends : respects (extends None) zipf.
Proof.
  intros w r w'. unfold zipf.
  intros [(self & w1 & [= <- <-] & Hrun)|(e & [=] & _)]%bind_inv.
  destruct (__zipf (reader w)) as [z|] eqn:Hz.
  - by injection Hrun as <- <-.
  - eapply (accessor_extends slot_zipf); [|exact Hz|exact Hrun].
    extends_steps.
Qed.
Hint Resolve zipf_extends : extends.

Lemma File_path_extends (i : nat) : respects (extends None) (File_path i).
Proof.
  intros w r w'. unfold File_path.
  intros [(self & w1 & Hget & Hrun)|(e & Hget & _)]%bind_inv;
    apply get_file_inv in Hget as [-> Hget]; [|done].
  destruct Hget as [(f & [= <-] & Hat)|(e & [=])].
  destruct (__path self) as [p|] eqn:Hp.
  - by injection Hrun as <- <-.
  - eapply (accessor_extends (slot_path i)); [| |exact Hrun].
    + extends_steps.
    + intros f Hf. congruence.
Qed.
Hint Resolve File_path_extends : extends.

Lemma File__rels_path_extends (i : nat) :
  respects (extends None) (File__rels_path i).
Proof.
  intros w r w'. unfold File__rels_path.
  intros [(self & w1 & Hget & Hrun)|(e & Hget & _)]%bind_inv;
    apply get_file_inv in Hget as [-> Hget]; [|done].
  destruct Hget as [(f & [= <-] & Hat)|(e & [=])].
  destruct (__rels_path self) as [p|] eqn:Hp.
  - by injection Hrun as <- <-.
  - eapply (accessor_extends (slot_rels_path i)); [| |exact Hrun].
    + extends_steps.
    + intros f Hf. congruence.
Qed.
Hint Resolve File__rels_path_extends : extends.

Lemma File_rels_extends (i : nat) : respects (extends None) (File_rels i).
Proof.
  intros w r w'. unfold File_rels.
  intros [(self & w1 & Hget & Hrun)|(e & Hget & _)]%bind_inv;
    apply get_file_inv in Hget as [-> Hget]; [|done].
  destruct Hget as [(f & [= <-] & Hat)|(e & [=])].
  destruct (__rels self) as [p|] eqn:Hp.
  - by injection Hrun as <- <-.
  - eapply (accessor_extends (slot_rels i)); [| |exact Hrun].
    + extends_steps.
    + intros f Hf. congruence.
Qed.
Hint Resolve File_rels_extends : extends.

Lemma File_root_element_extends (i : nat) :
  respects (extends None) (File_root_element i).
Proof.
  intros w r w'. unfold File_root_element.
  intros [(self & w1 & Hget & Hrun)|(e & Hget & _)]%bind_inv;
    apply get_file_inv in Hget as [-> Hget]; [|done].
  destruct Hget as [(f & [= <-] & Hat)|(e & [=])].
  destruct (__root_element self) as [p|] eqn:Hp.
  - by injection Hrun as <- <-.
  - eapply (accessor_extends (slot_root i)); [| |exact Hrun].
    + extends_steps.
    + intros f Hf. congruence.
Qed.
Hint Resolve File_root_element_extends : extends.

Lemma files_extends : respects (extends None) files.
Proof.
  intros w r w'. unfold files.
  intros [(self & w1 & [= <- <-] & Hrun)|(e & [=] & _)]%bind_inv.
  destruct (__files (reader w)) as [fs|] eqn:Hfs.
  - by injection Hrun as <- <-.
  - eapply (accessor_extends slot_files); [|exact Hfs|exact Hrun].
    extends_steps.
Qed.
Hint Resolve files_extends : extends.

Lemma numId2numFmts_extends : respects (extends None) numId2numFmts.
Proof.
  intros w r w'. unfold numId2numFmts.
  intros [(self & w1 & [= <- <-] & Hrun)|(e & [=] & _)]%bind_inv.
  destruct (__numId2NumFmts (reader w)) as [fs|] eqn:Hfs.
  - by injection Hrun as <- <-.
  - eapply (accessor_extends slot_numFmts); [|exact Hfs|exact Hrun].
    extends_steps.
Qed.
Hint Resolve numId2numFmts_extends : extends.

Lemma get_text_extends (i : nat) (root : option Element) :
  respects (extends None) (get_text i root).
Proof. unfold get_text. extends_steps. Qed.

Lemma files_of_type_extends (type_ : option string) :
  respects (extends None) (files_of_type type_).
Proof. unfold files_of_type, Type_in, keyed. extends_steps. Qed.
Hint Resolve files_of_type_extends : extends.

Lemma file_of_type_extends (type_ : string) :
  respects (extends None) (file_of_type type_).
Proof. unfold file_of_type. extends_steps. Qed.

Lemma save_extends (filename : string) : respects (extends None) (save filename).
Proof.
  unfold save, Zip.with_, _copy_but, Type_in. extends_steps.
Qed.

Lemma pull_loop_extends (imgs : list nat) (acc : gmap string bytes) :
  respects (extends None) (pull_loop imgs acc).
Proof.
  revert acc. induction imgs as [|i imgs IH]; intros acc; simpl; extends_steps.
Qed.
Hint Resolve pull_loop_extends : extends.

Lemma pull_image_files_extends (image_directory : option string) :
  respects (extends None) (pull_image_files image_directory).
Proof. unfold pull_image_files. extends_steps. Qed.

Lemma close_extends : respects (extends None) close.
Proof. unfold close. extends_steps. Qed.

Lemma del_extends : respects (extends None) __del__.
Proof. unfold __del__. extends_steps. Qed.

End caches.

#[global] Hint Resolve Zip_open_r_extends Zip_open_w_extends Zip_read_extends
  Zip_infolist_extends Zip_writestr_extends Zip_close_extends zipf_extends
  File_path_extends File__rels_path_extends File_rels_extends
  File_root_element_extends files_extends numId2numFmts_extends
  files_of_type_extends pull_loop_extends : extends.

Lemma respects_elim (Q : relation World) {A} (c : M A) (w w' : World)
    (r : result A) :
  respects Q c → c w = (r, w') → Q w w'.
Proof. intros Hc Hrun. by eapply Hc. Qed.

Lemma extends_file_at_free (free : option slot) (w w' : World) (i : nat) (f : File) :
  free ≠ Some slot_files → extends free w w' → file_at w i = Some f →
  ∃ f', file_at w' i = Some f'.
Proof.
  unfold extends, Reader_extends, file_at. intros Hfree (_ & _ & _ & Hfs) Hat.
  rewrite (bool_decide_false (free = Some slot_files)) in Hfs by done.
  destruct (__files (reader w)) as [fs|]; [|done].
  destruct (Hfs fs eq_refl) as (fs' & -> & Hl & He).
  apply lookup_lt_is_Some_2. rewrite Hl. by eapply lookup_lt_Some.
Qed.

(** ** Cache hits *)

Lemma extends_file_at (w w' : World) (i : nat) (f : File) :
  extends None w w' → file_at w i = Some f →
  ∃ f', file_at w' i = Some f' ∧ File_extends None i f f'.
Proof.
  unfold extends, Reader_extends, file_at. intros (_ & _ & _ & Hfs) Hat.
  rewrite (bool_decide_false (None = Some slot_files)) in Hfs by done.
  destruct (__files (reader w)) as [fs|]; [|done].
  destruct (Hfs fs eq_refl) as (fs' & -> & Hl & He).
  destruct (lookup_lt_is_Some_2 fs' i) as [f' Hf'].
  { rewrite Hl. by eapply lookup_lt_Some. }
  exists f'. split; [done|]. by eapply He.
Qed.

Lemma with_file_at (w : World) (i : nat) (g : File → File) (f : File) :
  file_at w i = Some f → file_at (with_file w i g) i = Some (g f).
Proof.
  unfold file_at, with_file. simpl.
  destruct (__files (reader w)) as [fs|]; [|done]. simpl.
  intros Hf. by rewrite list_lookup_alter_eq, Hf.
Qed.

Section hits.
Context `{Collaborators}.

Lemma get_file_at (w : World) (i : nat) (f : File) :
  file_at w i = Some f → get_file i w = (Ok f, w).
Proof.
  unfold file_at, get_file. destruct (__files (reader w)); [|done].
  simpl. by intros ->.
Qed.

Lemma File_path_hit (w : World) (i : nat) (f : File) (v : string) :
  file_at w i = Some f → __path f = Some v → File_path i w = (Ok v, w).
Proof.
  intros Hat Hv. unfold File_path.
  erewrite bind_Ok by (by apply get_file_at). by rewrite Hv.
Qed.

Lemma File__rels_path_hit (w : World) (i : nat) (f : File) (v : string) :
  file_at w i = Some f → __rels_path f = Some v →
  File__rels_path i w = (Ok v, w).
Proof.
  intros Hat Hv. unfold File__rels_path.
  erewrite bind_Ok by (by apply get_file_at). by rewrite Hv.
Qed.

Lemma File_rels_hit (w : World) (i : nat) (f : File) (v : gmap string string) :
  file_at w i = Some f → __rels f = Some v → File_rels i w = (Ok v, w).
Proof.
  intros Hat Hv. unfold File_rels.
  erewrite bind_Ok by (by apply get_file_at). by rewrite Hv.
Qed.

Lemma File_root_element_hit (w : World) (i : nat) (f : File) (v : Element) :
  file_at w i = Some f → __root_element f = Some v →
  File_root_element i w = (Ok v, w).
Proof.
  intros Hat Hv. unfold File_root_element.
  erewrite bind_Ok by (by apply get_file_at). by rewrite Hv.
Qed.

Lemma files_hit (w : World) (fs : list File) :
  __files (reader w) = Some fs → files w = (Ok (seq 0 (length fs)), w).
Proof. intros Hfs. unfold files, bind, get_reader. by rewrite Hfs. Qed.

Lemma numId2numFmts_hit (w : World) (t : gmap string (list string)) :
  __numId2NumFmts (reader w) = Some t → numId2numFmts w = (Ok t, w).
Proof. intros Ht. unfold numId2numFmts, bind, get_reader. by rewrite Ht. Qed.

(** After a successful access the slot holds what was returned. *)

Lemma zipf_fill (w w' : World) (z : nat) :
  zipf w = (Ok z, w') → __zipf (reader w') = Some z.
Proof.
  unfold zipf. intros (self & w1 & [= <- <-] & Hrun)%bind_inv_Ok.
  destruct (__zipf (reader w)) as [z'|] eqn:Hz.
  - by injection Hrun as <- <-.
  - apply bind_inv_Ok in Hrun as (z' & w1 & _ & Hrun).
    apply bind_inv_Ok in Hrun as ([] & w2 & [= <-] & [= <- <-]). done.
Qed.

Lemma numId2numFmts_fill (w w' : World) (t : gmap string (list string)) :
  numId2numFmts w = (Ok t, w') → __numId2NumFmts (reader w') = Some t.
Proof.
  unfold numId2numFmts. intros (self & w1 & [= <- <-] & Hrun)%bind_inv_Ok.
  destruct (__numId2NumFmts (reader w)) as [t'|] eqn:Ht.
  - by injection Hrun as <- <-.
  - apply bind_inv_Ok in Hrun as (t' & w1 & _ & Hrun).
    apply bind_inv_Ok in Hrun as ([] & w2 & [= <-] & [= <- <-]). done.
Qed.

Lemma File_path_fill (w w' : World) (i : nat) (v : string) :
  File_path i w = (Ok v, w') →
  ∃ f, file_at w' i = Some f ∧ __path f = Some v.
Proof.
  unfold File_path. intros (self & w1 & Hget & Hrun)%bind_inv_Ok.
  apply get_file_inv in Hget as [-> [(f & [= <-] & Hat)|(e & [=])]].
  destruct (__path self) as [p|] eqn:Hp.
  - injection Hrun as <- <-. eauto.
  - apply bind_inv_Ok in Hrun as ([] & w2 & Hup & [= <- <-]).
    rewrite update_file_with_file in Hup. injection Hup as <-.
    eexists. split; [by apply with_file_at|]. done.
Qed.

Lemma File__rels_path_fill (w w' : World) (i : nat) (v : string) :
  File__rels_path i w = (Ok v, w') →
  ∃ f, file_at w' i = Some f ∧ __rels_path f = Some v.
Proof.
  unfold File__rels_path. intros (self & w1 & Hget & Hrun)%bind_inv_Ok.
  apply get_file_inv in Hget as [-> [(f & [= <-] & Hat)|(e & [=])]].
  destruct (__rels_path self) as [p|] eqn:Hp.
  - injection Hrun as <- <-. eauto.
  - apply bind_inv_Ok in Hrun as (p & w1 & Hpath & Hrun).
    destruct (extends_file_at w w1 i self) as (f1 & Hat1 & _); [|done|].
    { by eapply File_path_extends. }
    destruct (Posixpath.split p) as [dirname filename].
    apply bind_inv_Ok in Hrun as ([] & w2 & Hup & [= <- <-]).
    rewrite update_file_with_file in Hup. injection Hup as <-.
    eexists. split; [by apply with_file_at|]. done.
Qed.

Lemma File_rels_fill (w w' : World) (i : nat) (v : gmap string string) :
  File_rels i w = (Ok v, w') →
  ∃ f, file_at w' i = Some f ∧ __rels f = Some v.
Proof.
  unfold File_rels. intros (self & w1 & Hget & Hrun)%bind_inv_Ok.
  apply get_file_inv in Hget as [-> [(f & [= <-] & Hat)|(e & [=])]].
  destruct (__rels self) as [p|] eqn:Hp.
  - injection Hrun as <- <-. eauto.
  - apply bind_inv_Ok in Hrun as (r & w1 & Hbody & Hrun).
    destruct (extends_file_at w w1 i self) as (f1 & Hat1 & _); [|done|].
    { revert Hbody. generalize w (Ok (A := gmap string string) r) w1.
      change (respects (extends None)
                (try_except
                   (bind zipf (λ z, bind (File__rels_path i) (λ rp,
                    bind (Zip.read z rp) (λ unzipped,
                    bind (log_call call_fromstring) (λ _,
                    bind (lift (etree_fromstring unzipped)) (λ tree,
                    lift (rels_of (Element_children tree) ∅)))))))
                   is_KeyError (λ _, ret ∅))).
      extends_steps. }
    apply bind_inv_Ok in Hrun as ([] & w2 & Hup & [= <- <-]).
    rewrite update_file_with_file in Hup. injection Hup as <-.
    eexists. split; [by apply with_file_at|]. done.
Qed.

Lemma File_root_element_fill (w w' : World) (i : nat) (v : Element) :
  File_root_element i w = (Ok v, w') →
  ∃ f, file_at w' i = Some f ∧ __root_element f = Some v.
Proof.
  unfold File_root_element. intros (self & w1 & Hget & Hrun)%bind_inv_Ok.
  apply get_file_inv in Hget as [-> [(f & [= <-] & Hat)|(e & [=])]].
  destruct (__root_element self) as [p|] eqn:Hp.
  - injection Hrun as <- <-. eauto.
  - apply bind_inv_Ok in Hrun as (z & w1 & _ & Hrun).
    apply bind_inv_Ok in Hrun as (p & w2 & _ & Hrun).
    apply bind_inv_Ok in Hrun as (data & w3 & _ & Hrun).
    apply bind_inv_Ok in Hrun as ([] & w4 & _ & Hrun).
    apply bind_inv_Ok in Hrun as (root & w5 & _ & Hrun).
    apply bind_inv_Ok in Hrun as (self' & w6 & Hget & Hrun).
    apply get_file_inv in Hget as [-> [(f & [= <-] & Hat5)|(e & [=])]].
    apply bind_inv_Ok in Hrun as (root' & w6 & Hmerge & Hrun).
    eapply (respects_elim (extends (Some (slot_root i)))) in Hmerge;
      last by extends_steps.
    destruct (extends_file_at_free (Some (slot_root i)) _ _ i self'
                ltac:(done) Hmerge Hat5)
      as (f6 & Hat6).
    apply bind_inv_Ok in Hrun as ([] & w7 & Hup & [= <- <-]).
    rewrite update_file_with_file in Hup. injection Hup as <-.
    eexists. split; [by apply with_file_at|]. done.
Qed.

Lemma files_fill (w w' : World) (refs : list nat) :
  files w = (Ok refs, w') →
  ∃ fs, __files (reader w') = Some fs ∧ refs = seq 0 (length fs).
Proof.
  intros Hrun. destruct (files_run _ _ _ Hrun) as (fs & Hfs & Hrefs & _). eauto.
Qed.

End hits.

(** ** The text of a part is extracted at every access *)

Lemma extractions_snoc (cs : list call) (c : call) :
  extractions (cs ++ [c])
  = extractions cs + match c with call_get_text _ => 1 | _ => 0 end.
Proof.
  unfold extractions. rewrite List.filter_app, length_app. by destruct c.
Qed.

Lemma log_call_same_extractions (c : call) :
  match c with call_get_text _ => False | _ => True end →
  respects (same_by (λ w, extractions (calls w))) (log_call c).
Proof.
  intros Hc w r w' [= <- <-]. unfold same_by. simpl.
  rewrite extractions_snoc. destruct c; simpl; try done; lia.
Qed.

Ltac count_step :=
  first
    [ apply log_call_same_extractions; exact I
    | respects_step
    | by unfold same_by ].

Section extraction.
Context `{Collaborators}.

Lemma File_root_element_same_extractions (i : nat) :
  respects (same_by (λ w, extractions (calls w))) (File_root_element i).
Proof.
  unfold File_root_element, zipf, Zip.open_r, Zip.read, File_path,
    update_file, set_reader, warn.
  repeat count_step.
Qed.

(** Every successful access to [content] runs the text extraction
    once more. *)
Lemma File_content_extracts (i : nat) (w w' : World) (v : content_t) :
  File_content i w = (Ok v, w') →
  extractions (calls w') = S (extractions (calls w)).
Proof.
  unfold File_content, get_text.
  intros (self & w1 & Hget & Hrun)%bind_inv_Ok.
  apply get_file_inv in Hget as [-> _].
  apply bind_inv_Ok in Hrun as ([] & w1 & [= <-] & Hrun).
  apply bind_inv_Ok in Hrun as (root & w2 & Hroot & Hrun).
  apply File_root_element_same_extractions in Hroot.
  apply bind_inv_Ok in Hrun as (self' & w3 & Hget & Hrun).
  apply get_file_inv in Hget as [-> _].
  unfold lift in Hrun. injection Hrun as _ <-.
  unfold same_by in Hroot. rewrite Hroot. simpl.
  rewrite extractions_snoc. lia.
Qed.

Lemma operations_extend : operations_respect (extends None).
Proof.
  unfold operations_respect. split_and!; intros;
    first [ apply File_path_extends | apply File__rels_path_extends
          | apply File_rels_extends | apply File_root_element_extends
          | apply get_text_extends | apply zipf_extends | apply files_extends
          | apply numId2numFmts_extends | apply file_of_type_extends
          | apply files_of_type_extends | apply save_extends
          | apply pull_image_files_extends | apply close_extends
          | apply del_extends ].
Qed.

(** C6, amended. Let [w2] be any later state of the reader in which
    no cache has been invalidated.  Then each of the cached values
    (path, rels path, rels mapping, XML root, numbering table, part
    list, archive handle) that an access has returned on reaching
    [w1] is returned again at [w2], with the state, and so the
    record of calls, unchanged: it is not computed again.  Every
    operation of a part or of the reader leads to such a later
    state, whatever it returns or raises.  [content] is not among
    the cached values: each successful access extracts the text
    once more. *)
Theorem caches_computed_once (w1 w2 : World) :
  extends None w1 w2 →
  (∀ i w v, File_path i w = (Ok v, w1) → File_path i w2 = (Ok v, w2))
  ∧ (∀ i w v, File__rels_path i w = (Ok v, w1) → File__rels_path i w2 = (Ok v, w2))
  ∧ (∀ i w v, File_rels i w = (Ok v, w1) → File_rels i w2 = (Ok v, w2))
  ∧ (∀ i w v, File_root_element i w = (Ok v, w1) →
              File_root_element i w2 = (Ok v, w2))
  ∧ (∀ w v, numId2numFmts w = (Ok v, w1) → numId2numFmts w2 = (Ok v, w2))
  ∧ (∀ w v, files w = (Ok v, w1) → files w2 = (Ok v, w2))
  ∧ (∀ w v, zipf w = (Ok v, w1) → zipf w2 = (Ok v, w2))
  ∧ operations_respect (extends None)
  ∧ (∀ i w w' v, File_content i w = (Ok v, w') →
                 extractions (calls w') = S (extractions (calls w))).
Proof.
  intros Hext.
  assert (∀ i f, file_at w1 i = Some f →
            ∃ f', file_at w2 i = Some f' ∧ File_extends None i f f') as Hat.
  { intros i f. by apply extends_file_at. }
  destruct Hext as (_ & Hz & Hn & Hfs). simpl in Hz, Hn, Hfs.
  split_and!.
  - intros i w v (f & Hf & Hv)%File_path_fill.
    destruct (Hat i f Hf) as (f' & Hf' & (_ & _ & _ & _ & Hp & _)).
    eapply File_path_hit; [done|]. by apply Hp.
  - intros i w v (f & Hf & Hv)%File__rels_path_fill.
    destruct (Hat i f Hf) as (f' & Hf' & (_ & _ & _ & _ & _ & Hp & _)).
    eapply File__rels_path_hit; [done|]. by apply Hp.
  - intros i w v (f & Hf & Hv)%File_rels_fill.
    destruct (Hat i f Hf) as (f' & Hf' & (_ & _ & _ & _ & _ & _ & Hp & _)).
    eapply File_rels_hit; [done|]. by apply Hp.
  - intros i w v (f & Hf & Hv)%File_root_element_fill.
    destruct (Hat i f Hf) as (f' & Hf' & (_ & _ & _ & _ & _ & _ & _ & Hp)).
    eapply File_root_element_hit; [done|]. by apply Hp.
  - intros w v Hv%numId2numFmts_fill. apply numId2numFmts_hit. by apply Hn.
  - intros w v (fs & Hfs1 & ->)%files_fill.
    destruct (Hfs fs Hfs1) as (fs' & Hfs' & Hl & _).
    rewrite <-Hl. by apply files_hit.
  - intros w v Hv%zipf_fill. apply zipf_cached. by apply Hz.
  - apply operations_extend.
  - intros i w w' v. apply File_content_extracts.
Qed.

End extraction.

(** C6, as stated, fails for [content]: on [example.docx], two
    accesses to the content of the main document part return the
    same text, but the second is not served from a cache: the text
    has been extracted twice, and the state has changed. *)
Lemma content_extracted_twice :
  let C := Sample.toy Sample.example_rels Sample.merge_nothing in
  ∃ v w1 w2,
    File_content (H := C) 0 Sample.enumerated = (Ok v, w1)
    ∧ File_content (H := C) 0 w1 = (Ok v, w2)
    ∧ extractions (calls w1) = 1
    ∧ extractions (calls w2) = 2
    ∧ File_content (H := C) 0 w1 ≠ (Ok v, w1).
Proof.
  eexists _, _, _. split; [vm_compute; reflexivity|].
  split; [vm_compute; reflexivity|].
  split; [vm_compute; reflexivity|].
  split; [vm_compute; reflexivity|].
  intros Heq. apply (f_equal (λ x, length (calls (snd x)))) in Heq.
  vm_compute in Heq. discriminate.
Qed.

(** ** [save] does not return when there is a content part *)

#[global] Instance stays_closed_PreOrder (z : nat) : PreOrder (stays_closed z).
Proof.
  unfold stays_closed. split.
  - by intros w Hc.
  - intros w1 w2 w3 H12 H23 Hc. by apply H23, H12.
Qed.

Lemma alloc_stays_closed (z : nat) (zf : ZipFile) (w : World) :
  stays_closed z w (World_with_zipfiles w (zipfiles w ++ [zf])).
Proof.
  unfold stays_closed. simpl. intros Hc.
  destruct (zipfiles w !! z) as [zf'|] eqn:Hz; [|done].
  by rewrite (lookup_app_l_Some _ _ _ _ Hz).
Qed.

Ltac closed_step :=
  first
    [ apply alloc_stays_closed
    | respects_step
    | by unfold stays_closed ].

Lemma try_finally_inv_Ok {A} (c : M A) (f : M unit) (w w' : World) (a : A) :
  try_finally c f w = (Ok a, w') →
  ∃ w1, c w = (Ok a, w1) ∧ f w1 = (Ok tt, w').
Proof.
  unfold try_finally. destruct (c w) as [r w1] eqn:Hc.
  destruct (f w1) as [[[]|e] w2] eqn:Hf; intros [= -> <-].
  by exists w1.
Qed.

Lemma Zip_close_Ok (z : nat) (w w' : World) :
  Zip.close z w = (Ok tt, w') → (fp <$> zipfiles w' !! z) = Some false.
Proof.
  unfold Zip.close. intros (zf & w1 & Hd & Hrun)%bind_inv_Ok.
  unfold Zip.deref in Hd.
  destruct (zipfiles w !! z) as [zf'|] eqn:Hz; [|done].
  injection Hd as <- <-.
  destruct (fp zf') eqn:Hfp; simpl in Hrun.
  - apply bind_inv_Ok in Hrun as ([] & w2 & Hm & [= <-]).
    simpl. rewrite list_lookup_alter_eq.
    assert (zipfiles w2 = zipfiles w) as ->.
    { destruct (mode zf'); by injection Hm as <-. }
    by rewrite Hz.
  - injection Hrun as <-. by rewrite Hz, <-Hfp.
Qed.

Lemma Zip_writestr_closed (z : nat) (a : ZipInfo + string) (d : bytes) (w : World) :
  (fp <$> zipfiles w !! z) = Some false →
  ∃ w', Zip.writestr z a d w
        = (Raise (ValueError "Attempt to write to ZIP archive that was already closed"),
           w').
Proof.
  intros Hc. unfold Zip.writestr, bind, log_call, modify, Zip.deref. simpl.
  destruct (zipfiles w !! z) as [zf|]; [|done].
  injection Hc as ->. simpl. eauto.
Qed.

Section save_facts.
Context `{Collaborators}.

Lemma File_path_stays_closed (z i : nat) : respects (stays_closed z) (File_path i).
Proof. unfold File_path, update_file, set_reader. repeat closed_step. Qed.

Lemma File_root_element_stays_closed (z i : nat) :
  respects (stays_closed z) (File_root_element i).
Proof.
  unfold File_root_element, zipf, Zip.open_r, Zip.read, File_path,
    update_file, set_reader, warn, log_call.
  repeat closed_step.
Qed.

(** When [_copy_but] returns, it has closed the output archive. *)
Lemma copy_but_closes_output (in_zip out_zip : nat) (exclusions : option (gset string))
    (w w' : World) :
  _copy_but in_zip out_zip exclusions w = (Ok tt, w') →
  (fp <$> zipfiles w' !! out_zip) = Some false.
Proof.
  unfold _copy_but. intros (items & w1 & _ & Hrun)%bind_inv_Ok.
  apply bind_inv_Ok in Hrun as ([] & w2 & _ & Hrun).
  apply bind_inv_Ok in Hrun as ([] & w3 & _ & Hrun).
  by apply Zip_close_Ok in Hrun.
Qed.

(** Whatever the package: if [save] returns, no part of the package
    has a content type.  With a content part, [save] raises. *)
Lemma save_returns_without_content (filename : string) (w w' : World) :
  save filename w = (Ok tt, w') →
  ∃ fs, __files (reader w') = Some fs ∧ matching CONTENT_FILE_TYPES fs = [].
Proof.
  intros Hsave.
  assert (extends None w w') as Hext by (by eapply save_extends).
  unfold save in Hsave.
  apply bind_inv_Ok in Hsave as (refs & w0 & Hfiles & Hsave).
  destruct (files_run _ _ _ Hfiles) as (fs & Hfs & -> & _).
  erewrite bind_Ok in Hsave; last first.
  { apply filter_M_Type_in; [done|].
    apply Forall_forall. intros i Hi%elem_of_seq. lia. }
  fold (matching CONTENT_FILE_TYPES fs) in Hsave.
  assert (∃ fs', __files (reader w') = Some fs'
                 ∧ matching CONTENT_FILE_TYPES fs' = matching CONTENT_FILE_TYPES fs)
    as (fs' & Hfs' & Hsame).
  { assert (extends None w0 w') as Hext0.
    { eapply (respects_elim (extends None)); [|exact Hsave].
      unfold Zip.with_, _copy_but. extends_steps. }
    destruct Hext0 as (_ & _ & _ & Hfs0). simpl in Hfs0.
    destruct (Hfs0 fs Hfs) as (fs' & Hfs' & Hl & He).
    exists fs'. split; [done|]. unfold matching. rewrite Hl.
    apply List.filter_ext_in. intros i Hi. f_equal.
    apply in_seq in Hi as [_ Hi]. simpl in Hi.
    destruct (lookup_lt_is_Some_2 fs i Hi) as [f Hf].
    destruct (lookup_lt_is_Some_2 fs' i) as [f' Hf']; [by rewrite Hl|].
    destruct (He i f f' Hf Hf') as (_ & Hty & _).
    unfold type_at. rewrite Hf, Hf'. simpl.
    apply bool_decide_ext. by rewrite Hty. }
  exists fs'. split; [done|]. rewrite Hsame.
  destruct (matching CONTENT_FILE_TYPES fs) as [|c rest] eqn:Hm; [done|].
  exfalso.
  apply bind_inv_Ok in Hsave as (zout & w1 & _ & Hsave).
  apply try_finally_inv_Ok in Hsave as (w2 & Hbody & _).
  apply bind_inv_Ok in Hbody as (in_zip & w3 & _ & Hbody).
  apply bind_inv_Ok in Hbody as (exclusions & w4 & _ & Hbody).
  apply bind_inv_Ok in Hbody as ([] & w5 & Hcopy & Hbody).
  apply copy_but_closes_output in Hcopy.
  simpl in Hbody.
  apply bind_inv_Ok in Hbody as ([] & w6 & Hfirst & _).
  apply bind_inv_Ok in Hfirst as (p & w7 & Hpath & Hfirst).
  apply (File_path_stays_closed zout) in Hpath. apply Hpath in Hcopy.
  apply bind_inv_Ok in Hfirst as (root & w8 & Hroot & Hfirst).
  apply (File_root_element_stays_closed zout) in Hroot. apply Hroot in Hcopy.
  apply bind_inv_Ok in Hfirst as ([] & w9 & [= <-] & Hfirst).
  destruct (Zip_writestr_closed zout (inr p) (etree_tostring root)
              (World_with_calls w8 (calls w8 ++ [call_tostring])))
    as (w10 & Hw); [exact Hcopy|].
  rewrite Hw in Hfirst. done.
Qed.

End save_facts.

(** ** What [save] leaves at the destination *)

Lemma getinfo_elem_of (ms : list member) (m : member) :
  m ∈ ms → is_Some (Zip.getinfo ms (filename (fst m))).
Proof.
  induction ms as [|m' ms IH]; [by intros ?%elem_of_nil|].
  intros [->|Hin]%elem_of_cons; simpl.
  - destruct (Zip.getinfo ms _); [done|]. by rewrite String.eqb_refl.
  - destruct (IH Hin) as [x ->]. done.
Qed.

Lemma getinfo_filename (ms : list member) (name : string) (m : member) :
  Zip.getinfo ms name = Some m → filename (fst m) = name ∧ m ∈ ms.
Proof.
  induction ms as [|m' ms IH]; simpl; [done|].
  destruct (Zip.getinfo ms name) as [m''|].
  - intros [= <-]. destruct (IH eq_refl) as [? ?]. split; [done|].
    by apply list_elem_of_further.
  - destruct (String.eqb (filename (fst m')) name) eqn:Heq; [|done].
    intros [= <-]. apply String.eqb_eq in Heq. split; [done|].
    apply list_elem_of_here.
Qed.

(** When no two members have the same name, a member is what the
    archive gives for its name. *)
Lemma getinfo_NoDup (ms : list member) (m : member) :
  NoDup ((λ m, filename (fst m)) <$> ms) → m ∈ ms →
  Zip.getinfo ms (filename (fst m)) = Some m.
Proof.
  induction ms as [|m' ms IH]; [by intros _ ?%elem_of_nil|].
  rewrite fmap_cons, NoDup_cons. intros [Hnotin Hnodup] [->|Hin]%elem_of_cons; simpl.
  - destruct (Zip.getinfo ms _) as [m''|] eqn:Hget.
    + exfalso. apply getinfo_filename in Hget as [Hname Hin]. apply Hnotin.
      rewrite <-Hname. apply list_elem_of_fmap. by exists m''.
    + by rewrite String.eqb_refl.
  - by rewrite (IH Hnodup Hin).
Qed.

(** Then what [_copy_but] writes is the source without the excluded
    members, unchanged. *)
Lemma copied_found (ms l : list member) (exclusions : gset string) :
  (∀ m, m ∈ l → Zip.getinfo ms (filename (fst m)) = Some m) →
  copied ms l exclusions
  = List.filter (λ m, bool_decide (filename (fst m) ∉ exclusions)) l.
Proof.
  unfold copied. induction l as [|m l IH]; intros Hget; simpl; [done|].
  destruct (bool_decide (filename (fst m) ∉ exclusions)).
  - rewrite Hget by apply list_elem_of_here. simpl. rewrite <-surjective_pairing.
    f_equal. apply IH. intros m' Hm'. apply Hget. by apply list_elem_of_further.
  - apply IH. intros m' Hm'. apply Hget. by apply list_elem_of_further.
Qed.

Lemma copied_NoDup (ms : list member) (exclusions : gset string) :
  NoDup ((λ m, filename (fst m)) <$> ms) →
  copied ms ms exclusions
  = List.filter (λ m, bool_decide (filename (fst m) ∉ exclusions)) ms.
Proof.
  intros Hnodup. apply copied_found. intros m. by apply getinfo_NoDup.
Qed.

Lemma Zip_writestr_open (w : World) (z : nat) (zf : ZipFile) (info : ZipInfo)
    (data : bytes) :
  zipfiles w !! z = Some zf → fp zf = true → mode zf = mode_w →
  ∃ w', Zip.writestr z (inl info) data w = (Ok tt, w')
        ∧ zipfiles w' = alter (ZipFile_append (info, data)) z (zipfiles w)
        ∧ disk w' = disk w
        ∧ reader w' = reader w.
Proof.
  intros Hz Hfp Hmode.
  unfold Zip.writestr, bind, log_call, modify, Zip.deref. simpl.
  rewrite Hz, Hfp. simpl. rewrite Hmode.
  destruct (bool_decide (is_Some (Zip.getinfo (filelist zf) (filename info))));
    simpl; eexists; (split; [reflexivity|]); done.
Qed.

(** The loop of [_copy_but], with both archives open. *)
Lemma copy_loop (in_zip out_zip : nat) (zin : ZipFile) (exclusions : gset string)
    (l : list member) :
  in_zip ≠ out_zip → fp zin = true →
  (∀ m, m ∈ l → is_Some (Zip.getinfo (filelist zin) (filename (fst m)))) →
  ∀ (w : World) (zout : ZipFile),
    zipfiles w !! in_zip = Some zin → intact (disk w) zin →
    zipfiles w !! out_zip = Some zout →
    fp zout = true → mode zout = mode_w →
    ∃ w',
      for_each (fst <$> l)
        (λ item,
           if bool_decide (filename item ∉ exclusions) then
             bind (Zip.read in_zip (filename item))
               (λ buffer, Zip.writestr out_zip (inl item) buffer)
           else ret tt) w
      = (Ok tt, w')
      ∧ zipfiles w' !! in_zip = Some zin
      ∧ zipfiles w' !! out_zip
        = Some {| zip_name := zip_name zout; mode := mode zout;
                  filelist := filelist zout ++ copied (filelist zin) l exclusions;
                  fp := fp zout |}
      ∧ disk w' = disk w
      ∧ reader w' = reader w.
Proof.
  intros Hne Hfpin.
  induction l as [|m l IH]; intros Hl w zout Hin Hint Hout Hfp Hmode.
  { exists w. split; [done|]. split; [done|]. split; [|done].
    rewrite Hout. destruct zout. simpl. by rewrite app_nil_r. }
  assert (∀ m', m' ∈ l →
            is_Some (Zip.getinfo (filelist zin) (filename (fst m')))) as Hl'.
  { intros m' Hm'. apply Hl. by apply list_elem_of_further. }
  rewrite fmap_cons.
  change (for_each (fst m :: ?items) ?body)
    with (bind (body (fst m)) (λ _, for_each items body)).
  unfold copied. simpl. fold (copied (filelist zin) l exclusions).
  destruct (bool_decide (filename (fst m) ∉ exclusions)).
  - destruct (Hl m) as [[info data] Hget]; [apply list_elem_of_here|].
    rewrite Hget. simpl.
    destruct (Zip_writestr_open (logged w (call_read (filename (fst m))))
                out_zip zout (fst m) data) as (w1 & Hwrite & Hz1 & Hd1 & Hr1);
      [done..|].
    destruct (IH Hl' w1 (ZipFile_append (fst m, data) zout))
      as (w' & Hloop & Hin' & Hout' & Hd' & Hr').
    { rewrite Hz1. by rewrite list_lookup_alter_ne. }
    { by rewrite Hd1. }
    { rewrite Hz1. simpl. by rewrite list_lookup_alter_eq, Hout. }
    { done. }
    { done. }
    exists w'. split; [|split; [done|split; [|split]]].
    + erewrite bind_Ok; [exact Hloop|].
      erewrite bind_Ok; [exact Hwrite|].
      by eapply Zip_read_found.
    + rewrite Hout'. simpl. by rewrite <-app_assoc.
    + by rewrite Hd', Hd1.
    + by rewrite Hr', Hr1.
  - destruct (IH Hl' w zout) as (w' & Hloop & Hrest); [done..|].
    exists w'. split; [|done].
    erewrite bind_Ok; [exact Hloop|]. done.
Qed.

Lemma Zip_close_open (w : World) (z : nat) (zf : ZipFile) :
  zipfiles w !! z = Some zf → fp zf = true →
  Zip.close z w
  = (Ok tt,
     World_with_zipfiles
       (match mode zf with
        | mode_w => World_with_disk w (<[zip_name zf := Archive (filelist zf)]> (disk w))
        | mode_r => w
        end)
       (alter ZipFile_closed z (zipfiles w))).
Proof.
  intros Hz Hfp. unfold Zip.close, bind, Zip.deref. rewrite Hz, Hfp. simpl.
  by destruct (mode zf).
Qed.

(** [_copy_but] with both archives open: it returns, the destination
    holds the copied members, and both archives are closed. *)
Lemma copy_but_run (w : World) (in_zip out_zip : nat) (zin zout : ZipFile)
    (exclusions : option (gset string)) :
  in_zip ≠ out_zip →
  zipfiles w !! in_zip = Some zin → fp zin = true → mode zin = mode_r →
  intact (disk w) zin →
  zipfiles w !! out_zip = Some zout → fp zout = true → mode zout = mode_w →
  ∃ w',
    _copy_but in_zip out_zip exclusions w = (Ok tt, w')
    ∧ disk w'
      = <[zip_name zout :=
            Archive (filelist zout
                     ++ copied (filelist zin) (filelist zin) (default ∅ exclusions))]>
          (disk w)
    ∧ (fp <$> zipfiles w' !! in_zip) = Some false
    ∧ (fp <$> zipfiles w' !! out_zip) = Some false
    ∧ reader w' = reader w.
Proof.
  intros Hne Hin Hfpin Hmin Hint Hout Hfpout Hmout.
  destruct (copy_loop in_zip out_zip zin (default ∅ exclusions) (filelist zin)
              Hne Hfpin) with (w := w) (zout := zout)
    as (w1 & Hloop & Hin1 & Hout1 & Hd1 & Hr1); [|done..|].
  { intros m. apply getinfo_elem_of. }
  unfold _copy_but.
  erewrite bind_Ok; last first.
  { unfold Zip.infolist. erewrite bind_Ok; [reflexivity|].
    unfold Zip.deref. by rewrite Hin. }
  erewrite bind_Ok by exact Hloop.
  erewrite bind_Ok by (by apply Zip_close_open).
  rewrite Hmin.
  erewrite Zip_close_open;
    [|simpl; rewrite list_lookup_alter_ne by done; exact Hout1|done].
  eexists. split; [reflexivity|]. simpl. rewrite Hmout, Hd1.
  split; [done|]. split; [|split; [|done]].
  - rewrite list_lookup_alter_ne by done.
    by rewrite list_lookup_alter_eq, Hin1.
  - by rewrite list_lookup_alter_eq, list_lookup_alter_ne, Hout1 by done.
Qed.

Lemma alter_stays_closed (z z' : nat) (g : ZipFile → ZipFile) (w : World) :
  (∀ zf, fp (g zf) = fp zf) →
  stays_closed z w (World_with_zipfiles w (alter g z' (zipfiles w))).
Proof.
  intros Hg. unfold stays_closed. simpl.
  destruct (decide (z' = z)) as [->|Hne].
  - rewrite list_lookup_alter_eq. destruct (zipfiles w !! z); [|done].
    simpl. by rewrite Hg.
  - by rewrite list_lookup_alter_ne.
Qed.

Lemma Zip_close_closed (w : World) (z : nat) :
  (fp <$> zipfiles w !! z) = Some false → Zip.close z w = (Ok tt, w).
Proof.
  intros Hc. unfold Zip.close, bind, Zip.deref.
  destruct (zipfiles w !! z) as [zf|]; [|done].
  injection Hc as ->. done.
Qed.

Lemma try_finally_run {A} (c : M A) (f : M unit) (w w1 w2 : World) (r : result A) :
  c w = (r, w1) → f w1 = (Ok tt, w2) → try_finally c f w = (r, w2).
Proof. intros Hc Hf. unfold try_finally. by rewrite Hc, Hf. Qed.

Section save_run.
Context `{Collaborators}.

Lemma write_part_same_disk (zout file : nat) :
  respects (same_by disk) (write_part zout file).
Proof.
  unfold write_part, File_root_element, zipf, Zip.open_r, Zip.read, File_path,
    Zip.writestr, Zip.update, update_file, set_reader, warn, log_call.
  respects_steps.
Qed.

Lemma write_part_stays_closed (z zout file : nat) :
  respects (stays_closed z) (write_part zout file).
Proof.
  unfold write_part, File_root_element, zipf, Zip.open_r, Zip.read, File_path,
    Zip.writestr, Zip.update, update_file, set_reader, warn, log_call.
  repeat first [ by apply alter_stays_closed | closed_step ].
Qed.

Lemma write_part_closed (zout file : nat) (w : World) :
  (fp <$> zipfiles w !! zout) = Some false →
  ∃ e w', write_part zout file w = (Raise e, w').
Proof.
  intros Hc. unfold write_part.
  destruct (File_path file w) as [[p|e] w1] eqn:Hpath;
    [|erewrite bind_Raise by done; eauto].
  apply (File_path_stays_closed zout) in Hpath as Hc1. apply Hc1 in Hc.
  erewrite bind_Ok by done.
  destruct (File_root_element file w1) as [[root|e] w2] eqn:Hroot;
    [|erewrite bind_Raise by done; eauto].
  apply (File_root_element_stays_closed zout) in Hroot as Hc2. apply Hc2 in Hc.
  erewrite bind_Ok by done.
  erewrite bind_Ok by reflexivity.
  destruct (Zip_writestr_closed zout (inr p) (etree_tostring root)
              (World_with_calls w2 (calls w2 ++ [call_tostring])))
    as (w3 & ->); [exact Hc|].
  eauto.
Qed.

(** The last loop of [save], once the output archive is closed: it
    changes nothing on disk, reopens nothing, and gets through only
    if there is nothing to write. *)
Lemma write_parts_closed (zout : nat) (l : list nat) (w : World) :
  (fp <$> zipfiles w !! zout) = Some false →
  ∃ r w',
    for_each l (write_part zout) w = (r, w')
    ∧ disk w' = disk w
    ∧ (∀ z, stays_closed z w w')
    ∧ (r = Ok tt ↔ l = []).
Proof.
  intros Hc. destruct l as [|file l].
  { exists (Ok tt), w. done. }
  destruct (write_part_closed zout file w Hc) as (e & w' & Hrun).
  exists (Raise e), w'. split; [|split; [|split]].
  - simpl. by erewrite bind_Raise.
  - by eapply write_part_same_disk.
  - intros z. by eapply write_part_stays_closed.
  - done.
Qed.

Lemma map_M_File_path (w : World) (fs : list File) (l : list nat) :
  __files (reader w) = Some fs → Forall (λ i, i < length fs) l →
  map_M File_path l w = (Ok (path_at fs <$> l), set_files w (cache_paths l fs)).
Proof.
  intros Hfs Hl. revert w fs Hfs Hl.
  induction l as [|i l IH]; intros w fs Hfs Hl; simpl.
  - unfold ret. by rewrite set_files_id.
  - apply Forall_cons in Hl as [Hi Hl].
    apply lookup_lt_is_Some in Hi as [f Hf].
    erewrite bind_Ok by (by eapply File_path_run).
    erewrite bind_Ok; last first.
    { apply IH; [reflexivity|]. by rewrite length_alter. }
    unfold ret. rewrite set_files_twice. f_equal. f_equal.
    f_equal.
    + unfold path_at. by rewrite Hf.
    + apply list_fmap_ext. intros _ j _. by rewrite path_at_alter.
Qed.

Lemma Zip_open_w_run (w : World) (name : string) :
  create_refused (disk w) name = None →
  Zip.open_w name w
  = (Ok (length (zipfiles w)),
     World_with_zipfiles
       (World_with_disk
          (World_with_calls w (calls w ++ [call_ZipFile name mode_w]))
          (<[realpath name := Plain ""]> (disk w)))
       (zipfiles w ++ [{| zip_name := realpath name; mode := mode_w;
                          filelist := []; fp := true |}])).
Proof.
  intros Hc. unfold Zip.open_w, bind, log_call, modify, get_world, Zip.alloc.
  simpl. by rewrite Hc.
Qed.

(** What [save] does on an open and intact archive, to a file other
    than that of the archive, which the system lets it create.
    Whether it returns or raises, the file at the destination is an
    archive with exactly the members of the source that are not
    content parts, each under its own [ZipInfo] and with the bytes the
    source gives for its name, and the source archive is closed.  It
    returns only if there is no content part; the content parts are
    never written. *)
Lemma save_run (w w0 : World) (refs : list nat) (fs : list File) (z : nat)
    (zin : ZipFile) (filename : string) :
  files w = (Ok refs, w0) → __files (reader w0) = Some fs →
  __zipf (reader w0) = Some z → zipfiles w0 !! z = Some zin →
  fp zin = true → mode zin = mode_r → intact (disk w0) zin →
  realpath filename ≠ zip_name zin →
  create_refused (disk w0) filename = None →
  ∃ r w',
    save filename w = (r, w')
    ∧ disk w'
      = <[realpath filename :=
            Archive (copied (filelist zin) (filelist zin) (content_paths fs))]>
          (disk w0)
    ∧ (fp <$> zipfiles w' !! z) = Some false
    ∧ (r = Ok tt ↔ matching CONTENT_FILE_TYPES fs = []).
Proof.
  intros Hfiles Hfs Hz Hzin Hfp Hmode Hint Hother Hcreate.
  destruct (files_run _ _ _ Hfiles) as (fs' & Hfs' & -> & _).
  assert (fs' = fs) as -> by congruence.
  set (content := matching CONTENT_FILE_TYPES fs).
  set (zout := length (zipfiles w0)).
  set (new := {| zip_name := realpath filename; mode := mode_w; filelist := [];
                 fp := true |}).
  set (w1 := World_with_zipfiles
               (World_with_disk
                  (World_with_calls w0 (calls w0 ++ [call_ZipFile filename mode_w]))
                  (<[realpath filename := Plain ""]> (disk w0)))
               (zipfiles w0 ++ [new])).
  set (w2 := set_files w1 (cache_paths content fs)).
  assert (z ≠ zout) as Hne.
  { apply lookup_lt_Some in Hzin. unfold zout. lia. }
  destruct (copy_but_run w2 z zout zin new
              (Some (list_to_set (path_at fs <$> content))))
    as (w3 & Hcopy & Hd3 & Hin3 & Hout3 & Hr3); [done| |done|done| | |done|done|].
  { simpl. by apply lookup_app_l_Some. }
  { unfold intact. simpl. by rewrite lookup_insert_ne. }
  { simpl. by apply list_lookup_middle. }
  destruct (write_parts_closed zout content w3 Hout3)
    as (r & w4 & Hloop & Hd4 & Hc4 & Hr4).
  exists r, w4. split; [|split; [|split]].
  - unfold save.
    erewrite bind_Ok by exact Hfiles.
    erewrite bind_Ok; last first.
    { apply filter_M_Type_in; [done|].
      apply Forall_forall. intros i Hi%elem_of_seq. lia. }
    fold (matching CONTENT_FILE_TYPES fs). fold content.
    erewrite (bind_Ok (Zip.open_w filename)); [|by apply Zip_open_w_run].
    fold zout. fold new. fold w1.
    eapply try_finally_run.
    + erewrite bind_Ok by (by apply zipf_cached).
      erewrite bind_Ok; last first.
      { apply map_M_File_path; [done|].
        apply Forall_forall. intros i Hi. unfold content in Hi.
        apply elem_of_matching in Hi as (f & Hf & _). by eapply lookup_lt_Some. }
      fold w2.
      erewrite bind_Ok by exact Hcopy.
      exact Hloop.
    + apply Zip_close_closed. by apply Hc4.
  - rewrite Hd4, Hd3. simpl. by rewrite insert_insert_eq.
  - by apply Hc4.
  - done.
Qed.

End save_run.

(** ** [save] on [example.docx] *)

(** C1. On [example.docx], which has three content parts, [save] does
    not return: it raises a [ValueError], because [_copy_but] has
    closed the output archive (and the source) before the content
    parts are written.  The file it leaves at the destination holds
    the copied members only; no content part is in it.  This is so
    both when nothing has been read before, and when the root of the
    main document part has been read first, as in
    [test_save_unchanged]. *)
Theorem save_raises_with_content_part :
  let C := Sample.toy Sample.example_rels Sample.merge_nothing in
  let copied :=
    [ Sample.mem "_rels/.rels" "<Relationships/>";
      Sample.mem "word/_rels/document.xml.rels" "<Relationships/>";
      Sample.mem "word/styles.xml" "<w:styles/>";
      Sample.mem "word/media/image1.png" "PNG1" ] in
  (∃ w',
     save (H := C) "example_copy.docx" Sample.fresh
     = (Raise (ValueError "Attempt to use ZIP archive that was already closed"), w')
     ∧ disk w' !! "example_copy.docx" = Some (Archive copied)
     ∧ (fp <$> zipfiles w') = [false; false])
  ∧ (∃ i w1 root w2 w',
       file_of_type (H := C) "officeDocument" Sample.fresh = (Ok i, w1)
       ∧ File_root_element (H := C) i w1 = (Ok root, w2)
       ∧ save (H := C) "example_copy.docx" w2
         = (Raise (ValueError "Attempt to write to ZIP archive that was already closed"),
            w')
       ∧ disk w' !! "example_copy.docx" = Some (Archive copied)
       ∧ (fp <$> zipfiles w') = [false; false])
  ∧ Zip.getinfo copied "word/document.xml" = None.
Proof.
  split; [|split].
  - eexists. split; [vm_compute; reflexivity|].
    split; vm_compute; reflexivity.
  - eexists _, _, _, _, _. split; [vm_compute; reflexivity|].
    split; [vm_compute; reflexivity|].
    split; [vm_compute; reflexivity|].
    split; vm_compute; reflexivity.
  - reflexivity.
Qed.

(** ** The theorems at work on [example.docx] *)

Lemma File_path_pure_witness :
  ∃ w',
    File_path 0 Sample.enumerated
    = (Ok (path_spec "_rels" "word/document.xml"), w')
    ∧ File_path 0 w' = (Ok (path_spec "_rels" "word/document.xml"), w')
    ∧ calls w' = calls Sample.enumerated
    ∧ zipfiles w' = zipfiles Sample.enumerated
    ∧ disk w' = disk Sample.enumerated
    ∧ warnings w' = warnings Sample.enumerated
    ∧ __zipf (reader w') = __zipf (reader Sample.enumerated).
Proof.
  apply (File_path_pure Sample.enumerated Sample.enumerated_files 0
           Sample.document_part);
    vm_compute; reflexivity.
Defined.

Lemma file_of_type_first_witness :
  ∃ r f w1,
    file_of_type (H := Sample.toy Sample.example_rels Sample.merge_nothing)
      "header" Sample.fresh = (Ok r, w1)
    ∧ r = 3
    ∧ the_path f = "word/header1.xml"
    ∧ warnings w1 = ["Multiple files of type '{type_}' found. Returning first."].
Proof.
  destruct (file_of_type_first
              (H := Sample.toy Sample.example_rels Sample.merge_nothing)
              Sample.fresh Sample.enumerated [0; 1; 2; 3; 4; 5]
              Sample.enumerated_files "header")
    as (r & f & w1 & Hrun & Hhead & Hf & _ & _ & _ & Hw).
  - vm_compute; reflexivity.
  - vm_compute; reflexivity.
  - exists 2, Sample.header2_part. split; vm_compute; reflexivity.
  - exists r, f, w1. split; [exact Hrun|].
    assert (r = 3) as -> by (vm_compute in Hhead; congruence).
    split; [reflexivity|]. split; [|exact Hw].
    vm_compute in Hf. injection Hf as <-. reflexivity.
Defined.

Lemma files_of_type_None_content_witness :
  ∃ l w1,
    files_of_type (H := Sample.toy Sample.example_rels Sample.merge_nothing)
      None Sample.fresh = (Ok l, w1)
    ∧ (∀ i, i ∈ l ↔ ∃ f, Sample.enumerated_files !! i = Some f
                        ∧ Type_ f ∈ CONTENT_FILE_TYPES)
    ∧ NoDup l
    ∧ StronglySorted
        (λ i j, String.le (path_at Sample.enumerated_files i)
                  (path_at Sample.enumerated_files j)) l
    ∧ ∃ l1 l2 l3 l4 l5 w2 w3 w4 w5 w6,
        files_of_type (H := Sample.toy Sample.example_rels Sample.merge_nothing)
          (Some "officeDocument") Sample.fresh = (Ok l1, w2)
        ∧ files_of_type (H := Sample.toy Sample.example_rels Sample.merge_nothing)
            (Some "header") Sample.fresh = (Ok l2, w3)
        ∧ files_of_type (H := Sample.toy Sample.example_rels Sample.merge_nothing)
            (Some "footer") Sample.fresh = (Ok l3, w4)
        ∧ files_of_type (H := Sample.toy Sample.example_rels Sample.merge_nothing)
            (Some "footnotes") Sample.fresh = (Ok l4, w5)
        ∧ files_of_type (H := Sample.toy Sample.example_rels Sample.merge_nothing)
            (Some "endnotes") Sample.fresh = (Ok l5, w6)
        ∧ length l = length l1 + length l2 + length l3 + length l4 + length l5.
Proof.
  apply (files_of_type_None_content
           (H := Sample.toy Sample.example_rels Sample.merge_nothing)
           Sample.fresh Sample.enumerated [0; 1; 2; 3; 4; 5]
           Sample.enumerated_files);
    vm_compute; reflexivity.
Defined.

Lemma caches_computed_once_witness :
  let C := Sample.toy Sample.example_rels Sample.merge_nothing in
  let w1 := snd (File_root_element (H := C) 0 Sample.enumerated) in
  let w2 := snd (files_of_type (H := C) None w1) in
  extends None w1 w2
  ∧ File_root_element (H := C) 0 w2
    = (Ok (Elem "root" ∅ "<w:document>bullet item</w:document>" []), w2).
Proof.
  intros C w1 w2.
  assert (extends None w1 w2) as Hext.
  { apply (files_of_type_extends (H := C) None w1 (fst (files_of_type (H := C) None w1))).
    apply surjective_pairing. }
  split; [exact Hext|].
  destruct (caches_computed_once (H := C) w1 w2 Hext) as (_ & _ & _ & Hroot & _).
  apply (Hroot 0 Sample.enumerated). vm_compute. reflexivity.
Defined.

(** On [example.docx] the system of the sample lets the one image
    that is there be written under [out]. *)
Lemma writes_allowed_out :
  writes_allowed (H := Sample.toy Sample.example_rels Sample.merge_nothing)
    (disk Sample.enumerated) (Some "out") {[ "image1.png" := "PNG1" ]}.
Proof.
  split; [vm_compute; reflexivity|].
  intros dsk' name [data Hname] Hagree.
  apply lookup_singleton_Some in Hname as [<- _].
  assert (dsk' !! "out" = None) as Hout.
  { rewrite Hagree; [vm_compute; reflexivity|].
    intros name' [data' Hname'].
    apply lookup_singleton_Some in Hname' as [<- _]. vm_compute. discriminate. }
  unfold create_refused.
  replace (Posixpath.basename (Posixpath.join "out" "image1.png"))
    with "image1.png" by (vm_compute; reflexivity).
  replace (realpath (Posixpath.dirname (Posixpath.join "out" "image1.png")))
    with "out" by (vm_compute; reflexivity).
  simpl. by rewrite Hout.
Qed.

Lemma absent_resources_are_not_errors_witness :
  let C := Sample.toy Sample.example_rels Sample.merge_nothing in
  (∃ w', File_rels (H := C) 2 Sample.enumerated = (Ok ∅, w')
         ∧ warnings w' = warnings Sample.enumerated)
  ∧ (∃ w', numId2numFmts (H := C) Sample.enumerated = (Ok ∅, w')
           ∧ warnings w' = warnings Sample.enumerated)
  ∧ (∃ w', pull_image_files (H := C) None Sample.enumerated
           = (Ok {[ "image1.png" := "PNG1" ]}, w')
           ∧ warnings w' = warnings Sample.enumerated)
  ∧ (∃ w', pull_image_files (H := C) (Some "out") Sample.enumerated
           = (Ok {[ "image1.png" := "PNG1" ]}, w')
           ∧ warnings w' = warnings Sample.enumerated).
Proof.
  intros C.
  destruct (absent_resources_are_not_errors (H := C)
              Sample.enumerated Sample.example_docx)
    as (Hrels & Hnum & Himages).
  { vm_compute. eexists. split; [reflexivity|]. split; [reflexivity|]. split; reflexivity. }
  assert (images_of Sample.example_docx Sample.enumerated_files
            (List.filter (λ i, present Sample.example_docx
                                 (path_at Sample.enumerated_files i))
               (sorted_refs (Some "image") Sample.enumerated_files)) ∅
          = {[ "image1.png" := "PNG1" ]}) as Himg by (vm_compute; reflexivity).
  split; [|split; [|split]].
  - apply (Hrels Sample.enumerated_files 2 Sample.header2_part);
      vm_compute; reflexivity.
  - apply Hnum; vm_compute; reflexivity.
  - destruct (Himages [0; 1; 2; 3; 4; 5] Sample.enumerated
                Sample.enumerated_files None) as (w' & Hrun & Hw).
    + vm_compute; reflexivity.
    + vm_compute; reflexivity.
    + exact I.
    + exists w'. split; [|exact Hw]. rewrite Hrun, Himg. reflexivity.
  - destruct (Himages [0; 1; 2; 3; 4; 5] Sample.enumerated
                Sample.enumerated_files (Some "out")) as (w' & Hrun & Hw).
    + vm_compute; reflexivity.
    + vm_compute; reflexivity.
    + rewrite Himg. exact writes_allowed_out.
    + exists w'. split; [|exact Hw]. rewrite Hrun, Himg. reflexivity.
Defined.

Lemma pull_image_files_last_present_witness :
  ∃ images w',
    pull_image_files (H := Sample.toy Sample.twin_rels Sample.merge_nothing)
      None Sample.twin = (Ok images, w')
    ∧ images !! "logo.png" = Some "PNG-A".
Proof.
  destruct (pull_image_files_last_present
              (H := Sample.toy Sample.twin_rels Sample.merge_nothing)
              Sample.twin Sample.twin_enumerated Sample.twin_docx
              [0; 1; 2] Sample.twin_files None)
    as (images & r & w' & Hrun & _ & Hok & Hlookup).
  - vm_compute. reflexivity.
  - vm_compute; reflexivity.
  - vm_compute; reflexivity.
  - exists images, w'. split; [by rewrite Hrun, (Hok I)|].
    rewrite Hlookup. vm_compute. reflexivity.
Defined.

(** * Further properties *)

(** ** Base names *)

Lemma rfind_go_last_index (c : ascii) (s : string) (pos acc : Z) :
  Py.rfind_go c s pos acc
  = match last_index c s with
    | Some k => (pos + Z.of_nat k)%Z
    | None => acc
    end.
Proof.
  revert pos acc. induction s as [|a r IH]; intros pos acc; simpl; [done|].
  rewrite IH. destruct (last_index c r) as [k|].
  - lia.
  - destruct (Ascii.eqb a c); [lia|done].
Qed.

Lemma basename_last_index (p : string) :
  Posixpath.basename p
  = match last_index Posixpath.sep p with
    | Some k => Py.drop_nat (S k) p
    | None => p
    end.
Proof.
  unfold Posixpath.basename, Py.slice_from, Py.rfind.
  rewrite rfind_go_last_index.
  destruct (last_index Posixpath.sep p) as [k|]; [|done].
  replace (Z.to_nat (0 + Z.of_nat k + 1)) with (S k) by lia. done.
Qed.

Lemma last_index_None (c : ascii) (s : string) :
  last_index c s = None ↔ has_chr c s = false.
Proof.
  induction s as [|a r IH]; simpl; [done|].
  destruct (last_index c r) as [k|].
  - split; [done|]. intros [_ Hr]%orb_false_iff. by apply IH in Hr.
  - destruct (Ascii.eqb a c); simpl; [done|]. by rewrite <-IH.
Qed.

Lemma drop_after_last_index (c : ascii) (s : string) (k : nat) :
  last_index c s = Some k → has_chr c (Py.drop_nat (S k) s) = false.
Proof.
  revert k. induction s as [|a r IH]; intros k; simpl; [done|].
  destruct (last_index c r) as [k'|] eqn:Hr.
  - intros [= <-]. by apply IH.
  - destruct (Ascii.eqb a c); [|done]. intros [= <-].
    simpl. by apply last_index_None.
Qed.

(** A base name has no slash in it. *)
Lemma basename_no_sep (p : string) :
  has_chr Posixpath.sep (Posixpath.basename p) = false.
Proof.
  rewrite basename_last_index.
  destruct (last_index Posixpath.sep p) as [k|] eqn:Hk.
  - by apply drop_after_last_index.
  - by apply last_index_None.
Qed.

Lemma last_index_app_sep (c : ascii) (h t : string) :
  has_chr c t = false →
  last_index c (h +:+ String c t) = Some (String.length h).
Proof.
  intros Ht. induction h as [|a h IH]; simpl.
  - apply last_index_None in Ht. rewrite Ht. by rewrite Ascii.eqb_refl.
  - change (String a h +:+ String c t) with (String a (h +:+ String c t)).
    simpl. by rewrite IH.
Qed.

Lemma drop_nat_app (h t : string) :
  Py.drop_nat (String.length h) (h +:+ t) = t.
Proof. induction h as [|a h IH]; simpl; [by destruct t|done]. Qed.

(** The base name of [h/t], where [t] has no slash, is [t]. *)
Lemma basename_app (h t : string) :
  has_chr Posixpath.sep t = false →
  Posixpath.basename (h +:+ "/" +:+ t) = t.
Proof.
  intros Ht. rewrite basename_last_index.
  change ("/" +:+ t) with (String Posixpath.sep t).
  rewrite last_index_app_sep by done.
  change (Py.drop_nat (S (String.length h)) (h +:+ String Posixpath.sep t))
    with (Py.drop_nat (S (String.length h)) (h +:+ String Posixpath.sep t)).
  replace (S (String.length h)) with (String.length (h +:+ "/")).
  - replace (h +:+ String Posixpath.sep t) with ((h +:+ "/") +:+ t).
    + apply drop_nat_app.
    + induction h as [|a h IH]; simpl; [done|].
      change (String a h +:+ "/") with (String a (h +:+ "/")).
      change (String a h +:+ String Posixpath.sep t)
        with (String a (h +:+ String Posixpath.sep t)).
      change (String a (h +:+ "/") +:+ t) with (String a ((h +:+ "/") +:+ t)).
      by rewrite IH.
  - induction h as [|a h IH]; simpl; [done|].
    change (String a h +:+ "/") with (String a (h +:+ "/")). simpl. by rewrite IH.
Qed.

Lemma str_app_cons (a : ascii) (h t : string) :
  String a h +:+ t = String a (h +:+ t).
Proof. done. Qed.

Lemma str_app_assoc (s1 s2 s3 : string) :
  (s1 +:+ s2) +:+ s3 = s1 +:+ (s2 +:+ s3).
Proof.
  induction s1 as [|a s1 IH]; [done|]. by rewrite !str_app_cons, IH.
Qed.

Lemma has_chr_app (c : ascii) (s t : string) :
  has_chr c (s +:+ t) = has_chr c s || has_chr c t.
Proof.
  induction s as [|a s IH]; [done|].
  rewrite str_app_cons. simpl. by rewrite IH, orb_assoc.
Qed.

Lemma split_basename (p : string) : snd (Posixpath.split p) = Posixpath.basename p.
Proof. done. Qed.

(** The computed path and rels path of a part keep the file name of
    the target. *)
Lemma the_path_basename (f : File) :
  __path f = None →
  Posixpath.basename (the_path f) = Posixpath.basename (Target f).
Proof.
  intros Hp. unfold the_path. rewrite Hp.
  change (Py.join "/" [?d; ?b]) with (d +:+ "/" +:+ b).
  apply basename_app, basename_no_sep.
Qed.

Lemma the_rels_path_shape (f : File) :
  __path f = None → __rels_path f = None →
  the_rels_path f
  = fst (Posixpath.split (the_path f)) +:+ "/_rels/"
    +:+ Posixpath.basename (Target f) +:+ ".rels".
Proof.
  intros Hp Hrp. unfold the_rels_path. rewrite Hrp.
  rewrite <-(the_path_basename f Hp), <-split_basename.
  destruct (Posixpath.split (the_path f)) as [d fn]. reflexivity.
Qed.

Section naming.
Context `{Collaborators}.

(** X1. A part is stored, and its relationships are looked for,
    under the file name of its target: the base name of [path] is
    the base name of [Target], and [_rels_path] is the directory of
    [path], then [/_rels/], then that file name with [.rels]
    appended.  Neither accessor touches the archive. *)
Theorem rels_path_named_after_part (w : World) (fs : list File) (i : nat) (f : File) :
  __files (reader w) = Some fs → fs !! i = Some f →
  __path f = None → __rels_path f = None →
  ∃ p rp w1 w2,
    File_path i w = (Ok p, w1)
    ∧ File__rels_path i w = (Ok rp, w2)
    ∧ Posixpath.basename p = Posixpath.basename (Target f)
    ∧ rp = fst (Posixpath.split p) +:+ "/_rels/"
           +:+ Posixpath.basename (Target f) +:+ ".rels"
    ∧ Posixpath.basename rp = Posixpath.basename (Target f) +:+ ".rels"
    ∧ calls w2 = calls w ∧ zipfiles w2 = zipfiles w ∧ disk w2 = disk w.
Proof.
  intros Hfs Hi Hp Hrp.
  eexists _, _, _, _.
  split; [by eapply File_path_run|].
  split; [by eapply File__rels_path_run|].
  split; [by apply the_path_basename|].
  split; [by apply the_rels_path_shape|].
  split; [|done].
  rewrite the_rels_path_shape by done.
  change (?d +:+ "/_rels/" +:+ ?t) with (d +:+ "/_rels" +:+ "/" +:+ t).
  rewrite <-str_app_assoc. apply basename_app.
  by rewrite has_chr_app, basename_no_sep.
Qed.

End naming.

(** ** The relationships of a part *)

Lemma rels_of_wellformed (tree : list Element) (acc : gmap string string) :
  Forall has_Id_and_Target tree →
  ∃ m, rels_of tree acc = Ok m
       ∧ ∀ id, m !! id
               = match
                   last (List.filter
                           (λ x, bool_decide (Element_attrib x !! "Id" = Some id)) tree)
                 with
                 | Some x => Element_attrib x !! "Target"
                 | None => acc !! id
                 end.
Proof.
  intros Htree. revert acc.
  induction Htree as [|x tree [[k Hk] [v Hv]] Htree IH]; intros acc.
  { by exists acc. }
  destruct (IH (<[k := v]> acc)) as (m & Hm & Hlookup).
  exists m. split.
  - simpl. unfold getitem. rewrite Hk, Hv. simpl. exact Hm.
  - intros id. rewrite Hlookup. simpl. rewrite Hk.
    case_bool_decide as Hid.
    + injection Hid as ->. rewrite last_cons.
      destruct (last _); [done|]. by rewrite lookup_insert_eq, Hv.
    + destruct (last _); [done|]. rewrite lookup_insert_ne; [done|].
      intros ->. done.
Qed.

Lemma rels_of_malformed (tree : list Element) (acc : gmap string string) :
  Exists (λ x, ¬ has_Id_and_Target x) tree →
  ∃ k, rels_of tree acc = Raise (KeyError k).
Proof.
  revert acc. induction tree as [|x tree IH]; intros acc Hex.
  { by apply Exists_nil in Hex. }
  simpl. unfold getitem.
  destruct (Element_attrib x !! "Id") as [k|] eqn:Hk; simpl; [|eauto].
  destruct (Element_attrib x !! "Target") as [v|] eqn:Hv; simpl; [|eauto].
  apply Exists_cons in Hex as [Hx|Hex]; [|by apply IH].
  exfalso. apply Hx. unfold has_Id_and_Target. by rewrite Hk, Hv.
Qed.

Section rels_facts.
Context `{Collaborators}.

(** [rels] of a part whose rels member is in the archive and parses:
    what the block under [try] yields decides the result. *)
Lemma File_rels_run (w : World) (ms : list member) (fs : list File) (i : nat)
    (f : File) (info : ZipInfo) (data : bytes) (tree : Element) :
  readable w ms →
  __files (reader w) = Some fs → fs !! i = Some f → __rels f = None →
  Zip.getinfo ms (the_rels_path f) = Some (info, data) →
  etree_fromstring data = Ok tree →
  ∃ w',
    File_rels i w
    = (Ok (match rels_of (Element_children tree) ∅ with
           | Ok m => m
           | Raise _ => ∅
           end), w')
    ∧ warnings w' = warnings w.
Proof.
  intros Hr Hfs Hi Hrels Hget Hparse.
  destruct (zipf_readable w ms Hr)
    as (z & w1 & Hzipf & [Hz (zf & Hzf & Hfp & Hms & Hint)] & Hfs1 & _ & _ & Hw1 & _).
  rewrite Hfs in Hfs1. subst ms.
  assert (∀ e, rels_of (Element_children tree) ∅ = Raise e → is_KeyError e = true)
    as Hkey.
  { intros e He.
    destruct (decide (Forall has_Id_and_Target (Element_children tree)))
      as [Hwf|Hbad].
    - destruct (rels_of_wellformed _ ∅ Hwf) as (m & Hm' & _). congruence.
    - apply not_Forall_Exists in Hbad; [|apply _].
      destruct (rels_of_malformed _ ∅ Hbad) as (k & Hk).
      rewrite Hk in He. by injection He as <-. }
  unfold File_rels.
  erewrite bind_Ok by (by eapply get_file_run).
  rewrite Hrels.
  destruct (rels_of (Element_children tree) ∅) as [m|e] eqn:Hm.
  - erewrite bind_Ok; last first.
    { unfold try_except.
      erewrite bind_Ok by exact Hzipf.
      erewrite bind_Ok by (by eapply File__rels_path_run).
      erewrite bind_Ok by (by eapply Zip_read_found).
      erewrite bind_Ok by reflexivity.
      unfold bind at 1. unfold lift at 1. rewrite Hparse.
      unfold lift. rewrite Hm. reflexivity. }
    eexists. split; [reflexivity|]. done.
  - erewrite bind_Ok; last first.
    { unfold try_except.
      erewrite bind_Ok by exact Hzipf.
      erewrite bind_Ok by (by eapply File__rels_path_run).
      erewrite bind_Ok by (by eapply Zip_read_found).
      erewrite bind_Ok by reflexivity.
      unfold bind at 1. unfold lift at 1. rewrite Hparse.
      unfold lift. rewrite Hm, (Hkey e eq_refl). reflexivity. }
    eexists. split; [reflexivity|]. done.
Qed.

(** X2. [rels] of a part whose rels member is in the archive, parses,
    and holds only relationship elements with [Id] and [Target]:
    the mapping returned sends an id to the target of the last
    element with that id (and has no other entries); it is cached,
    and nothing is warned of. *)
Theorem File_rels_last_target (w : World) (ms : list member) (fs : list File)
    (i : nat) (f : File) (info : ZipInfo) (data : bytes) (tree : Element) :
  readable w ms →
  __files (reader w) = Some fs → fs !! i = Some f → __rels f = None →
  Zip.getinfo ms (the_rels_path f) = Some (info, data) →
  etree_fromstring data = Ok tree →
  Forall has_Id_and_Target (Element_children tree) →
  ∃ m w',
    File_rels i w = (Ok m, w')
    ∧ (∀ id, m !! id
             = match
                 last (List.filter
                         (λ x, bool_decide (Element_attrib x !! "Id" = Some id))
                         (Element_children tree))
               with
               | Some x => Element_attrib x !! "Target"
               | None => None
               end)
    ∧ File_rels i w' = (Ok m, w')
    ∧ warnings w' = warnings w.
Proof.
  intros Hr Hfs Hi Hrels Hget Hparse Hwf.
  destruct (File_rels_run w ms fs i f info data tree) as (w' & Hrun & Hw); [done..|].
  destruct (rels_of_wellformed _ ∅ Hwf) as (m & Hm & Hlookup).
  rewrite Hm in Hrun. exists m, w'. split; [done|]. split; [|split; [|done]].
  - intros id. rewrite Hlookup. destruct (last _); [done|]. apply lookup_empty.
  - destruct (File_rels_fill _ _ _ _ Hrun) as (f' & Hf' & Hcached).
    by eapply File_rels_hit.
Qed.

(** X3. [rels] of a part whose rels member is in the archive and
    parses, but holds an element without [Id] or without [Target]:
    the [KeyError] is caught by the handler for a missing member, so
    the empty mapping is returned, and cached, silently, whatever the
    other elements say. *)
Theorem File_rels_missing_attribute (w : World) (ms : list member) (fs : list File)
    (i : nat) (f : File) (info : ZipInfo) (data : bytes) (tree : Element) :
  readable w ms →
  __files (reader w) = Some fs → fs !! i = Some f → __rels f = None →
  Zip.getinfo ms (the_rels_path f) = Some (info, data) →
  etree_fromstring data = Ok tree →
  Exists (λ x, ¬ has_Id_and_Target x) (Element_children tree) →
  ∃ w',
    File_rels i w = (Ok ∅, w')
    ∧ File_rels i w' = (Ok ∅, w')
    ∧ warnings w' = warnings w.
Proof.
  intros Hr Hfs Hi Hrels Hget Hparse Hbad.
  destruct (File_rels_run w ms fs i f info data tree) as (w' & Hrun & Hw); [done..|].
  destruct (rels_of_malformed _ ∅ Hbad) as (k & Hk).
  rewrite Hk in Hrun. exists w'. split; [done|]. split; [|done].
  destruct (File_rels_fill _ _ _ _ Hrun) as (f' & Hf' & Hcached).
  by eapply File_rels_hit.
Qed.

End rels_facts.

(** ** The root of a part *)

Section root_facts.
Context `{Collaborators}.

(** X4. [root_element] of a part that is not of a content type: the
    parsed tree is returned and cached as it is; [merge_elems] is not
    called (the member is read and parsed, nothing else happens), and
    nothing is warned of. *)
Theorem root_element_not_merged (w : World) (z : nat) (ms : list member)
    (fs : list File) (i : nat) (f : File) (info : ZipInfo) (data : bytes)
    (root : Element) :
  opened w z ms →
  __files (reader w) = Some fs → fs !! i = Some f → __root_element f = None →
  Zip.getinfo ms (the_path f) = Some (info, data) →
  etree_fromstring data = Ok root →
  Type_ f ∉ CONTENT_FILE_TYPES →
  ∃ w',
    File_root_element i w = (Ok root, w')
    ∧ cached_root w' i = Some root
    ∧ calls w' = calls w ++ [call_read (the_path f); call_fromstring]
    ∧ warnings w' = warnings w.
Proof.
  intros [Hz (zf & Hzf & Hfp & Hms & Hint)] Hfs Hi Hroot Hget Hparse Hty. subst ms.
  unfold File_root_element.
  erewrite bind_Ok by (by eapply get_file_run).
  rewrite Hroot.
  erewrite bind_Ok by (by apply zipf_cached).
  erewrite bind_Ok by (by eapply File_path_run).
  erewrite bind_Ok by (by eapply Zip_read_found).
  erewrite bind_Ok by reflexivity.
  unfold bind at 1. unfold lift at 1. rewrite Hparse.
  erewrite bind_Ok; last first.
  { eapply get_file_run; [reflexivity|]. by rewrite list_lookup_alter_eq, Hi. }
  simpl. rewrite bool_decide_false by done.
  eexists. split; [reflexivity|].
  unfold cached_root, file_at. simpl.
  rewrite !list_lookup_alter_eq, Hi. simpl.
  split; [done|]. split; [|done]. by rewrite <-app_assoc.
Qed.

(** X5. [root_element] of a content part on which [merge_elems]
    succeeds: the tree as [merge_elems] leaves it is returned and
    cached, after one read, one parse and one call of [merge_elems],
    and nothing is warned of. *)
Theorem root_element_merged (w : World) (z : nat) (ms : list member)
    (fs : list File) (i : nat) (f : File) (info : ZipInfo) (data : bytes)
    (root root' : Element) :
  opened w z ms →
  __files (reader w) = Some fs → fs !! i = Some f → __root_element f = None →
  Zip.getinfo ms (the_path f) = Some (info, data) →
  etree_fromstring data = Ok root →
  Type_ f ∈ CONTENT_FILE_TYPES →
  merge_elems (cache_path f) root = (root', None) →
  ∃ w',
    File_root_element i w = (Ok root', w')
    ∧ cached_root w' i = Some root'
    ∧ calls w'
      = calls w ++ [call_read (the_path f); call_fromstring;
                    call_merge_elems (the_path f)]
    ∧ warnings w' = warnings w.
Proof.
  intros [Hz (zf & Hzf & Hfp & Hms & Hint)] Hfs Hi Hroot Hget Hparse Hty Hmerge.
  subst ms.
  unfold File_root_element.
  erewrite bind_Ok by (by eapply get_file_run).
  rewrite Hroot.
  erewrite bind_Ok by (by apply zipf_cached).
  erewrite bind_Ok by (by eapply File_path_run).
  erewrite bind_Ok by (by eapply Zip_read_found).
  erewrite bind_Ok by reflexivity.
  unfold bind at 1. unfold lift at 1. rewrite Hparse.
  erewrite bind_Ok; last first.
  { eapply get_file_run; [reflexivity|]. by rewrite list_lookup_alter_eq, Hi. }
  simpl. rewrite bool_decide_true by done.
  unfold bind at 2. simpl. rewrite Hmerge.
  eexists. split; [reflexivity|].
  unfold cached_root, file_at. simpl.
  rewrite !list_lookup_alter_eq, Hi. simpl.
  split; [done|]. split; [|done]. by rewrite <-!app_assoc.
Qed.

(** X6. [root_element] of a part whose member is not in the archive:
    the [KeyError] of the read is passed on, and no root is cached, so
    the next access reads again. *)
Theorem root_element_missing_member (w : World) (z : nat) (ms : list member)
    (fs : list File) (i : nat) (f : File) :
  opened w z ms →
  __files (reader w) = Some fs → fs !! i = Some f → __root_element f = None →
  Zip.getinfo ms (the_path f) = None →
  ∃ w',
    File_root_element i w
    = (Raise (KeyError ("There is no item named '" +:+ the_path f
                        +:+ "' in the archive")), w')
    ∧ cached_root w' i = None
    ∧ File_root_element i w'
      = (Raise (KeyError ("There is no item named '" +:+ the_path f
                          +:+ "' in the archive")),
         logged w' (call_read (the_path f))).
Proof.
  intros [Hz (zf & Hzf & Hfp & Hms & Hint)] Hfs Hi Hroot Hget. subst ms.
  set (fs1 := alter cache_path i fs).
  assert (fs1 !! i = Some (cache_path f)) as Hi1.
  { unfold fs1. by rewrite list_lookup_alter_eq, Hi. }
  exists (logged (set_files w fs1) (call_read (the_path f))).
  split; [|split].
  - unfold File_root_element.
    erewrite bind_Ok by (by eapply get_file_run).
    rewrite Hroot.
    erewrite bind_Ok by (by apply zipf_cached).
    erewrite bind_Ok by (by eapply File_path_run).
    erewrite bind_Raise by (by eapply Zip_read_missing). done.
  - unfold cached_root, file_at. simpl. by rewrite Hi1.
  - unfold File_root_element.
    erewrite bind_Ok by (by eapply get_file_run).
    simpl. rewrite Hroot.
    erewrite bind_Ok by (by apply zipf_cached).
    erewrite bind_Ok by (by eapply File_path_run).
    rewrite the_path_cache_path.
    erewrite bind_Raise; last first.
    { eapply Zip_read_missing; [exact Hzf|done|done]. }
    unfold logged, set_files. simpl.
    by rewrite (alter_cached fs1 i (cache_path f) (the_path f)).
Qed.

End root_facts.

(** ** The numbering table *)

Section numbering_facts.
Context `{Collaborators}.

(** X7. [numId2numFmts] when [word/numbering.xml] is in the archive
    and parses: the table of [collect_numFmts] is returned and cached;
    a [KeyError] raised inside [collect_numFmts] is taken for a
    missing member, so the empty table is returned and cached; any
    other exception of [collect_numFmts] is passed on and nothing is
    cached. *)
Theorem numId2numFmts_decoded (w : World) (ms : list member) (info : ZipInfo)
    (data : bytes) (root : Element) :
  readable w ms →
  __numId2NumFmts (reader w) = None →
  Zip.getinfo ms "word/numbering.xml" = Some (info, data) →
  etree_fromstring data = Ok root →
  ∃ w',
    numId2numFmts w
    = (match collect_numFmts root with
       | Ok t => Ok t
       | Raise e => if is_KeyError e then Ok ∅ else Raise e
       end, w')
    ∧ __numId2NumFmts (reader w')
      = match collect_numFmts root with
        | Ok t => Some t
        | Raise e => if is_KeyError e then Some ∅ else None
        end.
Proof.
  intros Hr Hnone Hget Hparse.
  destruct (zipf_readable w ms Hr)
    as (z & w1 & Hzipf & [Hz (zf & Hzf & Hfp & Hms & Hint)] & _ & Hn1 & _).
  subst ms. rewrite Hnone in Hn1.
  unfold numId2numFmts.
  unfold bind at 1. simpl. rewrite Hnone.
  destruct (collect_numFmts root) as [t|e] eqn:Hdecode;
    [|destruct (is_KeyError e) eqn:Hkey].
  - erewrite bind_Ok; last first.
    { unfold try_except.
      erewrite bind_Ok by exact Hzipf.
      erewrite bind_Ok by (by eapply Zip_read_found).
      erewrite bind_Ok by reflexivity.
      unfold bind at 1. unfold lift at 1. rewrite Hparse.
      erewrite bind_Ok by reflexivity.
      unfold lift. rewrite Hdecode. reflexivity. }
    eexists. split; [reflexivity|]. done.
  - erewrite bind_Ok; last first.
    { unfold try_except.
      erewrite bind_Ok by exact Hzipf.
      erewrite bind_Ok by (by eapply Zip_read_found).
      erewrite bind_Ok by reflexivity.
      unfold bind at 1. unfold lift at 1. rewrite Hparse.
      erewrite bind_Ok by reflexivity.
      unfold lift. rewrite Hdecode, Hkey. reflexivity. }
    eexists. split; [reflexivity|]. done.
  - erewrite bind_Raise; last first.
    { unfold try_except.
      erewrite bind_Ok by exact Hzipf.
      erewrite bind_Ok by (by eapply Zip_read_found).
      erewrite bind_Ok by reflexivity.
      unfold bind at 1. unfold lift at 1. rewrite Hparse.
      erewrite bind_Ok by reflexivity.
      unfold lift. rewrite Hdecode, Hkey. reflexivity. }
    eexists. split; [reflexivity|]. simpl. done.
Qed.

End numbering_facts.

(** ** After [close] *)

Section after_close.
Context `{Collaborators}.

(** X8. Once an open archive has been closed, the reader does not
    open it again: [zipf] still returns the closed handle, so
    [numId2numFmts], [rels] and [root_element], where not cached,
    raise [ValueError] (which the handlers for missing members do not
    catch) and cache nothing. *)
Theorem reads_after_close_fail (w : World) (z : nat) (ms : list member) :
  opened w z ms →
  let closed := ValueError "Attempt to use ZIP archive that was already closed" in
  ∃ w1,
    close w = (Ok tt, w1)
    ∧ zipf w1 = (Ok z, w1)
    ∧ (__numId2NumFmts (reader w1) = None →
       ∃ w2, numId2numFmts w1 = (Raise closed, w2)
             ∧ __numId2NumFmts (reader w2) = None)
    ∧ (∀ i f, file_at w1 i = Some f → __rels f = None →
         ∃ w2, File_rels i w1 = (Raise closed, w2)
               ∧ (file_at w2 i ≫= __rels) = None)
    ∧ (∀ i f, file_at w1 i = Some f → __root_element f = None →
         ∃ w2, File_root_element i w1 = (Raise closed, w2)
               ∧ cached_root w2 i = None).
Proof.
  intros [Hz (zf & Hzf & Hfp & Hms & Hint)] closed.
  eexists. split.
  { unfold close, bind, get_reader. rewrite Hz. by apply Zip_close_open. }
  set (w1 := World_with_zipfiles _ _).
  assert (__zipf (reader w1) = Some z) as Hz1.
  { unfold w1. by destruct (mode zf). }
  assert (zipfiles w1 !! z = Some (ZipFile_closed zf)) as Hzf1.
  { unfold w1. simpl. by rewrite list_lookup_alter_eq, Hzf. }
  clearbody w1.
  split; [by apply zipf_cached|]. split; [|split].
  - intros Hnone. unfold numId2numFmts.
    unfold bind at 1. simpl. rewrite Hnone.
    erewrite bind_Raise; last first.
    { unfold try_except.
      erewrite bind_Ok by (by apply zipf_cached).
      erewrite bind_Raise by (by eapply Zip_read_closed).
      reflexivity. }
    eexists. split; [reflexivity|]. done.
  - intros i f Hat Hrels.
    assert (∃ fs, __files (reader w1) = Some fs ∧ fs !! i = Some f) as (fs & Hfs & Hi).
    { unfold file_at in Hat. destruct (__files (reader w1)); [eauto|done]. }
    unfold File_rels.
    erewrite bind_Ok by (by eapply get_file_run).
    rewrite Hrels.
    erewrite bind_Raise; last first.
    { unfold try_except.
      erewrite bind_Ok by (by apply zipf_cached).
      erewrite bind_Ok by (by eapply File__rels_path_run).
      erewrite bind_Raise by (by eapply Zip_read_closed).
      reflexivity. }
    eexists. split; [reflexivity|].
    unfold file_at. simpl. rewrite list_lookup_alter_eq, Hi. simpl.
    destruct (__rels_path f); simpl; done.
  - intros i f Hat Hroot.
    assert (∃ fs, __files (reader w1) = Some fs ∧ fs !! i = Some f) as (fs & Hfs & Hi).
    { unfold file_at in Hat. destruct (__files (reader w1)); [eauto|done]. }
    unfold File_root_element.
    erewrite bind_Ok by (by eapply get_file_run).
    rewrite Hroot.
    erewrite bind_Ok by (by apply zipf_cached).
    erewrite bind_Ok by (by eapply File_path_run).
    erewrite bind_Raise by (by eapply Zip_read_closed).
    eexists. split; [reflexivity|].
    unfold cached_root, file_at. simpl. by rewrite list_lookup_alter_eq, Hi.
Qed.

(** X9. Closing an open archive twice: the first [close] succeeds, a
    second [close] and [__del__] succeed too and change nothing. *)
Theorem close_is_idempotent_once_open (w : World) (z : nat) (ms : list member) :
  opened w z ms →
  ∃ w1,
    close w = (Ok tt, w1)
    ∧ close w1 = (Ok tt, w1)
    ∧ __del__ w1 = (Ok tt, w1)
    ∧ (fp <$> zipfiles w1 !! z) = Some false.
Proof.
  intros [Hz (zf & Hzf & _)]. by eapply close_twice_after_open.
Qed.

(** X10. [zipf] when the document is not on disk: [FileNotFoundError]
    is raised and no handle is kept, so the reader can be used once
    the file is there. *)
Theorem zipf_missing_document (w : World) :
  __zipf (reader w) = None →
  disk w !! realpath (docx_filename (reader w)) = None →
  ∃ w',
    zipf w = (Raise (FileNotFoundError (docx_filename (reader w))), w')
    ∧ __zipf (reader w') = None
    ∧ zipfiles w' = zipfiles w
    ∧ ∀ ms,
        ∃ z w'', zipf (World_with_disk w'
                          (<[realpath (docx_filename (reader w)) := Archive ms]>
                             (disk w')))
                 = (Ok z, w'')
                 ∧ opened w'' z ms.
Proof.
  intros Hz Hdisk. unfold zipf, bind, get_reader. rewrite Hz.
  unfold Zip.open_r, bind, log_call, modify, get_world. simpl. rewrite Hdisk.
  eexists. split; [reflexivity|]. simpl. split; [done|]. split; [done|].
  intros ms. rewrite Hz. simpl. rewrite lookup_insert_eq. simpl.
  eexists _, _. split; [reflexivity|]. split; [done|]. simpl.
  eexists. split; [by apply list_lookup_middle|].
  split; [done|]. split; [done|]. unfold intact. simpl.
  by rewrite lookup_insert_eq.
Qed.

End after_close.

(** ** The part list *)

Lemma File_init_complete (k : string) (x : gmap string string) :
  complete_record (k, x) →
  ∃ f, File_init (<["dir" := Posixpath.dirname k]> x) = Ok f
       ∧ made_from (k, x) f.
Proof.
  intros ([id Hid] & [ty Hty] & [tg Htg]). simpl in *.
  unfold File_init, getitem.
  rewrite !lookup_insert_ne by done. rewrite Hid, Hty, Htg. simpl.
  rewrite lookup_insert_eq.
  eexists. split; [reflexivity|].
  unfold made_from. simpl. rewrite Hid, Hty, Htg. done.
Qed.

Lemma File_init_incomplete (k : string) (x : gmap string string) :
  ¬ complete_record (k, x) →
  ∃ key, key ∈ ["Id"; "Type"; "Target"]
         ∧ x !! key = None
         ∧ File_init (<["dir" := Posixpath.dirname k]> x) = Raise (KeyError key).
Proof.
  intros Hnot. unfold complete_record in Hnot. simpl in Hnot.
  unfold File_init, getitem.
  rewrite !lookup_insert_ne by done.
  destruct (x !! "Id") as [id|] eqn:Hid; simpl.
  2:{ exists "Id". split; [set_solver|]. done. }
  destruct (x !! "Type") as [ty|] eqn:Hty; simpl.
  2:{ exists "Type". split; [set_solver|]. done. }
  destruct (x !! "Target") as [tg|] eqn:Htg; simpl.
  2:{ exists "Target". split; [set_solver|]. done. }
  destruct Hnot. split_and!; eauto.
Qed.

Lemma files_of_rels_complete (k : string) (v : list (gmap string string)) :
  Forall complete_record ((λ x, (k, x)) <$> v) →
  ∃ fs, files_of_rels k v = Ok fs
        ∧ Forall2 made_from ((λ x, (k, x)) <$> v) fs.
Proof.
  unfold files_of_rels.
  induction v as [|x v IH]; simpl; intros Hall.
  { exists []. split; [done|]. constructor. }
  apply Forall_cons in Hall as [Hx Hv].
  destruct (File_init_complete k x Hx) as (f & -> & Hf).
  destruct (IH Hv) as (fs & -> & Hfs). simpl.
  exists (f :: fs). split; [done|]. by constructor.
Qed.

Lemma files_of_rels_incomplete (k : string) (v : list (gmap string string)) :
  ¬ Forall complete_record ((λ x, (k, x)) <$> v) →
  ∃ key, key ∈ ["Id"; "Type"; "Target"]
         ∧ files_of_rels k v = Raise (KeyError key).
Proof.
  unfold files_of_rels.
  induction v as [|x v IH]; simpl; intros Hnot.
  { destruct Hnot. constructor. }
  destruct (decide (complete_record (k, x))) as [Hx|Hx].
  - destruct (File_init_complete k x Hx) as (f & -> & Hf). simpl.
    destruct IH as (key & Hkey & ->).
    { intros Hv. apply Hnot. by constructor. }
    by exists key.
  - destruct (File_init_incomplete k x Hx) as (key & Hkey & _ & ->).
    by exists key.
Qed.

Lemma files_loop_complete (rels : list (string * list (gmap string string)))
    (acc : list File) :
  Forall complete_record (records rels) →
  ∃ fs, files_loop rels acc = Ok (acc ++ fs)
        ∧ Forall2 made_from (records rels) fs.
Proof.
  revert acc. unfold records.
  induction rels as [|[k v] rels IH]; simpl; intros acc Hall.
  { exists []. split; [by rewrite app_nil_r|]. constructor. }
  apply Forall_app in Hall as [Hv Hrest].
  destruct (files_of_rels_complete k v Hv) as (fs & -> & Hfs). simpl.
  destruct (IH (acc ++ fs) Hrest) as (fs' & -> & Hfs').
  exists (fs ++ fs'). split; [by rewrite app_assoc|].
  by apply Forall2_app.
Qed.

Lemma files_loop_incomplete (rels : list (string * list (gmap string string)))
    (acc : list File) :
  ¬ Forall complete_record (records rels) →
  ∃ key, key ∈ ["Id"; "Type"; "Target"]
         ∧ files_loop rels acc = Raise (KeyError key).
Proof.
  revert acc. unfold records.
  induction rels as [|[k v] rels IH]; simpl; intros acc Hnot.
  { destruct Hnot. constructor. }
  destruct (decide (Forall complete_record ((λ x, (k, x)) <$> v))) as [Hv|Hv].
  - destruct (files_of_rels_complete k v Hv) as (fs & -> & Hfs). simpl.
    apply IH. intros Hrest. apply Hnot. apply Forall_app. done.
  - destruct (files_of_rels_incomplete k v Hv) as (key & Hkey & ->).
    by exists key.
Qed.

Section part_list.
Context `{Collaborators}.

(** X11. The first [files] makes one part per relationship record,
    in the order of [collect_rels] and of each rels file: the part
    has the record's [Id] and [Target], the last path component of
    its [Type], the directory of the rels file as [dir], and empty
    caches.  The references returned are the positions of the list,
    which is kept for later calls. *)
Theorem files_one_part_per_record (w : World) (z : nat) (zf : ZipFile)
    (rels : list (string * list (gmap string string))) :
  __zipf (reader w) = Some z →
  zipfiles w !! z = Some zf →
  __files (reader w) = None →
  collect_rels zf = Ok rels →
  Forall complete_record (records rels) →
  ∃ fs w',
    files w = (Ok (seq 0 (length fs)), w')
    ∧ __files (reader w') = Some fs
    ∧ Forall2 made_from (records rels) fs
    ∧ files w' = (Ok (seq 0 (length fs)), w').
Proof.
  intros Hz Hzf Hnone Hrels Hall.
  destruct (files_loop_complete rels [] Hall) as (fs & Hloop & Hmade).
  simpl in Hloop.
  exists fs. eexists. split; [|split; [|split]].
  - unfold files. unfold bind at 1. simpl. rewrite Hnone.
    erewrite bind_Ok by (by apply zipf_cached).
    unfold Zip.deref. unfold bind at 1. simpl. rewrite Hzf. simpl.
    unfold bind at 1. simpl.
    unfold bind at 1. unfold lift at 1. rewrite Hrels.
    unfold bind at 1. unfold lift at 1. rewrite Hloop.
    reflexivity.
  - done.
  - done.
  - unfold files, bind, get_reader. done.
Qed.

(** X12. A relationship record without [Id], [Type] or [Target]
    makes the first [files] raise [KeyError] for one of these keys;
    no part list is kept, not even the parts made before. *)
Theorem files_incomplete_record (w : World) (z : nat) (zf : ZipFile)
    (rels : list (string * list (gmap string string))) :
  __zipf (reader w) = Some z →
  zipfiles w !! z = Some zf →
  __files (reader w) = None →
  collect_rels zf = Ok rels →
  ¬ Forall complete_record (records rels) →
  ∃ key w',
    key ∈ ["Id"; "Type"; "Target"]
    ∧ files w = (Raise (KeyError key), w')
    ∧ __files (reader w') = None.
Proof.
  intros Hz Hzf Hnone Hrels Hnot.
  destruct (files_loop_incomplete rels [] Hnot) as (key & Hkey & Hloop).
  exists key. eexists. split; [done|]. split.
  - unfold files. unfold bind at 1. simpl. rewrite Hnone.
    erewrite bind_Ok by (by apply zipf_cached).
    unfold Zip.deref. unfold bind at 1. simpl. rewrite Hzf. simpl.
    unfold bind at 1. simpl.
    unfold bind at 1. unfold lift at 1. rewrite Hrels.
    unfold bind at 1. unfold lift at 1. rewrite Hloop.
    reflexivity.
  - done.
Qed.

End part_list.

(** ** Stability of the sort *)

Section stable_facts.
Context {A : Type} (key : A → string) (before : relation A).

Lemma insert_by_stable (x : A) (l : list A) :
  Forall (before x) l →
  StronglySorted (λ a b, Py.le_key key a b ∧ (key a = key b → before a b)) l →
  StronglySorted (λ a b, Py.le_key key a b ∧ (key a = key b → before a b))
    (Py.insert_by key x l).
Proof.
  intros Hx Hl. induction Hl as [|y l Hl IH Hy]; simpl.
  { repeat constructor. }
  apply Forall_cons in Hx as [Hxy Hxl].
  destruct (String.leb (key x) (key y)) eqn:Hle.
  - apply Is_true_true in Hle.
    constructor; [by constructor|].
    constructor; [done|].
    rewrite Forall_forall in Hy, Hxl. apply Forall_forall. intros z Hz.
    split; [|intros _; by apply Hxl].
    destruct (Hy z Hz) as [Hyz _]. unfold Py.le_key in *. by etrans.
  - constructor; [by apply IH|].
    rewrite insert_by_Permutation. constructor; [|done].
    split.
    + apply not_le_key_le. unfold Py.le_key, String.le.
      rewrite Hle. by intros [].
    + intros Heq. rewrite Heq in Hle.
      assert (String.le (key x) (key x)) as Hrefl by reflexivity.
      unfold String.le in Hrefl. rewrite Hle in Hrefl. by destruct Hrefl.
Qed.

(** [sorted] is stable: elements with equal keys keep the order they
    had in the input. *)
Lemma sorted_keeps_order (l : list A) :
  StronglySorted before l →
  StronglySorted (λ a b, Py.le_key key a b ∧ (key a = key b → before a b))
    (Py.sorted key l).
Proof.
  induction 1 as [|x l Hl IH Hx]; simpl; [constructor|].
  apply insert_by_stable; [|done].
  by rewrite sorted_Permutation.
Qed.

End stable_facts.

Lemma sorted_refs_stable (type_ : option string) (fs : list File) :
  StronglySorted (λ i j, String.le (path_at fs i) (path_at fs j)
                         ∧ (path_at fs i = path_at fs j → i < j))
    (sorted_refs type_ fs).
Proof.
  unfold sorted_refs.
  set (keyed := (λ i, (path_at fs i, i)) <$> matching (types_of type_) fs).
  assert (Forall (λ x, fst x = path_at fs (snd x)) (Py.sorted fst keyed)) as Hkeys.
  { rewrite sorted_Permutation. unfold keyed.
    apply Forall_fmap, Forall_forall. done. }
  assert (StronglySorted (λ x y : string * nat, snd x < snd y) keyed) as Hin.
  { unfold keyed.
    apply (StronglySorted_fmap _ lt); [done|apply matching_increasing]. }
  pose proof (sorted_keeps_order fst _ keyed Hin) as Hsorted.
  induction Hsorted as [|x l Hl IH Hx]; simpl; [constructor|].
  apply Forall_cons in Hkeys as [Hkx Hkl].
  constructor; [by apply IH|].
  apply Forall_fmap, Forall_forall. intros y Hy. simpl.
  rewrite Forall_forall in Hx, Hkl.
  rewrite <-Hkx, <-(Hkl y Hy). by apply (Hx y).
Qed.

Lemma cache_path_idemp (f : File) : cache_path (cache_path f) = cache_path f.
Proof. by destruct f. Qed.

Lemma cache_paths_lookup (l : list nat) (fs : list File) (i : nat) :
  cache_paths l fs !! i
  = (if bool_decide (i ∈ l) then cache_path else id) <$> fs !! i.
Proof.
  revert fs. induction l as [|j l IH]; intros fs.
  { simpl. by destruct (fs !! i). }
  rewrite cache_paths_cons, IH.
  destruct (decide (j = i)) as [->|Hne].
  - rewrite list_lookup_alter_eq.
    rewrite (bool_decide_true (i ∈ i :: l)) by set_solver.
    destruct (fs !! i) as [f|]; simpl; [|done].
    destruct (bool_decide (i ∈ l)); simpl; [|done].
    by rewrite cache_path_idemp.
  - rewrite list_lookup_alter_ne by done.
    destruct (bool_decide (i ∈ l)) eqn:Hil.
    + apply bool_decide_eq_true in Hil.
      by rewrite (bool_decide_true (i ∈ j :: l)) by set_solver.
    + apply bool_decide_eq_false in Hil.
      rewrite (bool_decide_false (i ∈ j :: l)); [done|].
      intros [->|Hin]%elem_of_cons; done.
Qed.

Section selection.
Context `{Collaborators}.

(** X13. With the part list there, [files_of_type(t)] returns the
    parts of type [t], each once, in ascending order of path and,
    among parts with one path, in the order of the part list.  It
    reads nothing from the archive; all it changes is that the paths
    of the parts of type [t] are cached. *)
Theorem files_of_type_stable (w : World) (fs : list File) (t : string) :
  __files (reader w) = Some fs →
  ∃ l w',
    files_of_type (Some t) w = (Ok l, w')
    ∧ (∀ i, i ∈ l ↔ ∃ f, fs !! i = Some f ∧ Type_ f = t)
    ∧ NoDup l
    ∧ StronglySorted (λ i j, String.le (path_at fs i) (path_at fs j)
                             ∧ (path_at fs i = path_at fs j → i < j)) l
    ∧ (∀ i f, fs !! i = Some f →
         file_at w' i = Some (if bool_decide (Type_ f = t) then cache_path f else f))
    ∧ calls w' = calls w ∧ zipfiles w' = zipfiles w ∧ disk w' = disk w
    ∧ warnings w' = warnings w.
Proof.
  intros Hfs.
  eexists _, _. split.
  { eapply files_of_type_run; [by apply files_hit|done]. }
  split_and!; try done.
  - intros i. rewrite sorted_refs_Permutation, elem_of_matching. simpl.
    by setoid_rewrite elem_of_singleton.
  - rewrite sorted_refs_Permutation. apply NoDup_matching.
  - apply sorted_refs_stable.
  - intros i f Hi. unfold file_at. simpl.
    rewrite cache_paths_lookup, Hi. simpl. f_equal.
    destruct (bool_decide (Type_ f = t)) eqn:Hty.
    + apply bool_decide_eq_true in Hty.
      rewrite bool_decide_true; [done|].
      apply elem_of_matching. exists f. split; [done|]. by apply elem_of_singleton.
    + apply bool_decide_eq_false in Hty.
      rewrite bool_decide_false; [done|].
      intros (f' & Hf' & Hty')%elem_of_matching.
      apply elem_of_singleton in Hty'. congruence.
Qed.

(** X14. With the part list there and no part of type [t] in it,
    [file_of_type(t)] raises [KeyError]; the message has the type in
    it and then the second literal as it stands in the source.  The
    reader and the rest of the state are as before, and no warning is
    issued. *)
Theorem file_of_type_no_part (w : World) (fs : list File) (t : string) :
  __files (reader w) = Some fs →
  (∀ i f, fs !! i = Some f → Type_ f ≠ t) →
  file_of_type t w
  = (Raise (KeyError ("There is no item of type '" +:+ t +:+ "' "
                      +:+ "in the {self.docx_filename} archive")), w).
Proof.
  intros Hfs Hnone.
  assert (matching {[ t ]} fs = []) as Hm.
  { apply elem_of_nil_inv. intros i (f & Hf & Hty)%elem_of_matching.
    apply elem_of_singleton in Hty. by eapply Hnone. }
  assert (files_of_type (Some t) w = (Ok [], w)) as Hrun.
  { erewrite files_of_type_run; [|by apply files_hit|done].
    unfold sorted_refs. simpl. rewrite Hm. simpl.
    by rewrite set_files_id. }
  unfold file_of_type, bind. rewrite Hrun. simpl.
  unfold ret, try_except, lift. simpl.
  by rewrite <-!str_app_assoc.
Qed.

End selection.

(** ** Where the images are written *)

Lemma written_other (key : string → string) (l : list (string * bytes))
    (dk : gmap string DiskFile) (k : string) :
  (∀ name data, (name, data) ∈ l → key name ≠ k) →
  foldl (λ dk '(file, image_bytes), <[key file := Plain image_bytes]> dk) dk l !! k
  = dk !! k.
Proof.
  revert dk. induction l as [|[name data] l IH]; intros dk Hk; simpl; [done|].
  rewrite IH.
  - rewrite lookup_insert_ne; [done|]. eapply Hk. by left.
  - intros name' data' Hin. eapply Hk. by right.
Qed.

Lemma written_there (key : string → string) (l : list (string * bytes))
    (dk : gmap string DiskFile) (name : string) (data : bytes) :
  NoDup (key <$> l.*1) → (name, data) ∈ l →
  foldl (λ dk '(file, image_bytes), <[key file := Plain image_bytes]> dk) dk l
    !! key name
  = Some (Plain data).
Proof.
  revert dk. induction l as [|[name' data'] l IH]; intros dk Hnd Hin; simpl.
  { by apply elem_of_nil in Hin. }
  simpl in Hnd. apply NoDup_cons in Hnd as [Hfresh Hnd].
  apply elem_of_cons in Hin as [[= <- <-]|Hin].
  - rewrite written_other; [by rewrite lookup_insert_eq|].
    intros name' data' Hin' Heq. apply Hfresh.
    rewrite <-Heq. apply list_elem_of_fmap. exists name'. split; [done|].
    apply list_elem_of_fmap. by exists (name', data').
  - by apply IH.
Qed.

Section image_files.
Context `{Collaborators}.

(** X15. What [pull_image_files] does to the disk, on a readable
    archive with the part list there.  Without [image_directory]
    nothing is written.  With it, when the system lets the directory
    be made and each image file be created, and images with different
    names are different files: the call returns, the file
    [join(image_directory, name)] of each image of the mapping
    returned holds its bytes, and every other file is left as it
    was. *)
Theorem pull_image_files_written (w : World) (ms : list member) (fs : list File)
    (image_directory : option string) :
  readable w ms → __files (reader w) = Some fs →
  writes_allowed (disk w) image_directory
    (images_of ms fs (sorted_refs (Some "image") fs) ∅) →
  (∀ d, image_directory = Some d →
        distinct_files d (images_of ms fs (sorted_refs (Some "image") fs) ∅)) →
  ∃ w',
    pull_image_files image_directory w
    = (Ok (images_of ms fs (sorted_refs (Some "image") fs) ∅), w')
    ∧ match image_directory with
      | None => disk w' = disk w
      | Some d =>
          (∀ name data,
             images_of ms fs (sorted_refs (Some "image") fs) ∅ !! name = Some data →
             disk w' !! realpath (Posixpath.join d name) = Some (Plain data))
          ∧ (∀ k,
               (∀ name,
                  is_Some (images_of ms fs (sorted_refs (Some "image") fs) ∅ !! name) →
                  realpath (Posixpath.join d name) ≠ k) →
               disk w' !! k = disk w !! k)
      end.
Proof.
  intros Hr Hfs Hallowed Hdistinct.
  set (fs1 := cache_paths (matching (types_of (Some "image")) fs) fs).
  destruct (pull_loop_run (sorted_refs (Some "image") fs)
              (set_files w fs1) ms fs1 ∅) as (w2 & Hloop & _ & Hd2).
  { done. }
  { done. }
  { apply Forall_forall. intros i Hi.
    rewrite sorted_refs_Permutation in Hi.
    apply elem_of_matching in Hi as (f & Hf & _).
    unfold fs1. rewrite cache_paths_length. by eapply lookup_lt_Some. }
  rewrite (images_of_ext ms fs fs1) in Hloop; last first.
  { intros j. apply target_at_cache_paths. }
  { intros j. apply path_at_cache_paths. }
  simpl in Hd2.
  set (images := images_of ms fs (sorted_refs (Some "image") fs) ∅) in *.
  unfold pull_image_files.
  erewrite bind_Ok; last first.
  { eapply files_of_type_run; [by apply files_hit|done]. }
  erewrite bind_Ok by exact Hloop.
  destruct image_directory as [d|].
  - destruct Hallowed as [Hdir Hfiles].
    destruct (write_images_run d (λ name, is_Some (images !! name))
                (disk w) (map_to_list images) w2) as (w3 & Hwrite & Hd3).
    { exact Hfiles. }
    { intros name data Hin%elem_of_map_to_list. by eexists. }
    { intros k _. by rewrite Hd2. }
    exists w3. split.
    { erewrite bind_Ok; [reflexivity|].
      erewrite bind_Ok; [exact Hwrite|].
      unfold mkdir, bind, get_world. by rewrite Hd2, Hdir. }
    rewrite Hd3, Hd2. split.
    + intros name data Hname.
      apply (written_there (λ name, realpath (Posixpath.join d name))).
      * apply NoDup_fmap_2_strong; [|apply NoDup_fst_map_to_list].
        intros a b Ha Hb. apply (Hdistinct d eq_refl).
        -- apply list_elem_of_fmap in Ha as ([a' da] & -> & Ha).
           apply elem_of_map_to_list in Ha. by eexists.
        -- apply list_elem_of_fmap in Hb as ([b' db] & -> & Hb).
           apply elem_of_map_to_list in Hb. by eexists.
      * by apply elem_of_map_to_list.
    + intros k Hk.
      apply (written_other (λ name, realpath (Posixpath.join d name))).
      intros name data Hin%elem_of_map_to_list. apply Hk. by eexists.
  - exists w2. split; [done|]. done.
Qed.

(** X25. [pull_image_files] with an [image_directory] that is a
    regular file (the document itself, say), on a readable archive
    with the part list there: the images are read, then making the
    directory raises [FileExistsError]; nothing is written. *)
Theorem pull_image_files_directory_is_file (w : World) (ms : list member)
    (fs : list File) (d : string) :
  readable w ms → __files (reader w) = Some fs →
  is_Some (disk w !! realpath d) →
  ∃ w',
    pull_image_files (Some d) w = (Raise (OSError "FileExistsError"), w')
    ∧ disk w' = disk w.
Proof.
  intros Hr Hfs [x Hx].
  set (fs1 := cache_paths (matching (types_of (Some "image")) fs) fs).
  destruct (pull_loop_run (sorted_refs (Some "image") fs)
              (set_files w fs1) ms fs1 ∅) as (w2 & Hloop & _ & Hd2).
  { done. }
  { done. }
  { apply Forall_forall. intros i Hi.
    rewrite sorted_refs_Permutation in Hi.
    apply elem_of_matching in Hi as (f & Hf & _).
    unfold fs1. rewrite cache_paths_length. by eapply lookup_lt_Some. }
  simpl in Hd2.
  exists w2. split; [|done].
  unfold pull_image_files.
  erewrite bind_Ok; last first.
  { eapply files_of_type_run; [by apply files_hit|done]. }
  erewrite bind_Ok by exact Hloop.
  erewrite bind_Raise; [reflexivity|].
  erewrite bind_Raise; [reflexivity|].
  unfold mkdir, bind, get_world, mkdir_refused. by rewrite Hd2, Hx.
Qed.

End image_files.

(** ** Copying and saving *)

Section copying.
Context `{Collaborators}.

(** X16. [_copy_but] from an open archive, whose file is intact and
    whose members have distinct names, into an archive open for
    writing on another file: the destination gets, after what it
    already holds, the members of the source whose name is not
    excluded, unchanged and in the order of the source; with no
    exclusions given that is every member.  The file of the
    destination is written, that of the source is left as it was, and
    both archives are closed. *)
Theorem copy_but_copies_and_closes (w : World) (in_zip out_zip : nat)
    (zin zout : ZipFile) (exclusions : option (gset string)) :
  in_zip ≠ out_zip →
  zipfiles w !! in_zip = Some zin → fp zin = true → mode zin = mode_r →
  intact (disk w) zin →
  zipfiles w !! out_zip = Some zout → fp zout = true → mode zout = mode_w →
  zip_name zin ≠ zip_name zout →
  NoDup ((λ m, filename (fst m)) <$> filelist zin) →
  ∃ w',
    _copy_but in_zip out_zip exclusions w = (Ok tt, w')
    ∧ disk w'
      = <[zip_name zout :=
            Archive (filelist zout
                     ++ List.filter
                          (λ m, bool_decide (filename (fst m) ∉ default ∅ exclusions))
                          (filelist zin))]>
          (disk w)
    ∧ (exclusions = None →
       disk w' = <[zip_name zout := Archive (filelist zout ++ filelist zin)]> (disk w))
    ∧ intact (disk w') zin
    ∧ (fp <$> zipfiles w' !! in_zip) = Some false
    ∧ (fp <$> zipfiles w' !! out_zip) = Some false.
Proof.
  intros Hne Hin Hfpin Hmin Hint Hout Hfpout Hmout Hother Hnodup.
  destruct (copy_but_run w in_zip out_zip zin zout exclusions)
    as (w' & Hrun & Hd & Hcin & Hcout & _); [done..|].
  rewrite copied_NoDup in Hd by done.
  exists w'. split_and!; try done.
  - intros ->. rewrite Hd. simpl. do 3 f_equal.
    clear. induction (filelist zin) as [|m l IH]; simpl; [done|].
    rewrite bool_decide_true by set_solver. by rewrite IH.
  - unfold intact. rewrite Hd. by rewrite lookup_insert_ne.
Qed.

(** X17. [_copy_but] from an archive that has been closed, with a
    member to copy: the read of the first member that is not excluded
    raises [ValueError]; nothing is written to the destination, and
    the destination is not closed. *)
Theorem copy_but_closed_source (w : World) (in_zip out_zip : nat)
    (zin zout : ZipFile) (exclusions : option (gset string)) :
  zipfiles w !! in_zip = Some zin → fp zin = false →
  zipfiles w !! out_zip = Some zout →
  (∃ m, m ∈ filelist zin ∧ filename (fst m) ∉ default ∅ exclusions) →
  ∃ w',
    _copy_but in_zip out_zip exclusions w
    = (Raise (ValueError "Attempt to use ZIP archive that was already closed"), w')
    ∧ zipfiles w' = zipfiles w
    ∧ disk w' = disk w.
Proof.
  intros Hin Hfp Hout Hsome.
  unfold _copy_but.
  erewrite bind_Ok; last first.
  { unfold Zip.infolist. erewrite bind_Ok; [reflexivity|].
    unfold Zip.deref. by rewrite Hin. }
  assert (∃ w',
            for_each (fst <$> filelist zin)
              (λ item,
                 if bool_decide (filename item ∉ default ∅ exclusions) then
                   bind (Zip.read in_zip (filename item))
                     (λ buffer, Zip.writestr out_zip (inl item) buffer)
                 else ret tt) w
            = (Raise (ValueError "Attempt to use ZIP archive that was already closed"),
               w')
            ∧ zipfiles w' = zipfiles w ∧ disk w' = disk w)
    as (w' & Hloop & Hz & Hd).
  { revert w Hin Hout. induction (filelist zin) as [|m l IH]; intros w Hin Hout.
    { destruct Hsome as (m & Hm & _). by apply elem_of_nil in Hm. }
    rewrite fmap_cons.
    change (for_each (fst m :: ?items) ?body)
      with (bind (body (fst m)) (λ _, for_each items body)).
    cbv beta.
    destruct (bool_decide (filename (fst m) ∉ default ∅ exclusions)) eqn:Hex.
    - eexists. split.
      + erewrite bind_Raise; last first.
        { erewrite bind_Raise; last first.
          { by eapply Zip_read_closed. }
          reflexivity. }
        reflexivity.
      + done.
    - apply bool_decide_eq_false in Hex.
      destruct IH with (w := w) as (w' & Hloop & Hrest); [|done|done|].
      { destruct Hsome as (m' & [->|Hm']%elem_of_cons & Hnot); [done|eauto]. }
      exists w'. split; [|done].
      erewrite bind_Ok; [exact Hloop|]. done. }
  exists w'. split; [|done].
  by erewrite bind_Raise.
Qed.

(** X18. [save] with the part list there and the archive open, its
    file intact and its members of distinct names, to a destination
    that is another file than that of the archive (whatever the
    spelling of its path) and that the system lets it create.
    Whether it returns or raises, the destination is an archive of
    exactly the members that are not content parts, unchanged; the
    content parts are not in it; every other file, that of the
    archive among them, is left as it was; and the reader's own
    archive is closed afterwards.  It returns if and only if no part
    has a content type. *)
Theorem save_copies_and_closes (w : World) (fs : list File) (z : nat)
    (zin : ZipFile) (filename_ : string) :
  __files (reader w) = Some fs →
  __zipf (reader w) = Some z → zipfiles w !! z = Some zin →
  fp zin = true → mode zin = mode_r → intact (disk w) zin →
  realpath filename_ ≠ zip_name zin →
  create_refused (disk w) filename_ = None →
  NoDup ((λ m, filename (fst m)) <$> filelist zin) →
  ∃ r w',
    save filename_ w = (r, w')
    ∧ disk w' !! realpath filename_
      = Some (Archive (List.filter
                         (λ m, bool_decide (filename (fst m) ∉ content_paths fs))
                         (filelist zin)))
    ∧ (∀ k, k ≠ realpath filename_ → disk w' !! k = disk w !! k)
    ∧ intact (disk w') zin
    ∧ (fp <$> zipfiles w' !! z) = Some false
    ∧ (r = Ok tt ↔ ∀ i f, fs !! i = Some f → Type_ f ∉ CONTENT_FILE_TYPES).
Proof.
  intros Hfs Hz Hzin Hfp Hmode Hint Hother Hcreate Hnodup.
  destruct (save_run w w (seq 0 (length fs)) fs z zin filename_)
    as (r & w' & Hrun & Hd & Hc & Hr); [by apply files_hit|done..|].
  rewrite copied_NoDup in Hd by done.
  exists r, w'. split_and!; try done.
  - by rewrite Hd, lookup_insert_eq.
  - intros p Hp. by rewrite Hd, lookup_insert_ne.
  - unfold intact. rewrite Hd. by rewrite lookup_insert_ne.
  - rewrite Hr. split.
    + intros Hm i f Hi Hty.
      assert (i ∈ matching CONTENT_FILE_TYPES fs) as Hin.
      { apply elem_of_matching. eauto. }
      rewrite Hm in Hin. by apply elem_of_nil in Hin.
    + intros Hnone. apply elem_of_nil_inv.
      intros i (f & Hf & Hty)%elem_of_matching. by eapply Hnone.
Qed.

End copying.

(** ** Check boxes and drop-down lists *)

Section checkBox_facts.
Variable qn : string → string.

Lemma get_wval_checked (checkBox c : Element) (rest : list Element) :
  Forms.findall checkBox (qn "w:checked") = c :: rest →
  Forms.get_wval qn checkBox
  = Forms.Returns (Some (Forms.or_ (Element_attrib c !! qn "w:val") "1")).
Proof. intros Hc. unfold Forms.get_wval. by rewrite Hc. Qed.

Lemma get_wval_default (checkBox : Element) :
  Forms.findall checkBox (qn "w:checked") = [] →
  Forms.get_wval qn checkBox = Forms.Returns (Forms.first_val qn checkBox "w:default").
Proof.
  intros Hc. unfold Forms.get_wval, Forms.first_val. rewrite Hc. simpl.
  destruct (Forms.findall checkBox (qn "w:default")) as [|d rest]; simpl; [done|].
  unfold Forms.attrib_item, getitem.
  by destruct (Element_attrib d !! qn "w:val").
Qed.

Lemma dict_item_other (v : string) :
  v ≠ "0" → v ≠ "1" →
  Forms.dict_item [(Some "0", Forms.unchecked_box); (Some "1", Forms.checked_box);
                   (None, "----checkbox failed----")] (Some v)
  = Forms.Raises (Forms.Exn (KeyError v)).
Proof.
  intros H0 H1. unfold Forms.dict_item. simpl.
  rewrite (bool_decide_false (Some "0" = Some v)) by congruence.
  rewrite (bool_decide_false (Some "1" = Some v)) by congruence.
  done.
Qed.

(** X19. A check box with a [w:checked] child: the first such child
    decides, and [w:default] is not looked at.  Its [w:val] "0"
    gives the open box; "1", the empty string or no [w:val] at all
    give the crossed-out box; any other value makes the look-up in
    the table of texts raise [KeyError] with that value. *)
Theorem checkBox_checked_decides (checkBox c : Element) (rest : list Element) :
  Forms.findall checkBox (qn "w:checked") = c :: rest →
  Forms.get_checkBox_entry qn checkBox
  = match Element_attrib c !! qn "w:val" with
    | None => Forms.Returns Forms.checked_box
    | Some v =>
        if bool_decide (v = "0") then Forms.Returns Forms.unchecked_box
        else if bool_decide (v = "1" ∨ v = "") then Forms.Returns Forms.checked_box
        else Forms.Raises (Forms.Exn (KeyError v))
    end.
Proof.
  intros Hc. unfold Forms.get_checkBox_entry.
  rewrite (get_wval_checked checkBox c rest Hc). simpl.
  destruct (Element_attrib c !! qn "w:val") as [v|]; [|done]. simpl.
  destruct (decide (v = "0")) as [->|H0]; [done|].
  rewrite (bool_decide_false (v = "0")) by done.
  destruct (decide (v = "1")) as [->|H1]; [done|].
  destruct (decide (v = "")) as [->|He]; [done|].
  rewrite (bool_decide_false (v = "1" ∨ v = "")) by tauto.
  destruct v as [|a v]; [done|]. simpl.
  by apply dict_item_other.
Qed.

(** X20. A check box without a [w:checked] child: the first
    [w:default] child decides.  Its [w:val] "0" gives the open box
    and "1" the crossed-out box; with no [w:default] child, or none
    with a [w:val], the text is [----checkbox failed----]; any other
    value, the empty string among them, raises [KeyError] with that
    value. *)
Theorem checkBox_default_decides (checkBox : Element) :
  Forms.findall checkBox (qn "w:checked") = [] →
  Forms.get_checkBox_entry qn checkBox
  = match Forms.first_val qn checkBox "w:default" with
    | None => Forms.Returns "----checkbox failed----"
    | Some v =>
        if bool_decide (v = "0") then Forms.Returns Forms.unchecked_box
        else if bool_decide (v = "1") then Forms.Returns Forms.checked_box
        else Forms.Raises (Forms.Exn (KeyError v))
    end.
Proof.
  intros Hc. unfold Forms.get_checkBox_entry.
  rewrite (get_wval_default checkBox Hc). simpl.
  destruct (Forms.first_val qn checkBox "w:default") as [v|]; [|done].
  destruct (decide (v = "0")) as [->|H0]; [done|].
  rewrite (bool_decide_false (v = "0")) by done.
  destruct (decide (v = "1")) as [->|H1]; [done|].
  rewrite (bool_decide_false (v = "1")) by done.
  by apply dict_item_other.
Qed.

(** X21. Whatever the element, [get_checkBox_entry] returns one of
    its three texts or raises [KeyError] with a string other than "0"
    and "1"; [StopIteration] never leaves it. *)
Theorem checkBox_entry_outcomes (checkBox : Element) :
  (∃ text, Forms.get_checkBox_entry qn checkBox = Forms.Returns text
           ∧ text ∈ [Forms.unchecked_box; Forms.checked_box;
                     "----checkbox failed----"])
  ∨ (∃ v, Forms.get_checkBox_entry qn checkBox
          = Forms.Raises (Forms.Exn (KeyError v))
          ∧ v ≠ "0" ∧ v ≠ "1").
Proof.
  assert (∃ wval, Forms.get_wval qn checkBox = Forms.Returns wval) as [wval Hw].
  { destruct (Forms.findall checkBox (qn "w:checked")) as [|c rest] eqn:Hc.
    - rewrite get_wval_default by done. eauto.
    - erewrite get_wval_checked by done. eauto. }
  unfold Forms.get_checkBox_entry. rewrite Hw. simpl.
  destruct wval as [v|].
  - destruct (decide (v = "0")) as [->|H0].
    { left. eexists. split; [reflexivity|]. set_solver. }
    destruct (decide (v = "1")) as [->|H1].
    { left. eexists. split; [reflexivity|]. set_solver. }
    right. exists v. by rewrite dict_item_other.
  - left. eexists. split; [reflexivity|]. set_solver.
Qed.

End checkBox_facts.

Lemma list_item_inside {A} (l : list A) (n : Z) (x : A) :
  (0 ≤ n)%Z → l !! Z.to_nat n = Some x → Forms.list_item l n = Forms.Returns x.
Proof.
  intros Hn Hx. unfold Forms.list_item.
  apply lookup_lt_Some in Hx as Hlt.
  destruct (Z.ltb_spec n 0); [lia|].
  destruct (Z.ltb_spec n 0); [lia|].
  destruct (Z.leb_spec (Z.of_nat (length l)) n); [lia|]. simpl.
  by rewrite Hx.
Qed.

Lemma list_item_from_end {A} (l : list A) (n : Z) (x : A) :
  (n < 0)%Z → (0 ≤ n + Z.of_nat (length l))%Z →
  l !! Z.to_nat (n + Z.of_nat (length l)) = Some x →
  Forms.list_item l n = Forms.Returns x.
Proof.
  intros Hn Hlow Hx. unfold Forms.list_item.
  apply lookup_lt_Some in Hx as Hlt.
  destruct (Z.ltb_spec n 0); [|lia].
  destruct (Z.ltb_spec (n + Z.of_nat (length l)) 0); [lia|].
  destruct (Z.leb_spec (Z.of_nat (length l)) (n + Z.of_nat (length l))); [lia|].
  simpl. by rewrite Hx.
Qed.

Lemma list_item_outside {A} (l : list A) (n : Z) :
  (n < - Z.of_nat (length l) ∨ Z.of_nat (length l) ≤ n)%Z →
  Forms.list_item l n = Forms.Raises (Forms.Exn (IndexError "list index out of range")).
Proof.
  intros Hn. unfold Forms.list_item.
  destruct (Z.ltb_spec n 0).
  - destruct (Z.ltb_spec (n + Z.of_nat (length l)) 0); [done|lia].
  - destruct (Z.ltb_spec n 0); [lia|].
    destruct (Z.leb_spec (Z.of_nat (length l)) n); [done|lia].
Qed.

Section ddList_facts.
Variable qn : string → string.
Variable int : string → result Z.

(** X22. A drop-down list without a [w:result] child, or whose first
    [w:result] child has no [w:val]: the first entry is the selected
    one, [int] is not called, and the text is the [w:val] of the first
    [w:listEntry] child, or [None] as a string when that child has no
    [w:val].  Without any entry, [IndexError] is raised. *)
Theorem ddList_first_entry_by_default (ddList : Element) :
  Forms.first_val qn ddList "w:result" = None →
  Forms.get_ddList_entry qn int ddList
  = match Forms.findall ddList (qn "w:listEntry") with
    | [] => Forms.Raises (Forms.Exn (IndexError "list index out of range"))
    | entry :: _ => Forms.Returns (default "None" (Element_attrib entry !! qn "w:val"))
    end.
Proof.
  unfold Forms.first_val, Forms.get_ddList_entry. intros Hnone.
  assert (Forms.except_
            (Forms.and_then (Forms.next (Forms.findall ddList (qn "w:result")))
               (λ result,
                  Forms.and_then (Forms.attrib_item result (qn "w:val"))
                    (λ v, Forms.of_result (int v))))
            Forms.is_StopIteration_or_KeyError (Forms.Returns 0%Z)
          = Forms.Returns 0%Z) as ->.
  { destruct (Forms.findall ddList (qn "w:result")) as [|r rest]; [done|].
    simpl in *. unfold Forms.attrib_item, getitem. by rewrite Hnone. }
  simpl.
  destruct (Forms.findall ddList (qn "w:listEntry")) as [|entry rest]; done.
Qed.

(** X23. A drop-down list whose first [w:result] child has a [w:val]
    that [int] reads as [n]: with [0 <= n < len] the text is that of
    entry [n]; with [-len <= n < 0] it is that of entry [len + n],
    counted from the end; any other [n] raises [IndexError].  The
    text of an entry without [w:val] is [None] as a string. *)
Theorem ddList_selected_entry (ddList : Element) (v : string) (n : Z) :
  Forms.first_val qn ddList "w:result" = Some v →
  int v = Ok n →
  let entries := Forms.findall ddList (qn "w:listEntry") in
  let len := Z.of_nat (length entries) in
  Forms.get_ddList_entry qn int ddList
  = match entries !! Z.to_nat (if bool_decide (n < 0)%Z then len + n else n)%Z with
    | Some entry =>
        if bool_decide (- len ≤ n)%Z
        then Forms.Returns (default "None" (Element_attrib entry !! qn "w:val"))
        else Forms.Raises (Forms.Exn (IndexError "list index out of range"))
    | None => Forms.Raises (Forms.Exn (IndexError "list index out of range"))
    end.
Proof.
  intros Hv Hint entries len. unfold Forms.first_val in Hv.
  unfold Forms.get_ddList_entry.
  assert (Forms.except_
            (Forms.and_then (Forms.next (Forms.findall ddList (qn "w:result")))
               (λ result,
                  Forms.and_then (Forms.attrib_item result (qn "w:val"))
                    (λ v, Forms.of_result (int v))))
            Forms.is_StopIteration_or_KeyError (Forms.Returns 0%Z)
          = Forms.Returns n) as ->.
  { destruct (Forms.findall ddList (qn "w:result")) as [|r rest]; [done|].
    simpl in *. unfold Forms.attrib_item, getitem. rewrite Hv. simpl.
    by rewrite Hint. }
  simpl. fold entries.
  set (vals := (λ x, Element_attrib x !! qn "w:val") <$> entries).
  assert (length vals = length entries) as Hlen by apply length_fmap.
  destruct (bool_decide (n < 0)%Z) eqn:Hneg.
  - apply bool_decide_eq_true in Hneg.
    destruct (entries !! Z.to_nat (len + n)) as [entry|] eqn:Hentry.
    + destruct (bool_decide (- len ≤ n)%Z) eqn:Hlow.
      * apply bool_decide_eq_true in Hlow.
        rewrite (list_item_from_end vals n (Element_attrib entry !! qn "w:val")).
        -- done.
        -- done.
        -- rewrite Hlen. fold len. lia.
        -- rewrite Hlen. fold len. unfold vals.
           rewrite list_lookup_fmap.
           replace (n + len)%Z with (len + n)%Z by lia. by rewrite Hentry.
      * apply bool_decide_eq_false in Hlow.
        rewrite list_item_outside; [done|]. rewrite Hlen. fold len. lia.
    + apply lookup_ge_None in Hentry.
      rewrite list_item_outside; [done|]. rewrite Hlen. fold len. lia.
  - apply bool_decide_eq_false in Hneg.
    destruct (entries !! Z.to_nat n) as [entry|] eqn:Hentry.
    + rewrite bool_decide_true by lia.
      rewrite (list_item_inside vals n (Element_attrib entry !! qn "w:val")).
      * done.
      * lia.
      * unfold vals. by rewrite list_lookup_fmap, Hentry.
    + apply lookup_ge_None in Hentry.
      rewrite list_item_outside; [done|]. rewrite Hlen. fold len. lia.
Qed.

(** X24. When [int] cannot read the [w:val] of the first [w:result]
    child, what it raises leaves [get_ddList_entry], whatever the
    entries: only [StopIteration] and [KeyError] are handled there. *)
Theorem ddList_unreadable_index (ddList : Element) (v : string) (e : exn) :
  Forms.first_val qn ddList "w:result" = Some v →
  int v = Raise e → is_KeyError e = false →
  Forms.get_ddList_entry qn int ddList = Forms.Raises (Forms.Exn e).
Proof.
  unfold Forms.first_val, Forms.get_ddList_entry. intros Hv Hint Hkey.
  destruct (Forms.findall ddList (qn "w:result")) as [|r rest]; [done|].
  simpl in *. unfold Forms.attrib_item, getitem. rewrite Hv. simpl.
  rewrite Hint. simpl. by rewrite Hkey.
Qed.

End ddList_facts.

(** ** The further properties at work on the sample packages *)

Lemma rels_path_named_after_part_witness :
  ∃ p rp w1 w2,
    File_path 0 Sample.enumerated = (Ok p, w1)
    ∧ File__rels_path 0 Sample.enumerated = (Ok rp, w2)
    ∧ Posixpath.basename p = Posixpath.basename (Target Sample.document_part)
    ∧ rp = fst (Posixpath.split p) +:+ "/_rels/"
           +:+ Posixpath.basename (Target Sample.document_part) +:+ ".rels"
    ∧ Posixpath.basename rp
      = Posixpath.basename (Target Sample.document_part) +:+ ".rels"
    ∧ calls w2 = calls Sample.enumerated
    ∧ zipfiles w2 = zipfiles Sample.enumerated
    ∧ disk w2 = disk Sample.enumerated.
Proof.
  apply (rels_path_named_after_part Sample.enumerated Sample.enumerated_files 0
           Sample.document_part);
    vm_compute; reflexivity.
Defined.

Lemma File_rels_last_target_witness :
  let C := Numbered.parsing Numbered.numbered_rels (Ok Numbered.numFmts) in
  ∃ m w',
    File_rels (H := C) 0 Numbered.enumerated = (Ok m, w')
    ∧ m !! "rId1" = Some "theme.xml"
    ∧ m !! "rId2" = Some "header1.xml"
    ∧ m !! "rId3" = None.
Proof.
  intros C.
  destruct (File_rels_last_target (H := C) Numbered.enumerated Numbered.numbered_docx
              Numbered.enumerated_files 0 Numbered.document_part
              {| filename := "word/_rels/document.xml.rels";
                 header := "deflated word/_rels/document.xml.rels" |}
              "<Relationships>three</Relationships>"
              (Elem "Relationships" ∅ ""
                 [Numbered.relationship "rId1" "styles.xml";
                  Numbered.relationship "rId2" "header1.xml";
                  Numbered.relationship "rId1" "theme.xml"]))
    as (m & w' & Hrun & Hm & _).
  - vm_compute. eexists. split; [reflexivity|]. split; [reflexivity|]. split; reflexivity.
  - vm_compute; reflexivity.
  - vm_compute; reflexivity.
  - vm_compute; reflexivity.
  - vm_compute; reflexivity.
  - vm_compute; reflexivity.
  - repeat constructor; eexists; vm_compute; reflexivity.
  - exists m, w'. split; [exact Hrun|].
    rewrite !Hm. split; [|split]; vm_compute; reflexivity.
Defined.

Lemma File_rels_missing_attribute_witness :
  let C := Numbered.parsing Numbered.numbered_rels (Ok Numbered.numFmts) in
  ∃ w',
    File_rels (H := C) 1 Numbered.enumerated = (Ok ∅, w')
    ∧ File_rels (H := C) 1 w' = (Ok ∅, w')
    ∧ warnings w' = warnings Numbered.enumerated.
Proof.
  intros C.
  apply (File_rels_missing_attribute (H := C) Numbered.enumerated
           Numbered.numbered_docx Numbered.enumerated_files 1 Numbered.header1_part
           {| filename := "word/_rels/header1.xml.rels";
              header := "deflated word/_rels/header1.xml.rels" |}
           "<Relationships>broken</Relationships>"
           (Elem "Relationships" ∅ ""
              [Numbered.relationship "rId1" "media/a.png";
               Elem "Relationship" {[ "Id" := "rId2" ]} "" []])).
  - vm_compute. eexists. split; [reflexivity|]. split; [reflexivity|]. split; reflexivity.
  - vm_compute; reflexivity.
  - vm_compute; reflexivity.
  - vm_compute; reflexivity.
  - vm_compute; reflexivity.
  - vm_compute; reflexivity.
  - apply Exists_cons_tl, Exists_cons_hd.
    intros [_ [t Ht]]. vm_compute in Ht. discriminate.
Defined.

Lemma root_element_not_merged_witness :
  let C := Sample.toy Sample.example_rels Sample.merge_nothing in
  ∃ w',
    File_root_element (H := C) 1 Sample.enumerated
    = (Ok (Elem "root" ∅ "<w:styles/>" []), w')
    ∧ cached_root w' 1 = Some (Elem "root" ∅ "<w:styles/>" [])
    ∧ calls w'
      = calls Sample.enumerated ++ [call_read (the_path styles_part); call_fromstring]
    ∧ warnings w' = warnings Sample.enumerated.
Proof.
  intros C.
  apply (root_element_not_merged (H := C) Sample.enumerated 0 Sample.example_docx
           Sample.enumerated_files 1 styles_part
           {| filename := "word/styles.xml"; header := "deflated word/styles.xml" |}
           "<w:styles/>").
  - vm_compute. split; [reflexivity|]. eexists. split; [reflexivity|].
    split; [reflexivity|]. split; reflexivity.
  - vm_compute; reflexivity.
  - vm_compute; reflexivity.
  - vm_compute; reflexivity.
  - vm_compute; reflexivity.
  - vm_compute; reflexivity.
  - apply (bool_decide_eq_false_1 (Type_ styles_part ∈ CONTENT_FILE_TYPES)).
    vm_compute. reflexivity.
Defined.

Lemma root_element_merged_witness :
  let C := Sample.toy Sample.example_rels Sample.merge_nothing in
  ∃ w',
    File_root_element (H := C) 0 Sample.enumerated
    = (Ok (Elem "root" ∅ "<w:document>bullet item</w:document>" []), w')
    ∧ cached_root w' 0
      = Some (Elem "root" ∅ "<w:document>bullet item</w:document>" [])
    ∧ calls w'
      = calls Sample.enumerated
        ++ [call_read (the_path Sample.document_part); call_fromstring;
            call_merge_elems (the_path Sample.document_part)]
    ∧ warnings w' = warnings Sample.enumerated.
Proof.
  intros C.
  apply (root_element_merged (H := C) Sample.enumerated 0 Sample.example_docx
           Sample.enumerated_files 0 Sample.document_part
           {| filename := "word/document.xml"; header := "deflated word/document.xml" |}
           "<w:document>bullet item</w:document>"
           (Elem "root" ∅ "<w:document>bullet item</w:document>" [])).
  - vm_compute. split; [reflexivity|]. eexists. split; [reflexivity|].
    split; [reflexivity|]. split; reflexivity.
  - vm_compute; reflexivity.
  - vm_compute; reflexivity.
  - vm_compute; reflexivity.
  - vm_compute; reflexivity.
  - vm_compute; reflexivity.
  - apply (bool_decide_eq_true_1 (Type_ Sample.document_part ∈ CONTENT_FILE_TYPES)).
    vm_compute. reflexivity.
  - vm_compute; reflexivity.
Defined.

Lemma root_element_missing_member_witness :
  let C := Sample.toy Sample.example_rels Sample.merge_nothing in
  ∃ w',
    File_root_element (H := C) 5 Sample.enumerated
    = (Raise (KeyError ("There is no item named '" +:+ the_path image2_part
                        +:+ "' in the archive")), w')
    ∧ cached_root w' 5 = None
    ∧ File_root_element (H := C) 5 w'
      = (Raise (KeyError ("There is no item named '" +:+ the_path image2_part
                          +:+ "' in the archive")),
         logged w' (call_read (the_path image2_part))).
Proof.
  intros C.
  apply (root_element_missing_member (H := C) Sample.enumerated 0 Sample.example_docx
           Sample.enumerated_files 5 image2_part).
  - vm_compute. split; [reflexivity|]. eexists. split; [reflexivity|].
    split; [reflexivity|]. split; reflexivity.
  - vm_compute; reflexivity.
  - vm_compute; reflexivity.
  - vm_compute; reflexivity.
  - vm_compute; reflexivity.
Defined.

Lemma numId2numFmts_decoded_witness :
  let C := Numbered.parsing Numbered.numbered_rels (Ok Numbered.numFmts) in
  ∃ w',
    numId2numFmts (H := C) Numbered.enumerated = (Ok Numbered.numFmts, w')
    ∧ __numId2NumFmts (reader w') = Some Numbered.numFmts.
Proof.
  intros C.
  apply (numId2numFmts_decoded (H := C) Numbered.enumerated Numbered.numbered_docx
           {| filename := "word/numbering.xml"; header := "deflated word/numbering.xml" |}
           "<w:numbering/>" (Elem "numbering" ∅ "" [])).
  - vm_compute. eexists. split; [reflexivity|]. split; [reflexivity|]. split; reflexivity.
  - vm_compute; reflexivity.
  - vm_compute; reflexivity.
  - vm_compute; reflexivity.
Defined.

Lemma reads_after_close_fail_witness :
  let C := Sample.toy Sample.example_rels Sample.merge_nothing in
  let closed := ValueError "Attempt to use ZIP archive that was already closed" in
  ∃ w1,
    close Sample.enumerated = (Ok tt, w1)
    ∧ zipf w1 = (Ok 0, w1)
    ∧ (__numId2NumFmts (reader w1) = None →
       ∃ w2, numId2numFmts (H := C) w1 = (Raise closed, w2)
             ∧ __numId2NumFmts (reader w2) = None)
    ∧ (∀ i f, file_at w1 i = Some f → __rels f = None →
         ∃ w2, File_rels (H := C) i w1 = (Raise closed, w2)
               ∧ (file_at w2 i ≫= __rels) = None)
    ∧ (∀ i f, file_at w1 i = Some f → __root_element f = None →
         ∃ w2, File_root_element (H := C) i w1 = (Raise closed, w2)
               ∧ cached_root w2 i = None).
Proof.
  intros C.
  apply (reads_after_close_fail (H := C) Sample.enumerated 0 Sample.example_docx).
  vm_compute. split; [reflexivity|]. eexists. split; [reflexivity|].
  split; [reflexivity|]. split; reflexivity.
Defined.

Lemma close_is_idempotent_once_open_witness :
  ∃ w1,
    close Sample.enumerated = (Ok tt, w1)
    ∧ close w1 = (Ok tt, w1)
    ∧ __del__ w1 = (Ok tt, w1)
    ∧ (fp <$> zipfiles w1 !! 0) = Some false.
Proof.
  apply (close_is_idempotent_once_open Sample.enumerated 0 Sample.example_docx).
  vm_compute. split; [reflexivity|]. eexists. split; [reflexivity|].
  split; [reflexivity|]. split; reflexivity.
Defined.

Lemma zipf_missing_document_witness :
  let C := Sample.toy Sample.example_rels Sample.merge_nothing in
  let w := World_init ∅ "./missing.docx" false false in
  ∃ w',
    zipf (H := C) w = (Raise (FileNotFoundError "./missing.docx"), w')
    ∧ __zipf (reader w') = None
    ∧ zipfiles w' = zipfiles w
    ∧ ∀ ms,
        ∃ z w'', zipf (H := C)
                   (World_with_disk w' (<["missing.docx" := Archive ms]> (disk w')))
                 = (Ok z, w'')
                 ∧ opened w'' z ms.
Proof.
  intros C.
  apply (zipf_missing_document (H := C)
           (World_init ∅ "./missing.docx" false false));
    vm_compute; reflexivity.
Defined.

Lemma files_one_part_per_record_witness :
  let C := Numbered.parsing Numbered.numbered_rels (Ok Numbered.numFmts) in
  ∃ fs w',
    files (H := C) Numbered.unzipped = (Ok (seq 0 (length fs)), w')
    ∧ __files (reader w') = Some fs
    ∧ Forall2 made_from (records Numbered.numbered_rels) fs
    ∧ files (H := C) w' = (Ok (seq 0 (length fs)), w').
Proof.
  intros C.
  apply (files_one_part_per_record (H := C) Numbered.unzipped 0
           {| zip_name := "numbered.docx"; mode := mode_r;
              filelist := Numbered.numbered_docx; fp := true |}
           Numbered.numbered_rels).
  - vm_compute; reflexivity.
  - vm_compute; reflexivity.
  - vm_compute; reflexivity.
  - vm_compute; reflexivity.
  - repeat constructor; eexists; vm_compute; reflexivity.
Defined.

Lemma files_incomplete_record_witness :
  let C := Numbered.parsing Numbered.incomplete_rels (Ok Numbered.numFmts) in
  ∃ key w',
    key ∈ ["Id"; "Type"; "Target"]
    ∧ files (H := C) Numbered.unzipped = (Raise (KeyError key), w')
    ∧ __files (reader w') = None.
Proof.
  intros C.
  apply (files_incomplete_record (H := C) Numbered.unzipped 0
           {| zip_name := "numbered.docx"; mode := mode_r;
              filelist := Numbered.numbered_docx; fp := true |}
           Numbered.incomplete_rels).
  - vm_compute; reflexivity.
  - vm_compute; reflexivity.
  - vm_compute; reflexivity.
  - vm_compute; reflexivity.
  - intros Hall. apply Forall_cons in Hall as [_ Hall].
    apply Forall_cons in Hall as [(_ & _ & [t Ht]) _].
    vm_compute in Ht. discriminate.
Defined.

Lemma files_of_type_stable_witness :
  let C := Sample.toy Sample.example_rels Sample.merge_nothing in
  ∃ l w',
    files_of_type (H := C) (Some "header") Sample.enumerated = (Ok l, w')
    ∧ l = [3; 2]
    ∧ file_at w' 2 = Some (cache_path Sample.header2_part)
    ∧ file_at w' 0 = Some Sample.document_part
    ∧ calls w' = calls Sample.enumerated.
Proof.
  intros C.
  destruct (files_of_type_stable (H := C) Sample.enumerated Sample.enumerated_files
              "header")
    as (l & w' & Hrun & _ & _ & _ & Hat & Hcalls & _).
  - vm_compute; reflexivity.
  - exists l, w'. split; [exact Hrun|]. split; [|split; [|split]].
    + vm_compute in Hrun. congruence.
    + apply (Hat 2 Sample.header2_part). vm_compute; reflexivity.
    + apply (Hat 0 Sample.document_part). vm_compute; reflexivity.
    + exact Hcalls.
Defined.

Lemma file_of_type_no_part_witness :
  file_of_type (H := Sample.toy Sample.example_rels Sample.merge_nothing)
    "footnotes" Sample.enumerated
  = (Raise (KeyError ("There is no item of type '" +:+ "footnotes" +:+ "' "
                      +:+ "in the {self.docx_filename} archive")),
     Sample.enumerated).
Proof.
  apply (file_of_type_no_part
           (H := Sample.toy Sample.example_rels Sample.merge_nothing)
           Sample.enumerated Sample.enumerated_files "footnotes").
  - vm_compute; reflexivity.
  - intros i f Hi.
    assert (Forall (λ f, Type_ f ≠ "footnotes") Sample.enumerated_files) as Hall.
    { vm_compute. repeat constructor; discriminate. }
    rewrite Forall_lookup in Hall. by apply (Hall i).
Defined.

Lemma pull_image_files_written_witness :
  let C := Sample.toy Sample.example_rels Sample.merge_nothing in
  ∃ w',
    pull_image_files (H := C) (Some "out") Sample.enumerated
    = (Ok {[ "image1.png" := "PNG1" ]}, w')
    ∧ disk w' !! "out/image1.png" = Some (Plain "PNG1")
    ∧ disk w' !! "example.docx" = disk Sample.enumerated !! "example.docx".
Proof.
  intros C.
  assert (images_of Sample.example_docx Sample.enumerated_files
            (sorted_refs (Some "image") Sample.enumerated_files) ∅
          = {[ "image1.png" := "PNG1" ]}) as Himg by (vm_compute; reflexivity).
  destruct (pull_image_files_written (H := C) Sample.enumerated Sample.example_docx
              Sample.enumerated_files (Some "out"))
    as (w' & Hrun & Hthere & Hother).
  - vm_compute. eexists. split; [reflexivity|]. split; [reflexivity|]. split; reflexivity.
  - vm_compute; reflexivity.
  - rewrite Himg. exact writes_allowed_out.
  - intros d _ a b. rewrite Himg.
    intros [da Ha] [db Hb] _.
    apply lookup_singleton_Some in Ha as [<- _].
    by apply lookup_singleton_Some in Hb as [<- _].
  - rewrite Himg in Hrun, Hthere, Hother.
    exists w'. split; [exact Hrun|]. split.
    + apply (Hthere "image1.png" "PNG1"). apply lookup_singleton_eq.
    + apply Hother. intros name [data Hname].
      apply lookup_singleton_Some in Hname as [<- _]. vm_compute. discriminate.
Defined.

Lemma pull_image_files_directory_is_file_witness :
  let C := Sample.toy Sample.example_rels Sample.merge_nothing in
  ∃ w',
    pull_image_files (H := C) (Some "./example.docx") Sample.enumerated
    = (Raise (OSError "FileExistsError"), w')
    ∧ disk w' = disk Sample.enumerated.
Proof.
  intros C.
  apply (pull_image_files_directory_is_file (H := C) Sample.enumerated
           Sample.example_docx Sample.enumerated_files "./example.docx").
  - vm_compute. eexists. split; [reflexivity|]. split; [reflexivity|]. split; reflexivity.
  - vm_compute; reflexivity.
  - vm_compute. by eexists.
Defined.

Lemma copy_but_copies_and_closes_witness :
  ∃ w',
    _copy_but 0 1 (Some {[ "word/document.xml" ]}) copying = (Ok tt, w')
    ∧ disk w' !! "example_copy.docx"
      = Some (Archive
                (List.filter
                   (λ m, bool_decide (filename (fst m) ∉ ({[ "word/document.xml" ]}
                                                          : gset string)))
                   Sample.example_docx))
    ∧ (fp <$> zipfiles w' !! 0) = Some false
    ∧ (fp <$> zipfiles w' !! 1) = Some false.
Proof.
  destruct (copy_but_copies_and_closes copying 0 1
              {| zip_name := "example.docx"; mode := mode_r;
                 filelist := Sample.example_docx; fp := true |}
              {| zip_name := "example_copy.docx"; mode := mode_w;
                 filelist := []; fp := true |}
              (Some {[ "word/document.xml" ]}))
    as (w' & Hrun & Hd & _ & _ & Hin & Hout).
  - done.
  - vm_compute; reflexivity.
  - reflexivity.
  - reflexivity.
  - vm_compute; reflexivity.
  - vm_compute; reflexivity.
  - reflexivity.
  - reflexivity.
  - discriminate.
  - apply (bool_decide_unpack _). vm_compute. exact I.
  - exists w'. split; [exact Hrun|]. split; [|done].
    rewrite Hd. simpl. by rewrite lookup_insert_eq.
Defined.

Lemma copy_but_closed_source_witness :
  ∃ w',
    _copy_but 0 1 None copying_closed
    = (Raise (ValueError "Attempt to use ZIP archive that was already closed"), w')
    ∧ zipfiles w' = zipfiles copying_closed
    ∧ disk w' = disk copying_closed.
Proof.
  apply (copy_but_closed_source copying_closed 0 1
           {| zip_name := "example.docx"; mode := mode_r;
              filelist := Sample.example_docx; fp := false |}
           {| zip_name := "example_copy.docx"; mode := mode_w;
              filelist := []; fp := true |}
           None).
  - vm_compute; reflexivity.
  - reflexivity.
  - vm_compute; reflexivity.
  - exists (Sample.mem "_rels/.rels" "<Relationships/>"). split.
    + apply list_elem_of_here.
    + simpl. apply not_elem_of_empty.
Defined.

Lemma save_copies_and_closes_witness :
  let C := Sample.toy Sample.example_rels Sample.merge_nothing in
  ∃ r w',
    save (H := C) "./example_copy.docx" Sample.enumerated = (r, w')
    ∧ disk w' !! "example_copy.docx"
      = Some (Archive
                (List.filter
                   (λ m, bool_decide (filename (fst m)
                                      ∉ content_paths Sample.enumerated_files))
                   Sample.example_docx))
    ∧ (∀ k, k ≠ "example_copy.docx" → disk w' !! k = disk Sample.enumerated !! k)
    ∧ intact (disk w')
        {| zip_name := "example.docx"; mode := mode_r;
           filelist := Sample.example_docx; fp := true |}
    ∧ (fp <$> zipfiles w' !! 0) = Some false
    ∧ (r = Ok tt ↔ ∀ i f, Sample.enumerated_files !! i = Some f →
                          Type_ f ∉ CONTENT_FILE_TYPES).
Proof.
  intros C.
  apply (save_copies_and_closes (H := C) Sample.enumerated Sample.enumerated_files 0
           {| zip_name := "example.docx"; mode := mode_r;
              filelist := Sample.example_docx; fp := true |}
           "./example_copy.docx").
  - vm_compute; reflexivity.
  - vm_compute; reflexivity.
  - vm_compute; reflexivity.
  - reflexivity.
  - reflexivity.
  - vm_compute; reflexivity.
  - vm_compute. discriminate.
  - vm_compute; reflexivity.
  - apply (bool_decide_unpack _). vm_compute. exact I.
Defined.

Lemma checkBox_checked_decides_witness :
  Forms.get_checkBox_entry Forms.qn_w Forms.sample_checkBox
  = Forms.Returns Forms.unchecked_box.
Proof.
  rewrite (checkBox_checked_decides Forms.qn_w Forms.sample_checkBox
             (Forms.w_elem "checked" (Some "0")) []).
  - vm_compute; reflexivity.
  - vm_compute; reflexivity.
Defined.

Lemma checkBox_default_decides_witness :
  Forms.get_checkBox_entry Forms.qn_w Forms.sample_default_only
  = Forms.Returns Forms.checked_box.
Proof.
  rewrite (checkBox_default_decides Forms.qn_w Forms.sample_default_only).
  - vm_compute; reflexivity.
  - vm_compute; reflexivity.
Defined.

Lemma ddList_first_entry_by_default_witness :
  Forms.get_ddList_entry Forms.qn_w Forms.int_decimal Forms.sample_ddList_no_result
  = Forms.Returns "selection 1".
Proof.
  rewrite (ddList_first_entry_by_default Forms.qn_w Forms.int_decimal
             Forms.sample_ddList_no_result).
  - vm_compute; reflexivity.
  - vm_compute; reflexivity.
Defined.

Lemma ddList_selected_entry_witness :
  Forms.get_ddList_entry Forms.qn_w Forms.int_decimal Forms.sample_ddList
  = Forms.Returns "selection 2".
Proof.
  rewrite (ddList_selected_entry Forms.qn_w Forms.int_decimal Forms.sample_ddList
             "1" 1%Z).
  - vm_compute; reflexivity.
  - vm_compute; reflexivity.
  - vm_compute; reflexivity.
Defined.

Lemma ddList_unreadable_index_witness :
  Forms.get_ddList_entry Forms.qn_w Forms.int_decimal
    (Elem (Forms.qn_w "w:ddList") ∅ ""
       [Forms.w_elem "result" (Some "one"); Forms.w_elem "listEntry" (Some "selection 1")])
  = Forms.Raises
      (Forms.Exn (ValueError "invalid literal for int() with base 10: 'one'")).
Proof.
  apply (ddList_unreadable_index Forms.qn_w Forms.int_decimal _ "one").
  - vm_compute; reflexivity.
  - vm_compute; reflexivity.
  - reflexivity.
Defined.
